(** * mp4writer: sample-table model of the muxer and the demuxer

    A shallow embedding of [time.ts], [MP4PushEncoderMuxer.ts] and
    [MP4PullDemuxer.ts].

    JavaScript numbers are modelled exactly: integer-valued quantities
    (sample numbers, byte offsets, sizes, timestamps in track units) as [Z],
    quantities in seconds, milliseconds or microseconds as rationals [Q].
    The rational model agrees with IEEE doubles wherever the intermediate
    values are representable.  Divisions are by timescales; a division by
    zero, which JavaScript answers with [Infinity] or [NaN], is outside the
    model, and the theorems about timestamps take the timescales of the
    indexed samples to be positive.

    Layout: the embedding ([Time], [JS], [Mux], [Demux]), the predicates the
    properties are stated with ([Spec]), concrete files ([Examples]), then
    the properties. *)

From Stdlib Require Import ZArith QArith Qround List Bool Lia.
From Stdlib Require Import Permutation Sorted String.
Import ListNotations.
Open Scope Z_scope.

Definition bytes := list Byte.byte.

(** ** time.ts *)
Module Time.

Definition secToMs (sec : Q) : Q := (sec * 1000)%Q.
Definition msToSec (ms : Q) : Q := (ms / 1000)%Q.
Definition secToUs (sec : Q) : Q := (sec * 1000000)%Q.
Definition usToSec (us : Q) : Q := (us / 1000000)%Q.

End Time.

(** ** The JavaScript built-ins the two classes use *)
Module JS.

(** [Math.round]: nearest integer, halves towards plus infinity. *)
Definition Math_round (x : Q) : Z := Qfloor (x + (1 # 2))%Q.

Definition Math_ceil (x : Q) : Z := Qceiling x.

(** [arr.at(-1)] *)
Fixpoint at_last {A} (l : list A) : option A :=
  match l with
  | [] => None
  | [x] => Some x
  | _ :: l' => at_last l'
  end.

(** [arr[i]] for a number [i]; [undefined] is [None]. *)
Definition index {A} (l : list A) (i : Z) : option A :=
  if i <? 0 then None else nth_error l (Z.to_nat i).

Definition length {A} (l : list A) : Z := Z.of_nat (List.length l).

(** [arr.slice(start, end)]: negative arguments count from the end, both are
    clamped to the array, an empty range gives the empty array. *)
Definition clamp_index (len i : Z) : Z :=
  if i <? 0 then Z.max (len + i) 0 else Z.min i len.

Definition slice {A} (l : list A) (start stop : Z) : list A :=
  let k := clamp_index (length l) start in
  let final := clamp_index (length l) stop in
  firstn (Z.to_nat (final - k)) (skipn (Z.to_nat k) l).

(** [arr.toSorted((a, b) => key(a) - key(b))]: the sort is stable, so the
    result is the unique ordering by [key] that keeps equal keys in their
    original order.  Insertion from the right puts an element in front of
    the first one whose key is not smaller. *)
Section Sorting.
Context {A : Type} (key : A -> Z).

Fixpoint insert_by (x : A) (l : list A) : list A :=
  match l with
  | [] => [x]
  | y :: l' => if key x <=? key y then x :: l else y :: insert_by x l'
  end.

Definition toSorted (l : list A) : list A := fold_right insert_by [] l.
End Sorting.

Definition find {A} (p : A -> bool) (l : list A) : option A := List.find p l.
Definition findLast {A} (p : A -> bool) (l : list A) : option A :=
  List.find p (rev l).

(** [typed.set(src, offset)]: a [RangeError] ([None]) when [src] does not fit. *)
Definition typed_set {A} (dst src : list A) (offset : Z) : option (list A) :=
  if (offset <? 0) || (length dst <? offset + length src) then None
  else Some (firstn (Z.to_nat offset) dst ++ src
             ++ skipn (Z.to_nat offset + List.length src) dst).

End JS.

(** ** Results of calls that can throw *)
Inductive Result (A : Type) : Type :=
| Ok (a : A)
| Throw (e : string).
Arguments Ok {A} a.
Arguments Throw {A} e.

(** ** MP4PushEncoderMuxer.ts *)
Module Mux.

Record Sample := {
  number : Z;
  data : bytes;
  duration : Z;
  dts : Z;
  sync : bool;
  offset : Z;
  size : Z
}.

Record Config := {
  audioSampleRate : Q;
  audioSamplesPerChunk : Q;
  audioOutputChannels : Q;
  audioBitrate : Q;
  audioChunkSec : Q;
  videoOutputTimescale : Q;
  videoSamplesPerChunk : Q;
  videoBitrate : Q;
  videoChunkSec : Q;
  keyframeIntevalSec : Q;
  latencyMode : string
}.

Definition DEFAULT_COMPATIBLE_BRANDS : list string :=
  ["mp42"; "isom"; "iso2"; "iso5"; "avc1"; "mp41"]%string.

Definition DEFAULT_CONFIG : Config := {|
  audioSampleRate := 48000;
  audioSamplesPerChunk := 1;
  audioOutputChannels := 2;
  audioBitrate := 64000;
  audioChunkSec := Time.msToSec 20;
  videoOutputTimescale := 90000;
  videoSamplesPerChunk := 1;
  videoBitrate := 2000000;
  videoChunkSec := Time.usToSec 33333;
  keyframeIntevalSec := 2;
  latencyMode := "realtime"
|}.

(** *** The Codec Engine, at its interface *)
Inductive ChunkType := Key | Delta.

Record EncodedVideoChunk := {
  v_type : ChunkType;
  v_timestamp : Z;
  v_duration : option Z;
  v_payload : bytes
}.

Record EncodedAudioChunk := {
  a_timestamp : Z;
  a_duration : option Z;
  a_payload : bytes
}.

(** [meta?.decoderConfig?.description] *)
Definition ChunkMetadata := option bytes.

Record VideoFrame := { f_timestamp : Z; f_duration : option Z }.

Inductive CodecState := Unconfigured | Configured | Closed.

(** An encoder is its state and the [encode] requests submitted to it so
    far, oldest first; a video request carries the [keyFrame] option. *)
Record Encoder (Req : Type) := {
  enc_state : CodecState;
  enc_requests : list Req
}.
Arguments enc_state {Req} e.
Arguments enc_requests {Req} e.

Definition enc_close {Req} (e : Encoder Req) : Encoder Req :=
  {| enc_state := Closed; enc_requests := enc_requests e |}.

(** [encoder.encode(req)]: an [InvalidStateError] unless configured. *)
Definition enc_encode {Req} (r : Req) (e : Encoder Req) : option (Encoder Req) :=
  match enc_state e with
  | Configured => Some {| enc_state := Configured;
                          enc_requests := enc_requests e ++ [r] |}
  | _ => None
  end.

(** *** Boxes, as the fluent builder leaves them *)
Inductive Value :=
| VNum (q : Q)
| VStr (s : string)
| VNums (l : list Q)
| VStrs (l : list string)
| VBytes (b : bytes).

#[local] Unset Elimination Schemes.
Inductive Box := MkBox (type : string) (fields : list (string * Value))
                       (children : list Box).

#[local] Set Elimination Schemes.

Definition MP4File := list Box.

Record State := {
  cfg : Config;
  compatibleBrands : list string;
  mdatStartOffset : Z;
  videoEncoder : Encoder (VideoFrame * bool);
  audioEncoder : Encoder unit;
  videoWidth : Z;
  videoHeight : Z;
  videoSamples : list Sample;
  audioSamples : list Sample;
  nextKeyframeUs : Q;
  mp4box : option MP4File;
  avcDecoderConfigRecord : bytes;
  _encoderError : option string;
  warnings : list string
}.

Definition EMPTY_SAMPLE : Sample :=
  {| number := 0; offset := 0; dts := 0; duration := 0; sync := false;
     size := 0; data := [] |}.

Definition default_avcDecoderConfigRecord : bytes :=
  map (fun n => match Byte.of_N n with Some b => b | None => Byte.x00 end)
    [1; 77; 0; 32; 255; 225; 0; 27; 39; 77; 0; 32; 137; 139; 40; 46; 10; 60;
     190; 0; 24; 24; 0; 46; 224; 0; 11; 184; 47; 123; 224; 248; 68; 35; 44;
     1; 0; 4; 40; 239; 31; 32]%N.

(** The constructor. *)
Definition new (c : Config) : State := {|
  cfg := c;
  compatibleBrands := DEFAULT_COMPATIBLE_BRANDS;
  mdatStartOffset := 16 + 4 * JS.length DEFAULT_COMPATIBLE_BRANDS + 8;
  videoEncoder := {| enc_state := Unconfigured; enc_requests := [] |};
  audioEncoder := {| enc_state := Unconfigured; enc_requests := [] |};
  videoWidth := 0;
  videoHeight := 0;
  videoSamples := [];
  audioSamples := [];
  nextKeyframeUs := 0;
  mp4box := None;
  avcDecoderConfigRecord := default_avcDecoderConfigRecord;
  _encoderError := None;
  warnings := []
|}.

Definition set_videoSamples (l : list Sample) (s : State) : State :=
  {| cfg := cfg s; compatibleBrands := compatibleBrands s;
     mdatStartOffset := mdatStartOffset s; videoEncoder := videoEncoder s;
     audioEncoder := audioEncoder s; videoWidth := videoWidth s;
     videoHeight := videoHeight s; videoSamples := l;
     audioSamples := audioSamples s; nextKeyframeUs := nextKeyframeUs s;
     mp4box := mp4box s; avcDecoderConfigRecord := avcDecoderConfigRecord s;
     _encoderError := _encoderError s; warnings := warnings s |}.

Definition set_audioSamples (l : list Sample) (s : State) : State :=
  {| cfg := cfg s; compatibleBrands := compatibleBrands s;
     mdatStartOffset := mdatStartOffset s; videoEncoder := videoEncoder s;
     audioEncoder := audioEncoder s; videoWidth := videoWidth s;
     videoHeight := videoHeight s; videoSamples := videoSamples s;
     audioSamples := l; nextKeyframeUs := nextKeyframeUs s;
     mp4box := mp4box s; avcDecoderConfigRecord := avcDecoderConfigRecord s;
     _encoderError := _encoderError s; warnings := warnings s |}.

Definition set_avcDecoderConfigRecord (b : bytes) (s : State) : State :=
  {| cfg := cfg s; compatibleBrands := compatibleBrands s;
     mdatStartOffset := mdatStartOffset s; videoEncoder := videoEncoder s;
     audioEncoder := audioEncoder s; videoWidth := videoWidth s;
     videoHeight := videoHeight s; videoSamples := videoSamples s;
     audioSamples := audioSamples s; nextKeyframeUs := nextKeyframeUs s;
     mp4box := mp4box s; avcDecoderConfigRecord := b;
     _encoderError := _encoderError s; warnings := warnings s |}.

Definition set_nextKeyframeUs (q : Q) (s : State) : State :=
  {| cfg := cfg s; compatibleBrands := compatibleBrands s;
     mdatStartOffset := mdatStartOffset s; videoEncoder := videoEncoder s;
     audioEncoder := audioEncoder s; videoWidth := videoWidth s;
     videoHeight := videoHeight s; videoSamples := videoSamples s;
     audioSamples := audioSamples s; nextKeyframeUs := q;
     mp4box := mp4box s; avcDecoderConfigRecord := avcDecoderConfigRecord s;
     _encoderError := _encoderError s; warnings := warnings s |}.

Definition set_encoders (v : Encoder (VideoFrame * bool)) (a : Encoder unit)
    (s : State) : State :=
  {| cfg := cfg s; compatibleBrands := compatibleBrands s;
     mdatStartOffset := mdatStartOffset s; videoEncoder := v;
     audioEncoder := a; videoWidth := videoWidth s;
     videoHeight := videoHeight s; videoSamples := videoSamples s;
     audioSamples := audioSamples s; nextKeyframeUs := nextKeyframeUs s;
     mp4box := mp4box s; avcDecoderConfigRecord := avcDecoderConfigRecord s;
     _encoderError := _encoderError s; warnings := warnings s |}.

Definition set_encoderError (e : option string) (s : State) : State :=
  {| cfg := cfg s; compatibleBrands := compatibleBrands s;
     mdatStartOffset := mdatStartOffset s; videoEncoder := videoEncoder s;
     audioEncoder := audioEncoder s; videoWidth := videoWidth s;
     videoHeight := videoHeight s; videoSamples := videoSamples s;
     audioSamples := audioSamples s; nextKeyframeUs := nextKeyframeUs s;
     mp4box := mp4box s; avcDecoderConfigRecord := avcDecoderConfigRecord s;
     _encoderError := e; warnings := warnings s |}.

Definition set_mp4box (m : option MP4File) (s : State) : State :=
  {| cfg := cfg s; compatibleBrands := compatibleBrands s;
     mdatStartOffset := mdatStartOffset s; videoEncoder := videoEncoder s;
     audioEncoder := audioEncoder s; videoWidth := videoWidth s;
     videoHeight := videoHeight s; videoSamples := videoSamples s;
     audioSamples := audioSamples s; nextKeyframeUs := nextKeyframeUs s;
     mp4box := m; avcDecoderConfigRecord := avcDecoderConfigRecord s;
     _encoderError := _encoderError s; warnings := warnings s |}.

Definition set_dimensions (w h : Z) (s : State) : State :=
  {| cfg := cfg s; compatibleBrands := compatibleBrands s;
     mdatStartOffset := mdatStartOffset s; videoEncoder := videoEncoder s;
     audioEncoder := audioEncoder s; videoWidth := w;
     videoHeight := h; videoSamples := videoSamples s;
     audioSamples := audioSamples s; nextKeyframeUs := nextKeyframeUs s;
     mp4box := mp4box s; avcDecoderConfigRecord := avcDecoderConfigRecord s;
     _encoderError := _encoderError s; warnings := warnings s |}.

Definition add_warning (w : string) (s : State) : State :=
  {| cfg := cfg s; compatibleBrands := compatibleBrands s;
     mdatStartOffset := mdatStartOffset s; videoEncoder := videoEncoder s;
     audioEncoder := audioEncoder s; videoWidth := videoWidth s;
     videoHeight := videoHeight s; videoSamples := videoSamples s;
     audioSamples := audioSamples s; nextKeyframeUs := nextKeyframeUs s;
     mp4box := mp4box s; avcDecoderConfigRecord := avcDecoderConfigRecord s;
     _encoderError := _encoderError s; warnings := warnings s ++ [w] |}.

(** [closeEncoders] *)
Definition closeEncoders (s : State) : State :=
  set_encoders (enc_close (videoEncoder s)) (enc_close (audioEncoder s)) s.

(** [onEncodedVideoChunk] *)
Definition onEncodedVideoChunk (chunk : EncodedVideoChunk)
    (meta : ChunkMetadata) (s : State) : State :=
  let s1 := match meta with
            | Some description => set_avcDecoderConfigRecord description s
            | None => s
            end in
  let data := v_payload chunk in
  let prev := match JS.at_last (videoSamples s1) with
              | Some p => p
              | None => EMPTY_SAMPLE
              end in
  let dts := JS.Math_round
    (Time.usToSec (inject_Z (v_timestamp chunk)) * videoOutputTimescale (cfg s1))%Q in
  let duration := JS.Math_round
    (Time.usToSec (inject_Z (match v_duration chunk with Some d => d | None => 0 end))
     * videoOutputTimescale (cfg s1))%Q in
  set_videoSamples
    (videoSamples s1 ++
     [{| number := number prev + 1;
         offset := offset prev + size prev;
         sync := match v_type chunk with Key => true | Delta => false end;
         dts := dts;
         duration := duration;
         size := JS.length data;
         data := data |}]) s1.

(** [onEncodedAudioChunk]: a chunk without a (non-zero) duration is dropped
    with a warning. *)
Definition onEncodedAudioChunk (chunk : EncodedAudioChunk) (s : State) : State :=
  let data := a_payload chunk in
  let prev := match JS.at_last (audioSamples s) with
              | Some p => p
              | None => EMPTY_SAMPLE
              end in
  match a_duration chunk with
  | None => add_warning "Audio chunk dropped: missing duration" s
  | Some 0 => add_warning "Audio chunk dropped: missing duration" s
  | Some d =>
      let dts := JS.Math_round
        (Time.usToSec (inject_Z (a_timestamp chunk)) * audioSampleRate (cfg s))%Q in
      let duration := JS.Math_round
        (Time.usToSec (inject_Z d) * audioSampleRate (cfg s))%Q in
      set_audioSamples
        (audioSamples s ++
         [{| number := number prev + 1;
             offset := offset prev + size prev;
             sync := true;
             dts := dts;
             duration := duration;
             size := JS.length data;
             data := data |}]) s
  end.

(** The [error] callback both encoders are constructed with. *)
Definition onError (e : string) (s : State) : State :=
  closeEncoders (set_encoderError (Some e) s).

(** What the Codec Engine can call back with. *)
Inductive EncoderEvent :=
| VideoOutput (chunk : EncodedVideoChunk) (meta : ChunkMetadata)
| AudioOutput (chunk : EncodedAudioChunk)
| EncoderFailure (e : string).

Definition deliver (s : State) (ev : EncoderEvent) : State :=
  match ev with
  | VideoOutput chunk meta => onEncodedVideoChunk chunk meta s
  | AudioOutput chunk => onEncodedAudioChunk chunk s
  | EncoderFailure e => onError e s
  end.

Definition deliver_all (evs : list EncoderEvent) (s : State) : State :=
  fold_left deliver evs s.

(** [pushVideoFrame]; closing the frame leaves no trace in this state. *)
Definition pushVideoFrame (frame : VideoFrame) (s : State) : Result unit * State :=
  match _encoderError s with
  | Some e => (Throw e, s)
  | None =>
      let keyFrame := Qle_bool (nextKeyframeUs s) (inject_Z (f_timestamp frame)) in
      let s1 := if keyFrame
                then set_nextKeyframeUs
                       (nextKeyframeUs s + Time.secToUs (keyframeIntevalSec (cfg s)))%Q s
                else s in
      match enc_encode (frame, keyFrame) (videoEncoder s1) with
      | Some enc => (Ok tt, set_encoders enc (audioEncoder s1) s1)
      | None => (Throw "InvalidStateError", s1)
      end
  end.

(** [pushAudioData] *)
Definition pushAudioData (s : State) : Result unit * State :=
  match _encoderError s with
  | Some e => (Throw e, s)
  | None =>
      match enc_encode tt (audioEncoder s) with
      | Some enc => (Ok tt, set_encoders (videoEncoder s) enc s)
      | None => (Throw "InvalidStateError", s)
      end
  end.

(** What a [flush()] of an encoder did: the callbacks the engine made while
    the promise was pending, and whether the promise was rejected. *)
Record FlushOutcome := {
  fl_events : list EncoderEvent;
  fl_rejected : option string
}.

Definition sumQ (l : list Q) : Q := fold_left Qplus l 0%Q.

Definition zeros (n : Z) : bytes := repeat Byte.x00 (Z.to_nat n).

(** [samples.forEach(s => mdatData.set(s.data, s.offset + base))] *)
Fixpoint write_samples (base : Z) (l : list Sample) (buf : bytes) : option bytes :=
  match l with
  | [] => Some buf
  | s :: l' =>
      match JS.typed_set buf (data s) (offset s + base) with
      | Some buf' => write_samples base l' buf'
      | None => None
      end
  end.

Definition zq (z : Z) : Q := inject_Z z.
Definition unity_matrix : Value :=
  VNums [65536; 0; 0; 0; 65536; 0; 0; 0; 1073741824]%Q.

Definition url_entry : Box :=
  MkBox "url " [("flags", VNum 1); ("version", VNum 0)]%string [].

(** [x << 16] on a number: the result is a signed 32-bit integer. *)
Definition shl16 (x : Z) : Z :=
  let y := (x * 65536) mod 4294967296 in
  if y <? 2147483648 then y else y - 4294967296.

Definition video_trak (s : State) (videoDurationMs : Q) : Box :=
  let c := cfg s in
  let vs := videoSamples s in
  MkBox "trak" [] [
    MkBox "tkhd" [("flags", VNum 3); ("creation_time", VNum 0);
                  ("modification_time", VNum 0); ("track_id", VNum 1);
                  ("duration", VNum videoDurationMs); ("layer", VNum 0);
                  ("alternate_group", VNum 0); ("volume", VNum 0);
                  ("matrix", unity_matrix);
                  ("width", VNum (zq (shl16 (videoWidth s))));
                  ("height", VNum (zq (shl16 (videoHeight s))))]%string [];
    MkBox "mdia" [] [
      MkBox "mdhd" [("creation_time", VNum 0); ("modification_time", VNum 0);
                    ("timescale", VNum (videoOutputTimescale c));
                    ("duration", VNum (Time.msToSec videoDurationMs
                                       * videoOutputTimescale c)%Q);
                    ("language", VStr "eng")]%string [];
      MkBox "hdlr" [("handler", VStr "vide");
                    ("name", VStr "Track created by MP4Writer. nicholaswaltz.com/mp4writer")]%string [];
      MkBox "minf" [] [
        MkBox "vmhd" [("flags", VNum 1); ("graphicsmode", VNum 0);
                      ("opcolor", VNums [0; 0; 0]%Q)]%string [];
        MkBox "dinf" [] [MkBox "dref" [] [url_entry]];
        MkBox "stbl" [] [
          MkBox "stsd" [] [
            MkBox "avc1" [("data_reference_index", VNum 1);
                          ("width", VNum (zq (videoWidth s)));
                          ("height", VNum (zq (videoHeight s)));
                          ("horizresolution", VNum 4718592);
                          ("vertresolution", VNum 4718592);
                          ("frame_count", VNum 1);
                          ("compressorname", VStr "avc1 Compressor");
                          ("depth", VNum 24)]%string
              [MkBox "avcC" [("record", VBytes (avcDecoderConfigRecord s))]%string []]];
          MkBox "stts" [("sample_counts", VNums [zq (JS.length vs)]);
                        ("sample_deltas",
                         VNums [(videoChunkSec c * videoOutputTimescale c)%Q])]%string [];
          MkBox "stss" [("version", VNum 0);
                        ("sample_numbers",
                         VNums (map (fun x => zq (number x)) (filter sync vs)))]%string [];
          MkBox "stsc" [("first_chunk", VNums [1%Q]);
                        ("samples_per_chunk", VNums [videoSamplesPerChunk c]);
                        ("sample_description_index", VNums [1%Q])]%string [];
          MkBox "stco" [("chunk_offsets",
                         VNums (map (fun x => zq (offset x + mdatStartOffset s)) vs))]%string [];
          MkBox "stsz" [("sample_sizes",
                         VNums (map (fun x => zq (size x)) vs))]%string []]]]].

Definition audio_trak (s : State) (audioDurationMs : Q) (audioBaseOffset : Z) : Box :=
  let c := cfg s in
  let aus := audioSamples s in
  MkBox "trak" [] [
    MkBox "tkhd" [("flags", VNum 3); ("creation_time", VNum 0);
                  ("modification_time", VNum 0); ("track_id", VNum 2);
                  ("duration", VNum audioDurationMs); ("layer", VNum 0);
                  ("alternate_group", VNum 0); ("volume", VNum 1);
                  ("matrix", unity_matrix);
                  ("width", VNum 0); ("height", VNum 0)]%string [];
    MkBox "mdia" [] [
      MkBox "mdhd" [("creation_time", VNum 0); ("modification_time", VNum 0);
                    ("timescale", VNum (audioSampleRate c));
                    ("duration", VNum (Time.msToSec audioDurationMs
                                       * audioSampleRate c)%Q);
                    ("language", VStr "eng")]%string [];
      MkBox "hdlr" [("handler", VStr "soun");
                    ("name", VStr "Track created using MP4Writer, see nicholaswaltz.com/mp4writer")]%string [];
      MkBox "minf" [] [
        MkBox "smhd" [("flags", VNum 1); ("version", VNum 0);
                      ("balance", VNum 0)]%string [];
        MkBox "dinf" [] [MkBox "dref" [] [url_entry]];
        MkBox "stbl" [] [
          MkBox "stsd" [] [
            MkBox "Opus" [("data_reference_index", VNum 1);
                          ("samplerate", VNum (audioSampleRate c));
                          ("samplesize", VNum 16);
                          ("channel_count", VNum (audioOutputChannels c))]%string
              [MkBox "dOps" [("Version", VNum 0);
                             ("OutputChannelCount", VNum (audioOutputChannels c));
                             ("InputSampleRate", VNum (audioSampleRate c));
                             ("OutputGain", VNum 0);
                             ("PreSkip", VNum 312);
                             ("ChannelMappingFamily", VNum 0)]%string []]];
          MkBox "stts" [("sample_counts", VNums [zq (JS.length aus)]);
                        ("sample_deltas",
                         VNums [(audioChunkSec c * audioSampleRate c)%Q])]%string [];
          MkBox "stsc" [("first_chunk", VNums [1%Q]);
                        ("samples_per_chunk", VNums [audioSamplesPerChunk c]);
                        ("sample_description_index", VNums [1%Q])]%string [];
          MkBox "stco" [("chunk_offsets",
                         VNums (map (fun x => zq (offset x + audioBaseOffset
                                                  + mdatStartOffset s)) aus))]%string [];
          MkBox "stsz" [("sample_sizes", VNums (map (fun x => zq (size x)) aus));
                        ("sample_size", VNum 0);
                        ("sample_count", VNum (zq (JS.length aus)))]%string [];
          MkBox "sgpd" [("version", VNum 1); ("grouping_type", VStr "roll");
                        ("used", VNum 1); ("default_length", VNum 2);
                        ("entries", VNums [(-100)%Q])]%string [];
          MkBox "sbgp" [("version", VNum 0); ("grouping_type", VStr "roll");
                        ("grouping_type_parameter", VNum 0);
                        ("entries", VNums [zq (JS.length aus); 1%Q])]%string []]]]].

Definition NO_VIDEO_SAMPLES : string := "Write failed: No video samples to write.".

(** The part of [multiplexToBuffer] after the guards: every box is built
    here, starting with [MP4Box.createFile()]. *)
Definition assemble (s : State) : Result MP4File * State :=
  let c := cfg s in
  let s0 := set_mp4box (Some []) s in
  let videoDurationMs :=
    sumQ (map (fun x => Time.secToMs (zq (duration x) / videoOutputTimescale c))
              (videoSamples s)) in
  let audioDurationMs :=
    sumQ (map (fun x => Time.secToMs (zq (duration x) / audioSampleRate c))
              (audioSamples s)) in
  let ftyp := MkBox "ftyp"
    [("major_brand", VStr (hd ""%string (compatibleBrands s)));
     ("minor_version", VNum 512);
     ("compatible_brands", VStrs (compatibleBrands s))]%string [] in
  let total := fold_left (fun acc x => size x + acc) (videoSamples s) 0
               + fold_left (fun acc x => size x + acc) (audioSamples s) 0 in
  let partial := set_mp4box (Some [ftyp; MkBox "mdat" [] []]) s in
  match write_samples 0 (videoSamples s) (zeros total) with
  | None => (Throw "RangeError", partial)
  | Some buf1 =>
      match JS.at_last (videoSamples s) with
      | None => (Throw "TypeError", partial)
      | Some lastVideoSample =>
          let audioBaseOffset := offset lastVideoSample + size lastVideoSample in
          match write_samples audioBaseOffset (audioSamples s) buf1 with
          | None => (Throw "RangeError", partial)
          | Some mdatData =>
              let mdat := MkBox "mdat" [("data", VBytes mdatData)]%string [] in
              let moov := MkBox "moov" [] [
                MkBox "mvhd" [("timescale", VNum 1000); ("rate", VNum 65536);
                              ("creation_time", VNum 0);
                              ("modification_time", VNum 0);
                              ("duration",
                               VNum (if Qle_bool audioDurationMs videoDurationMs
                                     then videoDurationMs else audioDurationMs));
                              ("volume", VNum 1);
                              ("matrix", unity_matrix);
                              ("next_track_id", VNum 1)]%string [];
                video_trak s videoDurationMs;
                audio_trak s audioDurationMs audioBaseOffset] in
              let file := [ftyp; mdat; moov] in
              (Ok file, set_mp4box (Some file) s)
          end
      end
  end.

(** [multiplexToBuffer], given what the two flushes did. *)
Definition multiplexToBuffer (audioFlush videoFlush : FlushOutcome) (s : State)
    : Result MP4File * State :=
  let s1 := deliver_all (fl_events audioFlush) s in
  match fl_rejected audioFlush with
  | Some e => (Throw e, closeEncoders s1)
  | None =>
      let s2 := deliver_all (fl_events videoFlush) s1 in
      match fl_rejected videoFlush with
      | Some e => (Throw e, closeEncoders s2)
      | None =>
          match _encoderError s2 with
          | Some e => (Throw e, s2)
          | None =>
              if JS.length (videoSamples s2) =? 0
              then (Throw NO_VIDEO_SAMPLES, s2)
              else assemble s2
          end
      end
  end.

(** [configureEncoders], given the answers of the two [isConfigSupported]
    queries; the waits of [isConfigured] are taken to succeed. *)
Definition configure {Req} (e : Encoder Req) : option (Encoder Req) :=
  match enc_state e with
  | Closed => None
  | _ => Some {| enc_state := Configured; enc_requests := enc_requests e |}
  end.

Definition configureEncoders (w h : Z) (videoSupported audioSupported : bool)
    (s : State) : Result unit * State :=
  let s1 := set_dimensions w h s in
  if negb videoSupported then (Throw "VideoEncoder config not supported.", s1)
  else match configure (videoEncoder s1) with
       | None => (Throw "InvalidStateError", s1)
       | Some v =>
           let s2 := set_encoders v (audioEncoder s1) s1 in
           if negb audioSupported then (Throw "AudioEncoder config not supported.", s2)
           else match configure (audioEncoder s2) with
                | None => (Throw "InvalidStateError", s2)
                | Some a => (Ok tt, set_encoders (videoEncoder s2) a s2)
                end
       end.

End Mux.

(** ** MP4PullDemuxer.ts *)
Module Demux.

Definition MIN_DECODER_QUEUE_SIZE : Z := 20.

(** [MP4Sample] of lib/mp4box.d.ts, with the fields the demuxer reads;
    [data] is [None] until the payload has been fetched. *)
Record MP4Sample := {
  cts : Z;
  data : option bytes;
  dts : Z;
  duration : Z;
  is_sync : bool;
  number : Z;
  offset : Z;
  size : Z;
  timescale : Z;
  track_id : Z
}.

(** [MP4Sample & { ptsIndex; dtsIndex }] *)
Record IndexedMP4Sample := {
  sample : MP4Sample;
  ptsIndex : Z;
  dtsIndex : Z
}.

Record SeekReturn := {
  r_ptsIndex : Z;
  r_dtsIndex : Z;
  r_samples : list IndexedMP4Sample
}.

(** A sample-description entry; a codec configuration box is represented by
    the bytes its [write] produces, the 8-byte box header included. *)
Record SampleEntry := {
  avcC : option bytes;
  hvcC : option bytes;
  vpcC : option bytes;
  av1C : option bytes
}.

(** [Trak]: [stsd] is [None] when a link of [mdia?.minf?.stbl?.stsd] is
    missing. *)
Record Trak := {
  stsd : option (list SampleEntry);
  samples : list MP4Sample
}.

Record MP4VideoTrack := {
  id : Z;
  codec : string;
  video_width : Z;
  video_height : Z
}.

Record MP4Info := {
  info_duration : Z;
  info_timescale : Z;
  videoTracks : list MP4VideoTrack
}.

Record VideoDecoderConfig := {
  c_codec : string;
  codedHeight : Z;
  codedWidth : Z;
  description : bytes;
  hardwareAcceleration : string
}.

(** The parser object of the Container Box Library, at its interface: the
    tracks of the parsed movie and the byte buffers appended to its stream,
    each with its [fileStart]. *)
Record MP4File := {
  traks : list (Z * Trak);
  buffers : list (Z * bytes)
}.

Record State := {
  videoSamples : list IndexedMP4Sample;
  videoTrak : option Trak;
  file : bytes;
  mp4box : MP4File;
  durationMs : Q;
  moov : bool;
  videoDecoderConfig : option VideoDecoderConfig;
  _error : option string;
  firstFramePtsOffsetMs : Q;
  reads : list (Z * Z)   (* the ranges read from [file] with [slice], oldest first *)
}.

(** The constructor, before [appendBuffer] has run. *)
Definition new (f : bytes) (parsed : list (Z * Trak)) : State := {|
  videoSamples := [];
  videoTrak := None;
  file := f;
  mp4box := {| traks := parsed; buffers := [] |};
  durationMs := 0;
  moov := false;
  videoDecoderConfig := None;
  _error := None;
  firstFramePtsOffsetMs := 0;
  reads := []
|}.

Definition set_videoSamples (l : list IndexedMP4Sample) (s : State) : State :=
  {| videoSamples := l; videoTrak := videoTrak s; file := file s;
     mp4box := mp4box s; durationMs := durationMs s; moov := moov s;
     videoDecoderConfig := videoDecoderConfig s; _error := _error s;
     firstFramePtsOffsetMs := firstFramePtsOffsetMs s; reads := reads s |}.

Definition set_videoTrak (t : option Trak) (s : State) : State :=
  {| videoSamples := videoSamples s; videoTrak := t; file := file s;
     mp4box := mp4box s; durationMs := durationMs s; moov := moov s;
     videoDecoderConfig := videoDecoderConfig s; _error := _error s;
     firstFramePtsOffsetMs := firstFramePtsOffsetMs s; reads := reads s |}.

Definition set_buffers (b : list (Z * bytes)) (s : State) : State :=
  {| videoSamples := videoSamples s; videoTrak := videoTrak s; file := file s;
     mp4box := {| traks := traks (mp4box s); buffers := b |};
     durationMs := durationMs s; moov := moov s;
     videoDecoderConfig := videoDecoderConfig s; _error := _error s;
     firstFramePtsOffsetMs := firstFramePtsOffsetMs s; reads := reads s |}.

Definition set_durationMs (q : Q) (s : State) : State :=
  {| videoSamples := videoSamples s; videoTrak := videoTrak s; file := file s;
     mp4box := mp4box s; durationMs := q; moov := moov s;
     videoDecoderConfig := videoDecoderConfig s; _error := _error s;
     firstFramePtsOffsetMs := firstFramePtsOffsetMs s; reads := reads s |}.

Definition set_moov (b : bool) (s : State) : State :=
  {| videoSamples := videoSamples s; videoTrak := videoTrak s; file := file s;
     mp4box := mp4box s; durationMs := durationMs s; moov := b;
     videoDecoderConfig := videoDecoderConfig s; _error := _error s;
     firstFramePtsOffsetMs := firstFramePtsOffsetMs s; reads := reads s |}.

Definition set_videoDecoderConfig (c : option VideoDecoderConfig) (s : State) : State :=
  {| videoSamples := videoSamples s; videoTrak := videoTrak s; file := file s;
     mp4box := mp4box s; durationMs := durationMs s; moov := moov s;
     videoDecoderConfig := c; _error := _error s;
     firstFramePtsOffsetMs := firstFramePtsOffsetMs s; reads := reads s |}.

Definition set_error (e : option string) (s : State) : State :=
  {| videoSamples := videoSamples s; videoTrak := videoTrak s; file := file s;
     mp4box := mp4box s; durationMs := durationMs s; moov := moov s;
     videoDecoderConfig := videoDecoderConfig s; _error := e;
     firstFramePtsOffsetMs := firstFramePtsOffsetMs s; reads := reads s |}.

Definition set_firstFramePtsOffsetMs (q : Q) (s : State) : State :=
  {| videoSamples := videoSamples s; videoTrak := videoTrak s; file := file s;
     mp4box := mp4box s; durationMs := durationMs s; moov := moov s;
     videoDecoderConfig := videoDecoderConfig s; _error := _error s;
     firstFramePtsOffsetMs := q; reads := reads s |}.

Definition add_read (r : Z * Z) (s : State) : State :=
  {| videoSamples := videoSamples s; videoTrak := videoTrak s; file := file s;
     mp4box := mp4box s; durationMs := durationMs s; moov := moov s;
     videoDecoderConfig := videoDecoderConfig s; _error := _error s;
     firstFramePtsOffsetMs := firstFramePtsOffsetMs s;
     reads := reads s ++ [r] |}.

(** *** Methods run in the demuxer's state and may throw *)
Definition M (A : Type) : Type := State -> Result A * State.

Definition ret {A} (a : A) : M A := fun s => (Ok a, s).
Definition throw {A} (e : string) : M A := fun s => (Throw e, s).
Definition bind {A B} (m : M A) (k : A -> M B) : M B :=
  fun s => match m s with
           | (Ok a, s') => k a s'
           | (Throw e, s') => (Throw e, s')
           end.
Definition get : M State := fun s => (Ok s, s).
Definition modify (f : State -> State) : M unit := fun s => (Ok tt, f s).

Declare Scope demux_scope.
Delimit Scope demux_scope with demux.
Notation "x <- m ;; k" := (bind m (fun x => k))
  (at level 61, m at next level, right associativity) : demux_scope.
Notation "m ;;; k" := (bind m (fun _ => k))
  (at level 61, right associativity) : demux_scope.
Open Scope demux_scope.

Fixpoint mapM {A B} (f : A -> M B) (l : list A) : M (list B) :=
  match l with
  | [] => ret []
  | x :: l' => y <- f x ;; ys <- mapM f l' ;; ret (y :: ys)
  end.

(** [_trapError]: records the error and hands it back to be thrown. *)
Definition _trapError (msg : string) : M string :=
  modify (set_error (Some msg)) ;;; ret msg.

Definition trap_and_throw {A} (msg : string) : M A :=
  e <- _trapError msg ;; throw e.

(** *** The Container Box Library, at its interface *)

Definition getTrackById (f : MP4File) (i : Z) : option Trak :=
  match List.find (fun p => fst p =? i) (traks f) with
  | Some p => Some (snd p)
  | None => None
  end.

(** [mp4box.stream.cleanBuffers()] *)
Definition cleanBuffers : M unit := modify (set_buffers []).

(** [mp4box.appendBuffer(buffer)] with [buffer.fileStart = fileStart] *)
Definition appendBuffer (fileStart : Z) (b : bytes) : M unit :=
  s <- get ;; modify (set_buffers (buffers (mp4box s) ++ [(fileStart, b)])).

Definition with_data (s : MP4Sample) (d : option bytes) : MP4Sample :=
  {| cts := cts s; data := d; dts := dts s; duration := duration s;
     is_sync := is_sync s; number := number s; offset := offset s;
     size := size s; timescale := timescale s; track_id := track_id s |}.

Fixpoint find_bytes (bufs : list (Z * bytes)) (off sz : Z) : option bytes :=
  match bufs with
  | [] => None
  | (start, b) :: bufs' =>
      if (start <=? off) && (off + sz <=? start + JS.length b)
      then Some (firstn (Z.to_nat sz) (skipn (Z.to_nat (off - start)) b))
      else find_bytes bufs' off sz
  end.

(** Modelled from the spec: [getSample] belongs to the Container Box Library,
    of which the repository has only the declaration.  It returns sample
    [number] of the track with its payload made addressable from the bytes
    handed to the library, and [null] when those bytes are not there; an
    index outside the sample list is a [TypeError] inside the library. *)
Definition getSample (f : MP4File) (t : Trak) (n : Z) : Result (option MP4Sample) :=
  match JS.index (samples t) n with
  | None => Throw "TypeError"
  | Some s =>
      match find_bytes (buffers f) (offset s) (size s) with
      | Some b => Ok (Some (with_data s (Some b)))
      | None => Ok None
      end
  end.

(** *** The demuxer's methods *)

(** [getVideoDecoderConfig]: throws, resolves, or leaves a promise that the
    [onReady] callback resolves and a 10 s timer rejects. *)
Inductive ConfigOutcome :=
| ConfigThrown (e : string)
| ConfigResolved (c : VideoDecoderConfig)
| ConfigPending.

Definition getVideoDecoderConfig (s : State) : ConfigOutcome :=
  match _error s with
  | Some e => ConfigThrown e
  | None =>
      match videoDecoderConfig s with
      | Some c => ConfigResolved c
      | None => ConfigPending
      end
  end.

Definition entry_box (e : SampleEntry) : option bytes :=
  match avcC e with
  | Some b => Some b
  | None => match hvcC e with
            | Some b => Some b
            | None => match vpcC e with
                      | Some b => Some b
                      | None => av1C e
                      end
            end
  end.

(** The loop of [readVideoDecoderConfig]: the last entry with a box wins. *)
Definition scan_entries (entries : list SampleEntry) : option bytes :=
  fold_left (fun description e =>
               match entry_box e with
               | Some b => Some (skipn 8 b)   (* Remove the box header. *)
               | None => description
               end) entries None.

Definition readVideoDecoderConfig (videoTrack : MP4VideoTrack) : M VideoDecoderConfig :=
  s <- get ;;
  match getTrackById (mp4box s) (id videoTrack) with
  | None => trap_and_throw "mdia box not intact."
  | Some trak =>
      match stsd trak with
      | None => trap_and_throw "mdia box not intact."
      | Some entries =>
          match scan_entries entries with
          | None => trap_and_throw "avcC, hvcC, vpcC, or av1C box not found"
          | Some d =>
              ret {| c_codec := if String.prefix "vp08" (codec videoTrack)
                                then "vp8"%string else codec videoTrack;
                     codedHeight := video_height videoTrack;
                     codedWidth := video_width videoTrack;
                     description := d;
                     hardwareAcceleration := "prefer-hardware" |}
          end
      end
  end.

(** Lines 200-202 of [onReady]:
    [samples.toSorted((a, b) => a.cts - b.cts)
            .map((s, i) => ({ ...s, ptsIndex: i, dtsIndex: s.number }))] *)
Fixpoint mapi_from {A B} (i : Z) (f : A -> Z -> B) (l : list A) : list B :=
  match l with
  | [] => []
  | x :: l' => f x i :: mapi_from (i + 1) f l'
  end.

Definition indexSamples (l : list MP4Sample) : list IndexedMP4Sample :=
  mapi_from 0 (fun s i => {| sample := s; ptsIndex := i; dtsIndex := number s |})
            (JS.toSorted cts l).

Definition ctsMs_raw (s : MP4Sample) : Q :=
  Time.secToMs (inject_Z (cts s) / inject_Z (timescale s)).

(** [onReady(info)]; [supported] is the answer of
    [VideoDecoder.isConfigSupported].  A [Throw] is the rejection of the
    promise [onReady] returns, which nobody awaits. *)
Definition onReady (info : MP4Info) (supported : VideoDecoderConfig -> bool) : M unit :=
  modify (set_moov true) ;;;
  match videoTracks info with
  | [] => _ <- _trapError "mp4 file without video track" ;; ret tt
  | videoTrack :: _ =>
      s <- get ;;
      match getTrackById (mp4box s) (id videoTrack) with
      | None => modify (set_videoTrak None) ;;; throw "TypeError"
      | Some trak =>
          modify (set_videoTrak (Some trak)) ;;;
          modify (set_videoSamples (indexSamples (samples trak))) ;;;
          match indexSamples (samples trak) with
          | [] => throw "TypeError"
          | first :: _ =>
              modify (set_firstFramePtsOffsetMs (ctsMs_raw (sample first))) ;;;
              modify (set_durationMs
                        (Time.secToMs (inject_Z (info_duration info)
                                       / inject_Z (info_timescale info)))) ;;;
              videoDecoderConfig <- readVideoDecoderConfig videoTrack ;;
              if negb (supported videoDecoderConfig)
              then _ <- _trapError "VideoDecoder config not supported" ;; ret tt
              else
                modify (set_videoDecoderConfig (Some videoDecoderConfig)) ;;;
                cleanBuffers
          end
      end
  end.

(** [fetchSampleData]: [{ ...indexedSample, ...sample }] *)
Definition fetchSampleData (indexedSample : IndexedMP4Sample) : M IndexedMP4Sample :=
  s <- get ;;
  match videoTrak s with
  | None => trap_and_throw "videoTrak not loaded"
  | Some trak =>
      match getSample (mp4box s) trak (dtsIndex indexedSample) with
      | Throw e => throw e
      | Ok None => ret indexedSample
      | Ok (Some smp) =>
          ret {| sample := smp; ptsIndex := ptsIndex indexedSample;
                 dtsIndex := dtsIndex indexedSample |}
      end
  end.

(** [file.slice(start, end).arrayBuffer()]: one range read of the file. *)
Definition readRange (start stop : Z) : M bytes :=
  s <- get ;;
  modify (add_read (start, stop)) ;;;
  ret (JS.slice (file s) start stop).

(** [bulkFetchSampleData] *)
Definition bulkFetchSampleData (l : list IndexedMP4Sample) : M (list IndexedMP4Sample) :=
  if JS.length l =? 0 then ret []
  else
    let resorted := JS.toSorted (fun a => offset (sample a)) l in
    match resorted, JS.at_last resorted with
    | first :: _, Some last =>
        let startOffset := offset (sample first) in
        let endOffset := offset (sample last) + size (sample last) in
        buffer <- readRange startOffset endOffset ;;
        appendBuffer startOffset buffer ;;;
        mapM fetchSampleData (JS.toSorted (fun a => dts (sample a)) l)
    | _, _ => throw "TypeError"
    end.

(** [timestampMsToPtsIndex] *)
Definition ctsMs (offsetMs : Q) (s : MP4Sample) : Q := (ctsMs_raw s - offsetMs)%Q.
Definition durationMs_of (s : MP4Sample) : Q :=
  Time.secToMs (inject_Z (duration s) / inject_Z (timescale s)).

Definition covers (offsetMs timestampMs : Q) (s : MP4Sample) : bool :=
  Qle_bool (ctsMs offsetMs s) timestampMs
  && Qle_bool timestampMs (ctsMs offsetMs s + durationMs_of s).

Fixpoint scan_samples (offsetMs timestampMs : Q) (l : list IndexedMP4Sample) : Z :=
  match l with
  | [] => -1
  | s :: l' =>
      if covers offsetMs timestampMs (sample s) then ptsIndex s
      else scan_samples offsetMs timestampMs l'
  end.

Definition timestampMsToPtsIndex (timestampMs : Q) (s : State) : Z :=
  scan_samples (firstFramePtsOffsetMs s) timestampMs (videoSamples s).

(** [dtsIndexToPtsIndex] *)
Definition dtsIndexToPtsIndex (d : Z) (s : State) : Z :=
  match JS.find (fun x => dtsIndex x =? d) (videoSamples s) with
  | Some x => ptsIndex x
  | None => -1
  end.

(** Modelled from the spec: the source has no function named
    [ptsIndexToDtsIndex]; the spec calls so the inverse of
    [dtsIndexToPtsIndex].  It is the lookup [seek] performs on its target,
    [this.videoSamples[ptsIndex].dtsIndex], with [-1] outside the list. *)
Definition ptsIndexToDtsIndex (p : Z) (s : State) : Z :=
  match JS.index (videoSamples s) p with
  | Some x => dtsIndex x
  | None => -1
  end.

Definition NO_SAMPLES : string := "Seek failed. No video samples have been extracted.".
(** The message of the source ends with the timestamp asked for. *)
Definition NO_KEYFRAME : string := "Seek failed. No keyframe found before the timestamp.".

Definition is_key (f : IndexedMP4Sample) : bool := is_sync (sample f).

(** [seek] *)
Definition seek (timestampMs : Q) : M SeekReturn :=
  s0 <- get ;;
  if JS.length (videoSamples s0) =? 0 then throw NO_SAMPLES
  else
    cleanBuffers ;;;
    s <- get ;;
    let vs := videoSamples s in
    let targetFrameIndex := timestampMsToPtsIndex timestampMs s in
    if targetFrameIndex =? -1
    then ret {| r_samples := []; r_ptsIndex := -1; r_dtsIndex := -1 |}
    else
      match JS.index vs targetFrameIndex with
      | None => throw "TypeError"
      | Some frame =>
          if is_key frame then
            let startIndex :=
              Z.max 0 (targetFrameIndex
                       - JS.Math_ceil (inject_Z MIN_DECODER_QUEUE_SIZE / 2)) in
            let endIndex :=
              Z.min (startIndex + MIN_DECODER_QUEUE_SIZE) (JS.length vs - 1) in
            fetched <- bulkFetchSampleData (JS.slice vs startIndex endIndex) ;;
            ret {| r_samples := fetched; r_ptsIndex := ptsIndex frame;
                   r_dtsIndex := dtsIndex frame |}
          else
            let lastKeyframe := JS.findLast is_key (JS.slice vs 0 (ptsIndex frame)) in
            let nextKeyframe :=
              JS.find is_key (JS.slice vs (ptsIndex frame) (JS.length vs)) in
            match lastKeyframe with
            | None => throw NO_KEYFRAME
            | Some lastKeyframe =>
                let endIndex :=
                  Z.min
                    (Z.max (Z.max (match nextKeyframe with
                                   | Some n => ptsIndex n
                                   | None => 0
                                   end)
                                  (ptsIndex frame))
                           (ptsIndex lastKeyframe + MIN_DECODER_QUEUE_SIZE))
                    (JS.length vs - 1) in
                fetched <- bulkFetchSampleData
                             (JS.slice vs (ptsIndex lastKeyframe) endIndex) ;;
                ret {| r_samples := fetched; r_ptsIndex := ptsIndex frame;
                       r_dtsIndex := dtsIndex frame |}
            end
      end.

(** [readAllSamples] *)
Definition readAllSamples : M (list IndexedMP4Sample) :=
  cleanBuffers ;;; s <- get ;; bulkFetchSampleData (videoSamples s).

(** What the constructor's [appendBuffer] met: reading or parsing the file
    threw, the file held no movie box so that [onReady] never fired, or the
    library called [onReady]. *)
Inductive ParseOutcome :=
| ParseFailed (error : string)
| NoMovieBox
| MovieParsed (info : MP4Info).

(** [new MP4PullDemuxer(file)], once its [appendBuffer] has settled.  The
    promise [onReady] returns is not awaited: an error thrown inside it does
    not reach the [catch] of [appendBuffer]. *)
Definition construct (f : bytes) (parsed : list (Z * Trak))
    (outcome : ParseOutcome) (supported : VideoDecoderConfig -> bool) : State :=
  match outcome with
  | ParseFailed error => snd (_trapError error (new f parsed))
  | NoMovieBox => new f parsed
  | MovieParsed info => snd (onReady info supported (new f parsed))
  end.

End Demux.

(** ** Predicates the properties are stated with *)
Module Spec.

(** *** Muxer *)

(** Sequence numbers strictly increasing, starting at 1. *)
Definition numbers_increasing_from_1 (l : list Mux.Sample) : Prop :=
  (forall s, nth_error l 0 = Some s -> Mux.number s = 1)
  /\ (forall i j a b, (i < j)%nat -> nth_error l i = Some a ->
        nth_error l j = Some b -> Mux.number a < Mux.number b).

Definition first_offset_zero (l : list Mux.Sample) : Prop :=
  forall s, nth_error l 0 = Some s -> Mux.offset s = 0.

Definition tightly_packed (l : list Mux.Sample) : Prop :=
  forall i a b, nth_error l i = Some a -> nth_error l (S i) = Some b ->
    Mux.offset b = Mux.offset a + Mux.size a.

Definition accumulator_invariant (l : list Mux.Sample) : Prop :=
  numbers_increasing_from_1 l /\ first_offset_zero l /\ tightly_packed l.

(** The form of the invariant that a push extends: sample [i] has number
    [i + 1], and offsets are tight from 0. *)
Definition well_accumulated (l : list Mux.Sample) : Prop :=
  (forall i s, nth_error l i = Some s -> Mux.number s = Z.of_nat i + 1)
  /\ first_offset_zero l /\ tightly_packed l.

(** The state [multiplexToBuffer] tests, after both flushes. *)
Definition after_flushes (audioFlush videoFlush : Mux.FlushOutcome)
    (s : Mux.State) : Mux.State :=
  Mux.deliver_all (Mux.fl_events videoFlush)
    (Mux.deliver_all (Mux.fl_events audioFlush) s).

(** The [encode] requests the video encoder has received. *)
Definition requests (s : Mux.State) : list (Mux.VideoFrame * bool) :=
  Mux.enc_requests (Mux.videoEncoder s).

(** A muxer whose [pushVideoFrame] does not throw. *)
Definition ready (s : Mux.State) : Prop :=
  Mux._encoderError s = None
  /\ Mux.enc_state (Mux.videoEncoder s) = Mux.Configured.


(** A muxer after a successful [configureEncoders]. *)
Definition configured (c : Mux.Config) (w h : Z) : Mux.State :=
  snd (Mux.configureEncoders w h true true (Mux.new c)).


(** *** Demuxer *)

(** The Container Box Library numbers the samples of a track by their
    position in decode order, from 0; [getSample] and [fetchSampleData] rely
    on it. *)
Definition well_numbered (l : list Demux.MP4Sample) : Prop :=
  forall i s, nth_error l i = Some s -> Demux.number s = Z.of_nat i.

(** A demuxer whose index is the one [onReady] builds from its track. *)
Definition indexed (s : Demux.State) : Prop :=
  exists trak, Demux.videoTrak s = Some trak
    /\ Demux.videoSamples s = Demux.indexSamples (Demux.samples trak)
    /\ well_numbered (Demux.samples trak).


(** [t] lies in the closed interval [[cts, cts + duration]] of the sample,
    in milliseconds after offset correction. *)
Definition in_closed_interval (offsetMs t : Q) (s : Demux.MP4Sample) : Prop :=
  (Demux.ctsMs offsetMs s <= t)%Q
  /\ (t <= Demux.ctsMs offsetMs s + Demux.durationMs_of s)%Q.


(** What [fetchSampleData] may change in a sample: its payload. *)
Definition fetched_of (x x' : Demux.IndexedMP4Sample) : Prop :=
  Demux.ptsIndex x' = Demux.ptsIndex x
  /\ Demux.dtsIndex x' = Demux.dtsIndex x
  /\ exists d, Demux.sample x' = Demux.with_data (Demux.sample x) d.

(** The parts of the state that fetching leaves alone. *)
Definition same_index (s s' : Demux.State) : Prop :=
  Demux._error s' = Demux._error s
  /\ Demux.videoSamples s' = Demux.videoSamples s
  /\ Demux.videoTrak s' = Demux.videoTrak s
  /\ Demux.file s' = Demux.file s
  /\ Demux.videoDecoderConfig s' = Demux.videoDecoderConfig s
  /\ Demux.firstFramePtsOffsetMs s' = Demux.firstFramePtsOffsetMs s.

(** The state a bulk fetch of a non-empty list leaves: one range read
    logged, one buffer appended. *)
Definition after_fetch (start stop : Z) (s : Demux.State) : Demux.State :=
  Demux.set_buffers
    (Demux.buffers (Demux.mp4box s)
     ++ [(start, JS.slice (Demux.file s) start stop)])
    (Demux.add_read (start, stop) s).

(** The pieces of [seek], named: its answer when the lookup finds nothing,
    the slice it fetches around a keyframe target, the slice it fetches from
    the keyframe before any other target, and the value it returns. *)
Definition NOT_FOUND : Demux.SeekReturn :=
  {| Demux.r_samples := []; Demux.r_ptsIndex := -1; Demux.r_dtsIndex := -1 |}.

Definition keyframe_window (vs : list Demux.IndexedMP4Sample) (target : Z)
    : list Demux.IndexedMP4Sample :=
  let startIndex := Z.max 0 (target - 10) in
  JS.slice vs startIndex (Z.min (startIndex + 20) (JS.length vs - 1)).

Definition gop_window (vs : list Demux.IndexedMP4Sample)
    (frame lastKeyframe : Demux.IndexedMP4Sample) : list Demux.IndexedMP4Sample :=
  let nextKeyframe :=
    JS.find Demux.is_key (JS.slice vs (Demux.ptsIndex frame) (JS.length vs)) in
  JS.slice vs (Demux.ptsIndex lastKeyframe)
    (Z.min (Z.max (Z.max (match nextKeyframe with
                          | Some n => Demux.ptsIndex n
                          | None => 0
                          end) (Demux.ptsIndex frame))
                  (Demux.ptsIndex lastKeyframe + 20))
           (JS.length vs - 1)).

Definition answer_with (frame : Demux.IndexedMP4Sample)
    (fetched : list Demux.IndexedMP4Sample) : Demux.M Demux.SeekReturn :=
  Demux.ret {| Demux.r_samples := fetched;
               Demux.r_ptsIndex := Demux.ptsIndex frame;
               Demux.r_dtsIndex := Demux.dtsIndex frame |}.

(** Samples are only ever indexed together with their track. *)
Definition has_track (s : Demux.State) : Prop :=
  Demux.videoTrak s = None -> Demux.videoSamples s = [].

(** A fetch against the buffers [bufs]: the payload is the bytes the
    library finds for the sample's range, when it finds them. *)
Definition fetched_from (bufs : list (Z * bytes))
    (x x' : Demux.IndexedMP4Sample) : Prop :=
  fetched_of x x'
  /\ Demux.sample x' =
     match Demux.find_bytes bufs (Demux.offset (Demux.sample x))
                                 (Demux.size (Demux.sample x)) with
     | Some b => Demux.with_data (Demux.sample x) (Some b)
     | None => Demux.sample x
     end.

(** Decode timestamps strictly increase with [dtsIndex] over [l]. *)
Definition dts_follows_dtsIndex (l : list Demux.IndexedMP4Sample) : Prop :=
  forall a b, In a l -> In b l ->
    Demux.dtsIndex a < Demux.dtsIndex b ->
    Demux.dts (Demux.sample a) < Demux.dts (Demux.sample b).

Definition by_dts (a b : Demux.IndexedMP4Sample) : Prop :=
  Demux.dts (Demux.sample a) <= Demux.dts (Demux.sample b).

Definition by_dtsIndex (a b : Demux.IndexedMP4Sample) : Prop :=
  Demux.dtsIndex a <= Demux.dtsIndex b.

Definition zseq (n : nat) : list Z := map Z.of_nat (seq 0 n).

(** The API calls a client can make after parsing. *)
Inductive Call :=
| CallSeek (timestampMs : Q)
| CallReadAllSamples
| CallGetVideoDecoderConfig.

Definition run_call (s : Demux.State) (c : Call) : Demux.State :=
  match c with
  | CallSeek t => snd (Demux.seek t s)
  | CallReadAllSamples => snd (Demux.readAllSamples s)
  | CallGetVideoDecoderConfig => s
  end.

End Spec.

(** ** Concrete files used as witnesses *)
Module Examples.
Import Demux.

Definition mk (n c dt d : Z) (k : bool) (off sz : Z) : MP4Sample :=
  {| cts := c; data := None; dts := dt; duration := d; is_sync := k;
     number := n; offset := off; size := sz; timescale := 1000;
     track_id := 1 |}.

Definition entry : SampleEntry :=
  {| avcC := Some (repeat Byte.x01 10); hvcC := None; vpcC := None;
     av1C := None |}.

Definition track : MP4VideoTrack :=
  {| id := 1; codec := "avc1.4d0034"; video_width := 4; video_height := 4 |}.

(** Five samples in decode = presentation order, 2 bytes each: a keyframe
    spanning 0..1000 ms, then four delta frames of 33 ms. *)
Definition trak5 : Trak :=
  {| stsd := Some [entry];
     samples := [mk 0 0 0 1000 true 0 2; mk 1 1000 1000 33 false 2 2;
                 mk 2 1033 1033 33 false 4 2; mk 3 1066 1066 33 false 6 2;
                 mk 4 1099 1099 33 false 8 2] |}.

Definition info5 : MP4Info :=
  {| info_duration := 1132; info_timescale := 1000; videoTracks := [track] |}.

Definition file10 : bytes := repeat Byte.x07 10.

Definition parsed5 : State :=
  snd (onReady info5 (fun _ => true) (new file10 [(1, trak5)])).

(** The same file, with a decoder configuration the engine rejects. *)
Definition rejected5 : State :=
  snd (onReady info5 (fun _ => false) (new file10 [(1, trak5)])).

(** Thirteen frames of 33 ms, keyframes at positions 0 and 11. *)
Definition frame13 (i : nat) : MP4Sample :=
  mk (Z.of_nat i) (33 * Z.of_nat i) (33 * Z.of_nat i) 33
     (orb (Nat.eqb i 0) (Nat.eqb i 11)) (Z.of_nat i) 1.

Definition trak13 : Trak :=
  {| stsd := Some [entry]; samples := map frame13 (seq 0 13) |}.

Definition info13 : MP4Info :=
  {| info_duration := 429; info_timescale := 1000; videoTracks := [track] |}.

Definition parsed13 : State :=
  snd (onReady info13 (fun _ => true) (new (repeat Byte.x07 13) [(1, trak13)])).

(** Two samples with the same decode timestamp (a zero time-to-sample
    delta); the second one in decode order is presented first. *)
Definition trak_tie : Trak :=
  {| stsd := Some [entry];
     samples := [mk 0 10 0 0 true 0 2; mk 1 0 0 10 false 2 2] |}.

Definition info_tie : MP4Info :=
  {| info_duration := 20; info_timescale := 1000; videoTracks := [track] |}.

Definition parsed_tie : State :=
  snd (onReady info_tie (fun _ => true) (new (repeat Byte.x07 4) [(1, trak_tie)])).

(** The three samples of the fetch-ordering scenario: offsets 200, 0, 100
    and sizes 50, listed in presentation order; decode order is by [number]. *)
Definition trak_fetch : Trak :=
  {| stsd := Some [entry];
     samples := [mk 0 0 0 10 true 0 50; mk 1 20 10 10 false 100 50;
                 mk 2 10 20 10 false 200 50] |}.

Definition info_fetch : MP4Info :=
  {| info_duration := 30; info_timescale := 1000; videoTracks := [track] |}.

Definition parsed_fetch : State :=
  snd (onReady info_fetch (fun _ => true)
         (new (repeat Byte.x07 250) [(1, trak_fetch)])).

(** The third frame of the five-sample file, a delta frame. *)
Definition frame2 : IndexedMP4Sample :=
  {| sample := mk 2 1033 1033 33 false 4 2; ptsIndex := 2; dtsIndex := 2 |}.

(** The value a [seek] call returned. *)
Definition answer_of (x : Result SeekReturn * State) : SeekReturn :=
  match fst x with
  | Ok r => r
  | Throw _ => Spec.NOT_FOUND
  end.

(** The fetch-ordering scenario: three samples of [trak_fetch] handed over
    with offsets 200, 0, 100 and sizes 50. *)
Definition scenario : list IndexedMP4Sample :=
  [ {| sample := mk 2 10 20 10 false 200 50; ptsIndex := 1; dtsIndex := 2 |};
    {| sample := mk 0 0 0 10 true 0 50; ptsIndex := 0; dtsIndex := 0 |};
    {| sample := mk 1 20 10 10 false 100 50; ptsIndex := 2; dtsIndex := 1 |} ].


Definition answer (req : Mux.VideoFrame * bool) : Mux.EncoderEvent :=
  Mux.VideoOutput
    {| Mux.v_type := if snd req then Mux.Key else Mux.Delta;
       Mux.v_timestamp := Mux.f_timestamp (fst req);
       Mux.v_duration := Mux.f_duration (fst req);
       Mux.v_payload := [Byte.x00; Byte.x01] |} None.

Definition no_flush : Mux.FlushOutcome :=
  {| Mux.fl_events := []; Mux.fl_rejected := None |}.

End Examples.

(** ** Views of the data used by the further properties *)
Module View.

(** The presentation positions [a], [a + 1], ..., [b - 1]. *)
Definition range (a b : Z) : list Z :=
  map Z.of_nat (seq (Z.to_nat a) (Z.to_nat (b - a))).

(** The end index [seek] computes for a target that is not a keyframe. *)
Definition gop_end (vs : list Demux.IndexedMP4Sample)
    (frame lastKeyframe : Demux.IndexedMP4Sample) : Z :=
  Z.min (Z.max (Z.max (match JS.find Demux.is_key
                               (JS.slice vs (Demux.ptsIndex frame) (JS.length vs)) with
                       | Some n => Demux.ptsIndex n
                       | None => 0
                       end) (Demux.ptsIndex frame))
               (Demux.ptsIndex lastKeyframe + Demux.MIN_DECODER_QUEUE_SIZE))
        (JS.length vs - 1).

(** The start and end index [seek] computes for a keyframe target. *)
Definition key_start (target : Z) : Z := Z.max 0 (target - 10).
Definition key_end (vs : list Demux.IndexedMP4Sample) (target : Z) : Z :=
  Z.min (key_start target + Demux.MIN_DECODER_QUEUE_SIZE) (JS.length vs - 1).

(** The number of range reads a call added to the log. *)
Definition reads_added (s s' : Demux.State) : Z :=
  JS.length (Demux.reads s') - JS.length (Demux.reads s).

(** The decoder configuration [readVideoDecoderConfig] answers with for a
    track and a description, and for a track whose configuration box
    serialises to [box]. *)
Definition config_with (videoTrack : Demux.MP4VideoTrack) (d : bytes)
    : Demux.VideoDecoderConfig :=
  {| Demux.c_codec := if String.prefix "vp08" (Demux.codec videoTrack)
                      then "vp8"%string else Demux.codec videoTrack;
     Demux.codedHeight := Demux.video_height videoTrack;
     Demux.codedWidth := Demux.video_width videoTrack;
     Demux.description := d;
     Demux.hardwareAcceleration := "prefer-hardware" |}.

Definition decoder_config (videoTrack : Demux.MP4VideoTrack) (box : bytes)
    : Demux.VideoDecoderConfig :=
  config_with videoTrack (skipn 8 box).

Definition no_box (e : Demux.SampleEntry) : Prop := Demux.entry_box e = None.

(** *** Muxer *)

(** Everything that can happen to a muxer: the engine calls back, or the
    client calls a method. *)
Inductive Action :=
| Deliver (ev : Mux.EncoderEvent)
| PushVideo (frame : Mux.VideoFrame)
| PushAudio
| Configure (w h : Z) (videoSupported audioSupported : bool)
| Close
| Multiplex (audioFlush videoFlush : Mux.FlushOutcome).

Definition act (s : Mux.State) (a : Action) : Mux.State :=
  match a with
  | Deliver ev => Mux.deliver s ev
  | PushVideo frame => snd (Mux.pushVideoFrame frame s)
  | PushAudio => snd (Mux.pushAudioData s)
  | Configure w h v au => snd (Mux.configureEncoders w h v au s)
  | Close => Mux.closeEncoders s
  | Multiplex audioFlush videoFlush =>
      snd (Mux.multiplexToBuffer audioFlush videoFlush s)
  end.

Definition run (acts : list Action) (s : Mux.State) : Mux.State :=
  fold_left act acts s.

(** The callbacks the engine makes during an action; the video encoder is
    only flushed when the audio flush was not rejected. *)
Definition callbacks (a : Action) : list Mux.EncoderEvent :=
  match a with
  | Deliver ev => [ev]
  | Multiplex audioFlush videoFlush =>
      Mux.fl_events audioFlush
      ++ match Mux.fl_rejected audioFlush with
         | None => Mux.fl_events videoFlush
         | Some _ => []
         end
  | _ => []
  end.

Definition video_chunks (evs : list Mux.EncoderEvent) : list Mux.EncodedVideoChunk :=
  flat_map (fun ev => match ev with
                      | Mux.VideoOutput chunk _ => [chunk]
                      | _ => []
                      end) evs.

(** The audio chunks that carry a duration; the others are dropped. *)
Definition kept_audio_chunks (evs : list Mux.EncoderEvent) : list Mux.EncodedAudioChunk :=
  flat_map (fun ev => match ev with
                      | Mux.AudioOutput chunk =>
                          match Mux.a_duration chunk with
                          | None | Some 0 => []
                          | Some _ => [chunk]
                          end
                      | _ => []
                      end) evs.

Definition is_key_chunk (chunk : Mux.EncodedVideoChunk) : bool :=
  match Mux.v_type chunk with Mux.Key => true | Mux.Delta => false end.

(** What a sample keeps of its chunk: payload, sync flag, size. *)
Definition kept (x : Mux.Sample) : bytes * bool * Z :=
  (Mux.data x, Mux.sync x, Mux.size x).

Definition chunk_kept (chunk : Mux.EncodedVideoChunk) : bytes * bool * Z :=
  (Mux.v_payload chunk, is_key_chunk chunk, JS.length (Mux.v_payload chunk)).

Definition audio_kept (chunk : Mux.EncodedAudioChunk) : bytes * bool * Z :=
  (Mux.a_payload chunk, true, JS.length (Mux.a_payload chunk)).

(** Samples laid out back to back from byte [start], each as long as its
    payload. *)
Fixpoint packed (start : Z) (l : list Mux.Sample) : Prop :=
  match l with
  | [] => True
  | x :: l' =>
      Mux.offset x = start /\ Mux.size x = JS.length (Mux.data x)
      /\ packed (start + Mux.size x) l'
  end.

Definition payloads (l : list Mux.Sample) : bytes := List.concat (map Mux.data l).

(** *** Reading the assembled box tree *)
Definition box_type (b : Mux.Box) : string :=
  match b with Mux.MkBox t _ _ => t end.
Definition box_fields (b : Mux.Box) : list (string * Mux.Value) :=
  match b with Mux.MkBox _ fs _ => fs end.
Definition box_children (b : Mux.Box) : list Mux.Box :=
  match b with Mux.MkBox _ _ cs => cs end.

Definition named (t : string) (b : Mux.Box) : bool := String.eqb (box_type b) t.

Definition child (t : string) (b : Mux.Box) : option Mux.Box :=
  List.find (named t) (box_children b).

Definition field (k : string) (b : Mux.Box) : option Mux.Value :=
  match List.find (fun p => String.eqb (fst p) k) (box_fields b) with
  | Some p => Some (snd p)
  | None => None
  end.

Fixpoint descend (path : list string) (b : Mux.Box) : option Mux.Box :=
  match path with
  | [] => Some b
  | t :: path' =>
      match child t b with
      | Some c => descend path' c
      | None => None
      end
  end.

(** The sample table of track [track] (0 is the first [trak] of [moov]). *)
Definition stbl_of (file : Mux.MP4File) (track : nat) : option Mux.Box :=
  match List.find (named "moov") file with
  | Some moov =>
      match nth_error (filter (named "trak") (box_children moov)) track with
      | Some trak => descend ["mdia"; "minf"; "stbl"]%string trak
      | None => None
      end
  | None => None
  end.

Definition numbers_of (table key : string) (stbl : Mux.Box) : option (list Q) :=
  match child table stbl with
  | Some b => match field key b with
              | Some (Mux.VNums l) => Some l
              | _ => None
              end
  | None => None
  end.

Definition mdat_data (file : Mux.MP4File) : option bytes :=
  match List.find (named "mdat") file with
  | Some mdat => match field "data" mdat with
                 | Some (Mux.VBytes d) => Some d
                 | _ => None
                 end
  | None => None
  end.

(** The bytes that chunk offset [i] and sample size [i] of a track delimit
    in the file, [mdatStartOffset] being the file offset of the first media
    byte. *)
Definition sample_payload (file : Mux.MP4File) (mdatStartOffset : Z)
    (track i : nat) : option bytes :=
  match mdat_data file, stbl_of file track with
  | Some d, Some stbl =>
      match numbers_of "stco" "chunk_offsets" stbl,
            numbers_of "stsz" "sample_sizes" stbl with
      | Some offsets, Some sizes =>
          match nth_error offsets i, nth_error sizes i with
          | Some off, Some sz =>
              Some (JS.slice d (Qfloor off - mdatStartOffset)
                             (Qfloor off - mdatStartOffset + Qfloor sz))
          | _, _ => None
          end
      | _, _ => None
      end
  | _, _ => None
  end.

(** The 1-based positions of the sync samples, increasing. *)
Definition sync_numbers (l : list Mux.Sample) : list Z :=
  map (fun i => Z.of_nat i + 1)
      (filter (fun i => match nth_error l i with
                        | Some x => Mux.sync x
                        | None => false
                        end) (seq 0 (List.length l))).

(** The number of keyframes requested so far. *)
Definition keyframes_requested (s : Mux.State) : Z :=
  JS.length (filter snd (Mux.enc_requests (Mux.videoEncoder s))).

(** A muxer on which an encoder error has been recorded and whose encoders
    are closed. *)
Definition failed (s : Mux.State) : Prop :=
  Mux._encoderError s <> None
  /\ Mux.enc_state (Mux.videoEncoder s) = Mux.Closed
  /\ Mux.enc_state (Mux.audioEncoder s) = Mux.Closed.

(** The [encode] requests both encoders have received. *)
Definition all_requests (s : Mux.State) : list (Mux.VideoFrame * bool) * list unit :=
  (Mux.enc_requests (Mux.videoEncoder s), Mux.enc_requests (Mux.audioEncoder s)).

(** The actions that close the encoders without an encoder error:
    [closeEncoders], and a [multiplexToBuffer] one of whose flushes is
    rejected. *)
Definition closes (a : Action) : bool :=
  match a with
  | Close => true
  | Multiplex audioFlush videoFlush =>
      match Mux.fl_rejected audioFlush, Mux.fl_rejected videoFlush with
      | None, None => false
      | _, _ => true
      end
  | _ => false
  end.

(** The keyframe interval in microseconds, as [pushVideoFrame] adds it. *)
Definition keyframe_step (c : Mux.Config) : Q :=
  Time.secToUs (Mux.keyframeIntevalSec c).

(** The video encoder takes requests or an error is recorded, and
    [nextKeyframeUs] is one keyframe interval per keyframe requested. *)
Definition on_schedule (c : Mux.Config) (s : Mux.State) : Prop :=
  Mux.cfg s = c
  /\ (Mux.enc_state (Mux.videoEncoder s) = Mux.Configured \/ Mux._encoderError s <> None)
  /\ (Mux.nextKeyframeUs s == inject_Z (keyframes_requested s) * keyframe_step c)%Q.


End View.

(** * Properties *)

(** ** Array helpers *)
Section ArrayFacts.
Context {A : Type}.

Lemma at_last_snoc (l : list A) (x : A) : JS.at_last (l ++ [x]) = Some x.
Proof.
  induction l as [|y l IH]; [reflexivity|].
  simpl. rewrite IH. destruct (l ++ [x]) eqn:E; [|reflexivity].
  destruct l; discriminate.
Qed.

Lemma at_last_nth (l : list A) :
  JS.at_last l = nth_error l (List.length l - 1).
Proof.
  destruct l as [|y l] using rev_ind; [reflexivity|].
  rewrite at_last_snoc, length_app, nth_error_app2; simpl; [|lia].
  replace (List.length l + 1 - 1 - List.length l)%nat with 0%nat by lia.
  reflexivity.
Qed.

Lemma at_last_cases (l : list A) :
  (l = [] /\ JS.at_last l = None)
  \/ exists l' x, l = l' ++ [x] /\ JS.at_last l = Some x.
Proof.
  destruct l as [|y l] using rev_ind; [left; split; reflexivity|].
  right. exists l, y. split; [reflexivity | apply at_last_snoc].
Qed.
End ArrayFacts.

(** ** The sample accumulator *)
Section Accumulator.
Import Mux.

Lemma well_accumulated_nil : Spec.well_accumulated [].
Proof.
  repeat split; intros; try (destruct i); discriminate.
Qed.

(** Appending a sample computed from the previous one, as both callbacks
    do, keeps the accumulator well formed. *)
Lemma well_accumulated_push (l : list Sample) (x : Sample) :
  Spec.well_accumulated l ->
  (let prev := match JS.at_last l with Some p => p | None => EMPTY_SAMPLE end in
   number x = number prev + 1 /\ offset x = offset prev + size prev) ->
  Spec.well_accumulated (l ++ [x]).
Proof.
  intros (Hn & H0 & Ht) Hx.
  destruct (at_last_cases l) as [[-> E] | (l' & p & -> & E)];
    rewrite E in Hx; simpl in Hx; destruct Hx as [Hxn Hxo].
  - repeat split.
    + intros [|[|i]] s; simpl; intros H; inversion H; subst. lia.
    + intros s H; inversion H; subst. simpl in Hxo. lia.
    + intros [|i] a b; simpl; intros _ H; [discriminate|destruct i; discriminate].
  - assert (Hp : nth_error (l' ++ [p]) (List.length l') = Some p).
    { rewrite nth_error_app2, Nat.sub_diag by lia. reflexivity. }
    assert (Hlen : List.length (l' ++ [p]) = S (List.length l')).
    { rewrite length_app. simpl. lia. }
    repeat split.
    + intros i s H.
      destruct (Nat.lt_ge_cases i (List.length (l' ++ [p]))) as [Hi | Hi].
      * rewrite nth_error_app1 in H by exact Hi. apply Hn, H.
      * rewrite nth_error_app2 in H by exact Hi.
        destruct (i - List.length (l' ++ [p]))%nat as [|k] eqn:Ek;
          [|destruct k; discriminate].
        inversion H; subst s. rewrite Hxn, (Hn _ _ Hp). lia.
    + intros s H. rewrite nth_error_app1 in H by (rewrite Hlen; lia).
      apply H0, H.
    + intros i a b Ha Hb.
      destruct (Nat.lt_ge_cases (S i) (List.length (l' ++ [p]))) as [Hi | Hi].
      * rewrite nth_error_app1 in Ha by lia.
        rewrite nth_error_app1 in Hb by lia.
        eapply Ht; eassumption.
      * rewrite nth_error_app2 in Hb by exact Hi.
        destruct (S i - List.length (l' ++ [p]))%nat as [|k] eqn:Ek;
          [|destruct k; discriminate].
        inversion Hb; subst b.
        assert (i = List.length l') by lia. subst i.
        rewrite nth_error_app1 in Ha by lia.
        rewrite Hp in Ha. inversion Ha; subst a. exact Hxo.
Qed.

Lemma well_accumulated_invariant (l : list Sample) :
  Spec.well_accumulated l -> Spec.accumulator_invariant l.
Proof.
  intros (Hn & H0 & Ht). repeat split; try assumption.
  - intros s H. apply Hn in H. simpl in H. lia.
  - intros i j a b Hij Ha Hb. apply Hn in Ha, Hb. lia.
Qed.

Lemma videoSamples_set_avc (b : bytes) (s : State) :
  videoSamples (set_avcDecoderConfigRecord b s) = videoSamples s.
Proof. reflexivity. Qed.

Lemma onEncodedVideoChunk_keeps (chunk : EncodedVideoChunk)
    (meta : ChunkMetadata) (s : State) :
  Spec.well_accumulated (videoSamples s) ->
  Spec.well_accumulated (videoSamples (onEncodedVideoChunk chunk meta s))
  /\ audioSamples (onEncodedVideoChunk chunk meta s) = audioSamples s.
Proof.
  intros H. split; [|destruct meta; reflexivity].
  unfold onEncodedVideoChunk.
  destruct meta as [d|]; cbn [videoSamples set_videoSamples];
    try rewrite videoSamples_set_avc;
    (apply well_accumulated_push; [exact H | cbn; split; reflexivity]).
Qed.

Lemma onEncodedAudioChunk_keeps (chunk : EncodedAudioChunk) (s : State) :
  Spec.well_accumulated (audioSamples s) ->
  Spec.well_accumulated (audioSamples (onEncodedAudioChunk chunk s))
  /\ videoSamples (onEncodedAudioChunk chunk s) = videoSamples s.
Proof.
  intros H. unfold onEncodedAudioChunk.
  destruct (a_duration chunk) as [[|d|d]|]; split; try reflexivity;
    try exact H;
    cbn [audioSamples set_audioSamples];
    (apply well_accumulated_push; [exact H | cbn; split; reflexivity]).
Qed.

Lemma deliver_keeps (ev : EncoderEvent) (s : State) :
  Spec.well_accumulated (videoSamples s) ->
  Spec.well_accumulated (audioSamples s) ->
  Spec.well_accumulated (videoSamples (deliver s ev))
  /\ Spec.well_accumulated (audioSamples (deliver s ev)).
Proof.
  intros Hv Ha. destruct ev as [chunk meta | chunk | e]; unfold deliver.
  - destruct (onEncodedVideoChunk_keeps chunk meta s Hv) as [H1 H2].
    rewrite H2. split; assumption.
  - destruct (onEncodedAudioChunk_keeps chunk s Ha) as [H1 H2].
    rewrite H2. split; assumption.
  - split; assumption.
Qed.

Lemma deliver_all_keeps (evs : list EncoderEvent) (s : State) :
  Spec.well_accumulated (videoSamples s) ->
  Spec.well_accumulated (audioSamples s) ->
  Spec.well_accumulated (videoSamples (deliver_all evs s))
  /\ Spec.well_accumulated (audioSamples (deliver_all evs s)).
Proof.
  revert s. induction evs as [|ev evs IH]; intros s Hv Ha; simpl.
  - split; assumption.
  - destruct (deliver_keeps ev s Hv Ha) as [Hv' Ha']. apply IH; assumption.
Qed.

(** C5. Whatever the Codec Engine delivers to a new muxer, in whatever
    order, after every push both tracks have sequence numbers strictly
    increasing from 1, a first byte offset of 0, and each further sample
    starting where the previous one ends. *)
Theorem accumulator_invariant_preserved (c : Config) (evs : list EncoderEvent) :
  Spec.accumulator_invariant (videoSamples (deliver_all evs (new c)))
  /\ Spec.accumulator_invariant (audioSamples (deliver_all evs (new c))).
Proof.
  destruct (deliver_all_keeps evs (new c)) as [Hv Ha];
    try apply well_accumulated_nil.
  split; apply well_accumulated_invariant; assumption.
Qed.

End Accumulator.

(** ** The guards of [multiplexToBuffer] *)
Section Multiplex.
Import Mux.

Lemma deliver_mp4box (ev : EncoderEvent) (s : State) :
  mp4box (deliver s ev) = mp4box s.
Proof.
  destruct ev as [chunk [d|] | chunk | e]; try reflexivity.
  unfold deliver, onEncodedAudioChunk.
  destruct (a_duration chunk) as [[|d|d]|]; reflexivity.
Qed.

Lemma deliver_all_mp4box (evs : list EncoderEvent) (s : State) :
  mp4box (deliver_all evs s) = mp4box s.
Proof.
  revert s. induction evs as [|ev evs IH]; intros s; [reflexivity|].
  simpl. unfold deliver_all in IH. rewrite IH. apply deliver_mp4box.
Qed.

Lemma length_zero_nil {A} (l : list A) : l = [] -> (JS.length l =? 0) = true.
Proof. intros ->. reflexivity. Qed.

(** C8. When no video sample has been accumulated by the time both
    flushes are over, [multiplexToBuffer] throws and leaves [mp4box] as it
    was: [MP4Box.createFile()] has not run, so no [ftyp], [mdat] or [moov]
    exists.  Unless a flush was rejected or an encoder error is trapped,
    which are raised first, the error is the dedicated one. *)
Theorem multiplex_without_video_samples
    (audioFlush videoFlush : FlushOutcome) (s : State) :
  videoSamples (Spec.after_flushes audioFlush videoFlush s) = [] ->
  (exists e, fst (multiplexToBuffer audioFlush videoFlush s) = Throw e)
  /\ mp4box (snd (multiplexToBuffer audioFlush videoFlush s)) = mp4box s
  /\ (fl_rejected audioFlush = None -> fl_rejected videoFlush = None ->
      _encoderError (Spec.after_flushes audioFlush videoFlush s) = None ->
      fst (multiplexToBuffer audioFlush videoFlush s) = Throw NO_VIDEO_SAMPLES).
Proof.
  unfold Spec.after_flushes, multiplexToBuffer. intros Hv.
  destruct (fl_rejected audioFlush) as [ea|].
  { repeat split; [eexists; reflexivity | | discriminate].
    cbn. apply deliver_all_mp4box. }
  destruct (fl_rejected videoFlush) as [ev|].
  { repeat split; [eexists; reflexivity | | discriminate].
    cbn. now rewrite !deliver_all_mp4box. }
  destruct (_encoderError _) as [e|].
  { repeat split; [eexists; reflexivity | | discriminate].
    cbn. now rewrite !deliver_all_mp4box. }
  rewrite (length_zero_nil _ Hv).
  repeat split; [eexists; reflexivity|].
  cbn. now rewrite !deliver_all_mp4box.
Qed.

Lemma multiplex_without_video_samples_witness :
  fst (multiplexToBuffer Examples.no_flush Examples.no_flush
         (Spec.configured DEFAULT_CONFIG 1920 1080)) = Throw NO_VIDEO_SAMPLES
  /\ mp4box (snd (multiplexToBuffer Examples.no_flush Examples.no_flush
         (Spec.configured DEFAULT_CONFIG 1920 1080))) = None.
Proof.
  destruct (multiplex_without_video_samples Examples.no_flush Examples.no_flush
              (Spec.configured DEFAULT_CONFIG 1920 1080) eq_refl)
    as (_ & Hbox & Herr).
  split; [exact (Herr eq_refl eq_refl eq_refl) | exact Hbox].
Defined.

End Multiplex.

(** ** Keyframe requests *)
Section Keyframes.
Import Mux.

(** One call on a muxer that can encode: the keyframe flag is the test
    [frame.timestamp >= nextKeyframeUs], and [nextKeyframeUs] advances by
    the keyframe interval exactly when the flag is set. *)
Lemma pushVideoFrame_spec (f : VideoFrame) (s : State) :
  Spec.ready s ->
  let keyFrame := Qle_bool (nextKeyframeUs s) (inject_Z (f_timestamp f)) in
  let s' := snd (pushVideoFrame f s) in
  fst (pushVideoFrame f s) = Ok tt
  /\ Spec.requests s' = Spec.requests s ++ [(f, keyFrame)]
  /\ nextKeyframeUs s' =
       (if keyFrame
        then (nextKeyframeUs s + Time.secToUs (keyframeIntevalSec (cfg s)))%Q
        else nextKeyframeUs s)
  /\ Spec.ready s' /\ videoSamples s' = videoSamples s.
Proof.
  intros [He Hc]. unfold pushVideoFrame, Spec.requests, Spec.ready. rewrite He.
  destruct (Qle_bool _ _); unfold enc_encode; cbn; rewrite Hc; cbn;
    rewrite ?He; repeat split; reflexivity.
Qed.









End Keyframes.

(** ** The stable sort *)
Section SortFacts.
Context {A : Type} (key : A -> Z).

Let le_key (a b : A) : Prop := key a <= key b.

Lemma insert_by_perm (x : A) (l : list A) :
  Permutation (JS.insert_by key x l) (x :: l).
Proof.
  induction l as [|y l IH]; simpl; [reflexivity|].
  destruct (key x <=? key y); [reflexivity|].
  rewrite IH. apply perm_swap.
Qed.

Lemma toSorted_perm (l : list A) : Permutation (JS.toSorted key l) l.
Proof.
  induction l as [|x l IH]; simpl; [reflexivity|].
  rewrite insert_by_perm. now constructor.
Qed.

Lemma toSorted_length (l : list A) :
  List.length (JS.toSorted key l) = List.length l.
Proof. apply Permutation_length, toSorted_perm. Qed.

Lemma toSorted_In (l : list A) (x : A) : In x (JS.toSorted key l) <-> In x l.
Proof.
  split; apply Permutation_in; [|symmetry]; apply toSorted_perm.
Qed.

Lemma insert_by_sorted (x : A) (l : list A) :
  StronglySorted le_key l -> StronglySorted le_key (JS.insert_by key x l).
Proof.
  induction 1 as [|y l Hs IH Hy]; simpl.
  - repeat constructor.
  - destruct (key x <=? key y) eqn:E.
    + apply Z.leb_le in E. constructor; [now constructor|].
      constructor; [exact E|].
      eapply Forall_impl; [|exact Hy]. unfold le_key. intros; lia.
    + apply Z.leb_gt in E. constructor; [exact IH|].
      eapply Permutation_Forall; [symmetry; apply insert_by_perm|].
      constructor; [unfold le_key; lia | exact Hy].
Qed.

Lemma toSorted_sorted (l : list A) : StronglySorted le_key (JS.toSorted key l).
Proof.
  induction l as [|x l IH]; simpl; [constructor|].
  now apply insert_by_sorted.
Qed.

(** Stability at the head: an element that is first and has a least key
    stays first. *)
Lemma toSorted_least_head (x : A) (l : list A) :
  Forall (fun y => key x <= key y) l ->
  JS.toSorted key (x :: l) = x :: JS.toSorted key l.
Proof.
  intros H. simpl.
  assert (H' : Forall (fun y => key x <= key y) (JS.toSorted key l)).
  { eapply Permutation_Forall; [symmetry; apply toSorted_perm | exact H]. }
  destruct (JS.toSorted key l) as [|y l']; [reflexivity|].
  simpl. inversion H'; subst.
  replace (key x <=? key y) with true by (symmetry; now apply Z.leb_le).
  reflexivity.
Qed.

Lemma sorted_nth (l : list A) (i j : nat) (a b : A) :
  StronglySorted le_key l -> (i < j)%nat ->
  nth_error l i = Some a -> nth_error l j = Some b -> key a <= key b.
Proof.
  intros Hs. revert i j. induction Hs as [|y l Hs IH Hy]; intros i j Hij Ha Hb.
  - destruct i; discriminate.
  - destruct j as [|j]; [lia|]. simpl in Hb. destruct i as [|i]; simpl in Ha.
    + inversion Ha; subst. rewrite Forall_forall in Hy.
      apply Hy. eapply nth_error_In, Hb.
    + apply (IH i j); [lia | assumption | assumption].
Qed.

End SortFacts.

(** ** The index [onReady] builds *)
Section Indexing.
Import Demux.

Lemma index_nth {A} (l : list A) (i : nat) : JS.index l (Z.of_nat i) = nth_error l i.
Proof.
  unfold JS.index. replace (Z.of_nat i <? 0) with false
    by (symmetry; apply Z.ltb_ge; lia).
  now rewrite Nat2Z.id.
Qed.

Lemma index_Some {A} (l : list A) (z : Z) (x : A) :
  JS.index l z = Some x ->
  exists i, z = Z.of_nat i /\ nth_error l i = Some x /\ (i < List.length l)%nat.
Proof.
  unfold JS.index. destruct (z <? 0) eqn:E; [discriminate|].
  apply Z.ltb_ge in E. intros H. exists (Z.to_nat z).
  split; [now rewrite Z2Nat.id|]. split; [exact H|].
  apply nth_error_Some. now rewrite H.
Qed.

Lemma mapi_from_nth {A B} (f : A -> Z -> B) (l : list A) (i : Z) (k : nat) :
  nth_error (mapi_from i f l) k
  = option_map (fun x => f x (i + Z.of_nat k)) (nth_error l k).
Proof.
  revert i k. induction l as [|x l IH]; intros i k.
  - destruct k; reflexivity.
  - destruct k as [|k]; simpl.
    + now rewrite Z.add_0_r.
    + rewrite IH. replace (i + 1 + Z.of_nat k) with (i + Z.pos (Pos.of_succ_nat k)) by lia.
      reflexivity.
Qed.

Lemma mapi_from_length {A B} (f : A -> Z -> B) (l : list A) (i : Z) :
  List.length (mapi_from i f l) = List.length l.
Proof. revert i. induction l; intros; simpl; [|rewrite IHl]; reflexivity. Qed.

Lemma mapi_from_map {A B C} (f : A -> Z -> B) (g : B -> C) (h : A -> C)
    (l : list A) (i : Z) :
  (forall x j, g (f x j) = h x) -> map g (mapi_from i f l) = map h l.
Proof.
  intros H. revert i. induction l; intros; simpl; [|rewrite IHl, H]; reflexivity.
Qed.

Lemma indexSamples_length (l : list MP4Sample) :
  List.length (indexSamples l) = List.length l.
Proof.
  unfold indexSamples. now rewrite mapi_from_length, toSorted_length.
Qed.

(** Position [k] of the index holds the [k]-th sample by composition time,
    with [ptsIndex = k] and [dtsIndex] its number. *)
Lemma indexSamples_nth (l : list MP4Sample) (k : nat) (x : IndexedMP4Sample) :
  nth_error (indexSamples l) k = Some x ->
  ptsIndex x = Z.of_nat k /\ dtsIndex x = number (sample x)
  /\ nth_error (JS.toSorted cts l) k = Some (sample x).
Proof.
  unfold indexSamples. rewrite mapi_from_nth.
  destruct (nth_error (JS.toSorted cts l) k); simpl; [|discriminate].
  intros H; inversion H; subst; simpl. repeat split.
Qed.

Lemma indexSamples_In (l : list MP4Sample) (x : IndexedMP4Sample) :
  In x (indexSamples l) ->
  exists k, nth_error (indexSamples l) k = Some x
    /\ ptsIndex x = Z.of_nat k /\ dtsIndex x = number (sample x)
    /\ In (sample x) l.
Proof.
  intros H. apply In_nth_error in H. destruct H as [k Hk].
  destruct (indexSamples_nth _ _ _ Hk) as (Hp & Hd & Hs).
  exists k. repeat split; try assumption.
  apply (toSorted_In cts). eapply nth_error_In, Hs.
Qed.

Lemma zseq_S (n : nat) : Spec.zseq (S n) = Spec.zseq n ++ [Z.of_nat n].
Proof. unfold Spec.zseq. now rewrite seq_S, map_app. Qed.

Lemma zseq_NoDup (n : nat) : NoDup (Spec.zseq n).
Proof.
  unfold Spec.zseq. apply Finite.Injective_map_NoDup; [|apply seq_NoDup].
  intros a b. apply Nat2Z.inj.
Qed.

Lemma zseq_In (n : nat) (z : Z) : In z (Spec.zseq n) <-> 0 <= z < Z.of_nat n.
Proof.
  unfold Spec.zseq. rewrite in_map_iff. split.
  - intros (k & <- & Hk). apply in_seq in Hk. lia.
  - intros H. exists (Z.to_nat z). split; [lia|]. apply in_seq. lia.
Qed.

Lemma well_numbered_numbers (l : list MP4Sample) :
  Spec.well_numbered l -> map number l = Spec.zseq (List.length l).
Proof.
  induction l as [|x l IH] using rev_ind; intros H; [reflexivity|].
  rewrite map_app, length_app, Nat.add_comm. simpl. rewrite zseq_S, IH.
  - f_equal. simpl. f_equal. apply H.
    rewrite nth_error_app2, Nat.sub_diag by lia. reflexivity.
  - intros i s Hi. apply H. rewrite nth_error_app1; [exact Hi|].
    apply nth_error_Some. now rewrite Hi.
Qed.

Lemma indexSamples_ptsIndex (l : list MP4Sample) :
  map ptsIndex (indexSamples l) = Spec.zseq (List.length l).
Proof.
  apply nth_error_ext. intros k.
  unfold Spec.zseq. rewrite !nth_error_map.
  destruct (nth_error (indexSamples l) k) as [x|] eqn:E; simpl.
  - destruct (indexSamples_nth _ _ _ E) as (Hp & _ & _).
    assert (Hk : (k < List.length l)%nat).
    { rewrite <- indexSamples_length. apply nth_error_Some. now rewrite E. }
    rewrite nth_error_seq. replace (k <? List.length l)%nat with true
      by (symmetry; now apply Nat.ltb_lt).
    simpl. now rewrite Hp.
  - apply nth_error_None in E. rewrite indexSamples_length in E.
    rewrite nth_error_seq. replace (k <? List.length l)%nat with false
      by (symmetry; now apply Nat.ltb_ge).
    reflexivity.
Qed.

Lemma indexSamples_dtsIndex (l : list MP4Sample) :
  Spec.well_numbered l ->
  Permutation (map dtsIndex (indexSamples l)) (Spec.zseq (List.length l)).
Proof.
  intros H. rewrite <- (well_numbered_numbers l H).
  unfold indexSamples.
  rewrite (mapi_from_map _ dtsIndex number) by reflexivity.
  apply Permutation_map, toSorted_perm.
Qed.

Lemma indexSamples_decode_order (l : list MP4Sample) (x : IndexedMP4Sample) :
  Spec.well_numbered l -> In x (indexSamples l) ->
  JS.index l (dtsIndex x) = Some (sample x).
Proof.
  intros H Hx. destruct (indexSamples_In _ _ Hx) as (_ & _ & _ & Hd & Hin).
  apply In_nth_error in Hin. destruct Hin as [i Hi].
  rewrite Hd, (H _ _ Hi), index_nth. exact Hi.
Qed.

Lemma find_unique {A} (f : A -> Z) (l : list A) (k : nat) (a : A) :
  NoDup (map f l) -> nth_error l k = Some a ->
  List.find (fun y => f y =? f a) l = Some a.
Proof.
  revert k. induction l as [|y l IH]; intros k Hnd Hk; [destruct k; discriminate|].
  simpl in Hnd. inversion Hnd as [|? ? Hy Hnd']; subst.
  destruct k as [|k]; simpl in *.
  - inversion Hk; subst. now rewrite Z.eqb_refl.
  - destruct (f y =? f a) eqn:E; [|eapply IH; eassumption].
    apply Z.eqb_eq in E. exfalso. apply Hy. rewrite E.
    apply in_map. eapply nth_error_In, Hk.
Qed.

End Indexing.

(** ** [onReady] *)
Section OnReady.
Import Demux.

Ltac run_monad :=
  unfold onReady, readVideoDecoderConfig, trap_and_throw, _trapError,
    cleanBuffers, bind, modify, get, ret, throw; cbn.

Lemma onReady_index (info : MP4Info) (supported : VideoDecoderConfig -> bool)
    (st : State) (vt : MP4VideoTrack) (rest : list MP4VideoTrack) (trak : Trak) :
  videoTracks info = vt :: rest ->
  getTrackById (mp4box st) (id vt) = Some trak ->
  let st' := snd (onReady info supported st) in
  videoSamples st' = indexSamples (samples trak)
  /\ videoTrak st' = Some trak
  /\ file st' = file st
  /\ (forall first tl, indexSamples (samples trak) = first :: tl ->
      firstFramePtsOffsetMs st' = ctsMs_raw (sample first)).
Proof.
  intros Hv Ht. run_monad. rewrite Hv. cbn. rewrite Ht. cbn.
  destruct (indexSamples (samples trak)) as [|first tl] eqn:E; cbn.
  { repeat split. intros; discriminate. }
  rewrite Ht.
  destruct (stsd trak) as [entries|]; cbn.
  2:{ repeat split. intros ? ? H; inversion H; reflexivity. }
  destruct (scan_entries entries); cbn.
  2:{ repeat split. intros ? ? H; inversion H; reflexivity. }
  destruct (supported _); cbn;
    repeat split; intros ? ? H; inversion H; reflexivity.
Qed.

Lemma onReady_indexed (info : MP4Info) (supported : VideoDecoderConfig -> bool)
    (st : State) (vt : MP4VideoTrack) (rest : list MP4VideoTrack) (trak : Trak) :
  videoTracks info = vt :: rest ->
  getTrackById (mp4box st) (id vt) = Some trak ->
  Spec.well_numbered (samples trak) ->
  Spec.indexed (snd (onReady info supported st)).
Proof.
  intros Hv Ht Hw. destruct (onReady_index info supported st vt rest trak Hv Ht)
    as (H1 & H2 & _).
  exists trak. repeat split; assumption.
Qed.

(** C7. When [onReady] has indexed a track whose samples the library numbers
    by decode position: [ptsIndex] runs through [0, count) in list order,
    [dtsIndex] is a permutation of [0, count) and names each sample's place
    in the track's decode-order list, composition timestamps do not decrease
    along [ptsIndex], and on [0, count) the two index mappings are inverse
    to each other. *)
Theorem indexing_is_bijective (info : MP4Info)
    (supported : VideoDecoderConfig -> bool) (st : State)
    (vt : MP4VideoTrack) (rest : list MP4VideoTrack) (trak : Trak) :
  videoTracks info = vt :: rest ->
  getTrackById (mp4box st) (id vt) = Some trak ->
  Spec.well_numbered (samples trak) ->
  let st' := snd (onReady info supported st) in
  let count := List.length (samples trak) in
  map ptsIndex (videoSamples st') = Spec.zseq count
  /\ Permutation (map dtsIndex (videoSamples st')) (Spec.zseq count)
  /\ (forall x, In x (videoSamples st') ->
      JS.index (samples trak) (dtsIndex x) = Some (sample x))
  /\ (forall i j a b, i < j ->
      JS.index (videoSamples st') i = Some a ->
      JS.index (videoSamples st') j = Some b ->
      cts (sample a) <= cts (sample b))
  /\ (forall x, 0 <= x < Z.of_nat count ->
      dtsIndexToPtsIndex (ptsIndexToDtsIndex x st') st' = x
      /\ ptsIndexToDtsIndex (dtsIndexToPtsIndex x st') st' = x).
Proof.
  intros Hv Ht Hw st' count.
  destruct (onReady_index info supported st vt rest trak Hv Ht) as (Hs & _).
  fold st' in Hs.
  assert (Hperm := indexSamples_dtsIndex _ Hw).
  assert (Hnd : NoDup (map dtsIndex (indexSamples (samples trak)))).
  { eapply Permutation_NoDup; [symmetry; exact Hperm | apply zseq_NoDup]. }
  rewrite Hs. split; [apply indexSamples_ptsIndex|].
  split; [exact Hperm|].
  split; [intros x Hx; now apply indexSamples_decode_order|].
  split.
  - intros i j a b Hij Ha Hb.
    apply index_Some in Ha, Hb.
    destruct Ha as (i' & -> & Ha & _), Hb as (j' & -> & Hb & _).
    apply indexSamples_nth in Ha, Hb.
    destruct Ha as (_ & _ & Ha), Hb as (_ & _ & Hb).
    eapply (sorted_nth cts); [apply toSorted_sorted | | exact Ha | exact Hb]. lia.
  - intros x Hx. unfold dtsIndexToPtsIndex, ptsIndexToDtsIndex, JS.find.
    rewrite Hs. split.
    + destruct (nth_error (indexSamples (samples trak)) (Z.to_nat x)) as [a|] eqn:Ea.
      2:{ apply nth_error_None in Ea. rewrite indexSamples_length in Ea.
          fold count in Ea. lia. }
      assert (Hix : JS.index (indexSamples (samples trak)) x = Some a).
      { rewrite <- Ea, <- index_nth. f_equal. lia. }
      rewrite Hix, (find_unique dtsIndex _ _ _ Hnd Ea).
      apply indexSamples_nth in Ea. destruct Ea as (-> & _). lia.
    + assert (Hin : In x (map dtsIndex (indexSamples (samples trak)))).
      { eapply Permutation_in; [symmetry; exact Hperm|]. now apply zseq_In. }
      apply in_map_iff in Hin. destruct Hin as (a & Hax & Ha).
      destruct (List.find (fun y => dtsIndex y =? x) (indexSamples (samples trak)))
        as [b|] eqn:Eb.
      2:{ eapply find_none in Eb; [|exact Ha]. simpl in Eb.
          apply Z.eqb_neq in Eb. contradiction. }
      apply find_some in Eb. destruct Eb as [Hb Hbx]. apply Z.eqb_eq in Hbx.
      destruct (indexSamples_In _ _ Hb) as (k & Hk & Hp & _).
      rewrite Hp, index_nth, Hk. exact Hbx.
Qed.

Lemma trak5_well_numbered : Spec.well_numbered (samples Examples.trak5).
Proof.
  intros [|[|[|[|[|i]]]]] s H; simpl in H; inversion H; try reflexivity.
  destruct i; discriminate.
Qed.

Lemma indexing_is_bijective_witness :
  map ptsIndex (videoSamples Examples.parsed5) = [0; 1; 2; 3; 4]
  /\ dtsIndexToPtsIndex (ptsIndexToDtsIndex 3 Examples.parsed5) Examples.parsed5 = 3.
Proof.
  destruct (indexing_is_bijective Examples.info5 (fun _ => true)
              (new Examples.file10 [(1, Examples.trak5)])
              Examples.track [] Examples.trak5 eq_refl eq_refl
              trak5_well_numbered) as (H1 & _ & _ & _ & H5).
  split; [exact H1|]. apply (H5 3). simpl. lia.
Defined.

End OnReady.

(** ** Fetching sample data *)
Section Fetch.
Import Demux.

Lemma same_index_refl (s : State) : Spec.same_index s s.
Proof. repeat split. Qed.

Lemma same_index_trans (s1 s2 s3 : State) :
  Spec.same_index s1 s2 -> Spec.same_index s2 s3 -> Spec.same_index s1 s3.
Proof.
  unfold Spec.same_index. intros (a1 & a2 & a3 & a4 & a5 & a6) (b1 & b2 & b3 & b4 & b5 & b6).
  repeat split; congruence.
Qed.

Lemma bind_Ok {A B} (m : M A) (k : A -> M B) (s s1 : State) (a : A) :
  m s = (Ok a, s1) -> bind m k s = k a s1.
Proof. unfold bind. now intros ->. Qed.

Lemma bind_Ok_inv {A B} (m : M A) (k : A -> M B) (s s' : State) (b : B) :
  bind m k s = (Ok b, s') ->
  exists a s1, m s = (Ok a, s1) /\ k a s1 = (Ok b, s').
Proof.
  unfold bind. destruct (m s) as [[a|e] s1]; [|discriminate].
  intros H. now exists a, s1.
Qed.

Lemma fetchSampleData_state (x : IndexedMP4Sample) (s : State) (trak : Trak) :
  videoTrak s = Some trak -> snd (fetchSampleData x s) = s.
Proof.
  intros H. unfold fetchSampleData, bind, get, throw, ret. cbn. rewrite H.
  destruct (getSample _ _ _) as [[smp|]|e]; reflexivity.
Qed.

Lemma mapM_state {A B} (f : A -> M B) (l : list A) (s : State) :
  (forall x s', s' = s -> snd (f x s') = s) -> snd (mapM f l s) = s.
Proof.
  intros H. induction l as [|x l IH]; [reflexivity|].
  simpl. unfold bind at 1. specialize (H x s eq_refl).
  destruct (f x s) as [[y|e] s1]; simpl in H; subst s1; [|reflexivity].
  unfold bind at 1. destruct (mapM f l s) as [[ys|e] s2]; simpl in IH; subst s2;
    reflexivity.
Qed.

(** A sample that sits in the track at its [dtsIndex] comes back with the
    same indices and, at most, a payload. *)
Lemma fetchSampleData_ok (x : IndexedMP4Sample) (s : State) (trak : Trak) :
  videoTrak s = Some trak ->
  JS.index (samples trak) (dtsIndex x) = Some (sample x) ->
  exists x', fetchSampleData x s = (Ok x', s) /\ Spec.fetched_of x x'
    /\ sample x' =
       match find_bytes (buffers (mp4box s)) (offset (sample x)) (size (sample x)) with
       | Some b => with_data (sample x) (Some b)
       | None => sample x
       end.
Proof.
  intros Ht Hx. unfold fetchSampleData, bind, get, throw, ret. cbn.
  rewrite Ht. unfold getSample. rewrite Hx.
  destruct (find_bytes _ _ _) as [b|]; eexists; (split; [reflexivity|]).
  - split; [|reflexivity]. repeat split. now exists (Some b).
  - split; [|reflexivity]. repeat split. exists (data (sample x)).
    now destruct (sample x).
Qed.

Lemma mapM_ok {A B} (f : A -> M B) (R : A -> B -> Prop) (l : list A) (s : State) :
  (forall x, In x l -> exists y, f x s = (Ok y, s) /\ R x y) ->
  exists out, mapM f l s = (Ok out, s) /\ Forall2 R l out.
Proof.
  induction l as [|x l IH]; intros H.
  - exists []. split; [reflexivity | constructor].
  - destruct (H x (or_introl eq_refl)) as (y & Hy & Hr).
    destruct IH as (ys & Hys & Hrs); [intros z Hz; apply H; now right|].
    exists (y :: ys). split; [|now constructor].
    simpl. rewrite (bind_Ok _ _ _ _ _ Hy), (bind_Ok _ _ _ _ _ Hys). reflexivity.
Qed.

Lemma bulkFetch_nil (s : State) : bulkFetchSampleData [] s = (Ok [], s).
Proof. reflexivity. Qed.

Lemma toSorted_nonempty {A} (key : A -> Z) (l : list A) :
  l <> [] ->
  exists first rest last,
    JS.toSorted key l = first :: rest
    /\ JS.at_last (JS.toSorted key l) = Some last.
Proof.
  intros Hl.
  destruct (JS.toSorted key l) as [|first rest] eqn:E.
  - apply (f_equal (@List.length A)) in E. rewrite toSorted_length in E.
    destruct l; [contradiction | discriminate].
  - destruct (at_last_cases (first :: rest)) as [[H _] | (l' & x & _ & H)];
      [discriminate|].
    exists first, rest, x. split; [reflexivity | exact H].
Qed.

Lemma bulkFetch_unfold (l : list IndexedMP4Sample) (s : State)
    (first last : IndexedMP4Sample) (rest : list IndexedMP4Sample) :
  l <> [] ->
  JS.toSorted (fun a => offset (sample a)) l = first :: rest ->
  JS.at_last (JS.toSorted (fun a => offset (sample a)) l) = Some last ->
  bulkFetchSampleData l s
  = mapM fetchSampleData (JS.toSorted (fun a => dts (sample a)) l)
      (Spec.after_fetch (offset (sample first))
                   (offset (sample last) + size (sample last)) s).
Proof.
  intros Hl Hf Ha. unfold bulkFetchSampleData. cbv zeta.
  destruct l as [|x l]; [contradiction|].
  replace (JS.length (x :: l) =? 0) with false
    by (symmetry; apply Z.eqb_neq; unfold JS.length; simpl; lia).
  rewrite Hf in Ha. rewrite Hf, Ha. reflexivity.
Qed.

Lemma bulkFetch_state (l : list IndexedMP4Sample) (s : State) :
  (l = [] \/ exists trak, videoTrak s = Some trak) ->
  Spec.same_index s (snd (bulkFetchSampleData l s)).
Proof.
  intros [-> | (trak & Ht)]; [apply same_index_refl|].
  destruct l as [|x l]; [apply same_index_refl|].
  destruct (toSorted_nonempty (fun a => offset (sample a)) (x :: l))
    as (first & rest & last & Hf & Ha); [discriminate|].
  assert (Hne : x :: l <> []) by discriminate.
  rewrite (bulkFetch_unfold _ _ _ _ _ Hne Hf Ha).
  rewrite mapM_state.
  - repeat split.
  - intros y s' ->. now apply fetchSampleData_state with (trak := trak).
Qed.

End Fetch.

(** ** Slices *)
Section Slices.
Context {A : Type}.

Lemma clamp_index_id (len i : Z) : 0 <= i <= len -> JS.clamp_index len i = i.
Proof.
  intros H. unfold JS.clamp_index.
  replace (i <? 0) with false by (symmetry; apply Z.ltb_ge; lia). lia.
Qed.

Lemma clamp_index_over (len i : Z) : 0 <= len <= i -> JS.clamp_index len i = len.
Proof.
  intros H. unfold JS.clamp_index.
  replace (i <? 0) with false by (symmetry; apply Z.ltb_ge; lia). lia.
Qed.

Lemma slice_inside (l : list A) (a b : Z) :
  0 <= a <= b -> b <= JS.length l ->
  JS.slice l a b = firstn (Z.to_nat (b - a)) (skipn (Z.to_nat a) l).
Proof.
  intros H1 H2. unfold JS.slice. now rewrite !clamp_index_id by lia.
Qed.

Lemma slice_length (l : list A) (a b : Z) :
  0 <= a <= b -> b <= JS.length l -> JS.length (JS.slice l a b) = b - a.
Proof.
  intros H1 H2. rewrite slice_inside by assumption.
  unfold JS.length in *. rewrite length_firstn, length_skipn. lia.
Qed.

Lemma In_firstn_list (l : list A) (n : nat) (x : A) : In x (firstn n l) -> In x l.
Proof.
  revert l. induction n as [|n IH]; intros [|y l] H; simpl in H; try contradiction.
  destruct H as [-> | H]; [now left | right; now apply IH].
Qed.

Lemma In_skipn_list (l : list A) (n : nat) (x : A) : In x (skipn n l) -> In x l.
Proof.
  revert l. induction n as [|n IH]; intros [|y l] H; simpl in H;
    try contradiction; try exact H.
  right. now apply IH.
Qed.

Lemma slice_In (l : list A) (a b : Z) (x : A) : In x (JS.slice l a b) -> In x l.
Proof.
  unfold JS.slice. intros H. eapply In_skipn_list, In_firstn_list, H.
Qed.

Lemma skipn_nth_head (l : list A) (k : nat) (x : A) :
  nth_error l k = Some x -> exists rest, skipn k l = x :: rest.
Proof.
  revert l. induction k as [|k IH]; intros [|y l] H; try discriminate.
  - inversion H; subst. now exists l.
  - simpl in *. now apply IH.
Qed.

(** A slice that starts inside the array at [k] and is not empty starts with
    element [k]. *)
Lemma slice_head (l : list A) (k : nat) (b : Z) (x : A) :
  nth_error l k = Some x -> Z.of_nat k < b -> b <= JS.length l ->
  exists rest, JS.slice l (Z.of_nat k) b = x :: rest.
Proof.
  intros Hk Hb Hl. rewrite slice_inside by lia.
  destruct (skipn_nth_head _ _ _ Hk) as (rest & Hr).
  rewrite Nat2Z.id, Hr.
  destruct (Z.to_nat (b - Z.of_nat k)) as [|n] eqn:E; [lia|].
  simpl. eauto.
Qed.

Lemma firstn_In_nth (l : list A) (n : nat) (x : A) :
  In x (firstn n l) -> exists k, (k < n)%nat /\ nth_error l k = Some x.
Proof.
  revert l. induction n as [|n IH]; intros [|y l] H; simpl in H; try contradiction.
  destruct H as [-> | H].
  - exists 0%nat. split; [lia | reflexivity].
  - destruct (IH _ H) as (k & Hk & Hx). exists (S k). split; [lia | exact Hx].
Qed.

Lemma findLast_some (p : A -> bool) (l : list A) (x : A) :
  JS.findLast p l = Some x -> In x l /\ p x = true.
Proof.
  unfold JS.findLast. intros H. apply find_some in H.
  destruct H as [H1 H2]. split; [now apply in_rev | exact H2].
Qed.

End Slices.

(** ** [seek] and the timestamp lookup *)
Section Seek.
Import Demux.

Lemma seek_empty (t : Q) (s : State) :
  videoSamples s = [] -> seek t s = (Throw NO_SAMPLES, s).
Proof.
  intros H. unfold seek, bind, get, throw. cbn. now rewrite H.
Qed.

Lemma ceil_half_queue : JS.Math_ceil (inject_Z MIN_DECODER_QUEUE_SIZE / 2) = 10.
Proof. reflexivity. Qed.

(** [seek] with its sequencing unfolded, on a demuxer that has samples. *)
Lemma seek_nonempty (t : Q) (s : State) :
  videoSamples s <> [] ->
  seek t s =
  let s1 := set_buffers [] s in
  let vs := videoSamples s in
  let target := timestampMsToPtsIndex t s in
  if target =? -1 then (Ok Spec.NOT_FOUND, s1)
  else match JS.index vs target with
       | None => (Throw "TypeError", s1)
       | Some frame =>
           if is_key frame
           then bind (bulkFetchSampleData (Spec.keyframe_window vs target))
                     (Spec.answer_with frame) s1
           else match JS.findLast is_key (JS.slice vs 0 (ptsIndex frame)) with
                | None => (Throw NO_KEYFRAME, s1)
                | Some lastKeyframe =>
                    bind (bulkFetchSampleData (Spec.gop_window vs frame lastKeyframe))
                         (Spec.answer_with frame) s1
                end
       end.
Proof.
  intros H. unfold seek. unfold bind at 1. unfold get at 1.
  replace (JS.length (videoSamples s) =? 0) with false.
  2:{ symmetry. apply Z.eqb_neq. destruct (videoSamples s); [contradiction|].
      unfold JS.length. simpl. lia. }
  unfold bind at 1. unfold cleanBuffers, modify at 1.
  unfold bind at 1. unfold get at 1.
  change (videoSamples (set_buffers [] s)) with (videoSamples s).
  change (timestampMsToPtsIndex t (set_buffers [] s))
    with (timestampMsToPtsIndex t s).
  cbv zeta. destruct (timestampMsToPtsIndex t s =? -1); [reflexivity|].
  destruct (JS.index (videoSamples s) (timestampMsToPtsIndex t s)) as [frame|];
    [|reflexivity].
  rewrite ceil_half_queue.
  destruct (is_key frame); [reflexivity|].
  destruct (JS.findLast _ _); reflexivity.
Qed.

End Seek.

(** ** The timestamp lookup *)
Section Lookup.
Import Demux.

Lemma covers_closed (offsetMs t : Q) (x : MP4Sample) :
  covers offsetMs t x = true <-> Spec.in_closed_interval offsetMs t x.
Proof.
  unfold covers, Spec.in_closed_interval.
  rewrite andb_true_iff, !Qle_bool_iff. reflexivity.
Qed.

Lemma covers_not_closed (offsetMs t : Q) (x : MP4Sample) :
  covers offsetMs t x = false <-> ~ Spec.in_closed_interval offsetMs t x.
Proof.
  rewrite <- covers_closed. destruct (covers offsetMs t x); split;
    congruence.
Qed.

(** The loop returns the [ptsIndex] of the first sample, in list order,
    whose closed interval holds the timestamp. *)
Lemma scan_samples_found (offsetMs t : Q) (l : list IndexedMP4Sample) :
  (exists x, In x l /\ covers offsetMs t (sample x) = true) ->
  exists k x, nth_error l k = Some x
    /\ covers offsetMs t (sample x) = true
    /\ scan_samples offsetMs t l = ptsIndex x
    /\ forall j y, (j < k)%nat -> nth_error l j = Some y ->
         covers offsetMs t (sample y) = false.
Proof.
  induction l as [|y l IH]; intros (x & Hin & Hc); [contradiction|].
  simpl. destruct (covers offsetMs t (sample y)) eqn:E.
  - exists 0%nat, y. repeat split; try assumption. intros; lia.
  - destruct Hin as [-> | Hin]; [congruence|].
    destruct IH as (k & z & Hk & Hz & Hs & Hmin); [now exists x|].
    exists (S k), z. repeat split; try assumption.
    intros [|j] w Hj Hw; simpl in Hw; [now inversion Hw; subst|].
    apply (Hmin j); [lia | assumption].
Qed.

Lemma scan_samples_none (offsetMs t : Q) (l : list IndexedMP4Sample) :
  (forall x, In x l -> covers offsetMs t (sample x) = false) ->
  scan_samples offsetMs t l = -1.
Proof.
  induction l as [|y l IH]; intros H; [reflexivity|].
  simpl. rewrite (H y (or_introl eq_refl)). apply IH.
  intros x Hx. apply H. now right.
Qed.

Lemma covers_dec (offsetMs t : Q) (l : list IndexedMP4Sample) :
  (exists x, In x l /\ covers offsetMs t (sample x) = true)
  \/ (forall x, In x l -> covers offsetMs t (sample x) = false).
Proof.
  induction l as [|y l [(x & Hx & Hc) | IH]].
  - right. intros ? [].
  - left. exists x. split; [now right | exact Hc].
  - destruct (covers offsetMs t (sample y)) eqn:E.
    + left. exists y. split; [now left | exact E].
    + right. intros x [-> | Hx]; [exact E | now apply IH].
Qed.

Lemma indexed_nth (s : State) (k : nat) (x : IndexedMP4Sample) :
  Spec.indexed s -> nth_error (videoSamples s) k = Some x ->
  ptsIndex x = Z.of_nat k.
Proof.
  intros (trak & _ & Hs & _) Hk. rewrite Hs in Hk.
  now apply indexSamples_nth in Hk.
Qed.

Lemma indexed_index (s : State) (z : Z) (x : IndexedMP4Sample) :
  Spec.indexed s -> JS.index (videoSamples s) z = Some x -> ptsIndex x = z.
Proof.
  intros Hi Hz. apply index_Some in Hz. destruct Hz as (k & -> & Hk & _).
  eapply indexed_nth; eassumption.
Qed.

Lemma answer_with_ptsIndex (frame : IndexedMP4Sample)
    (m : M (list IndexedMP4Sample)) (s s' : State) (r : SeekReturn) :
  bind m (Spec.answer_with frame) s = (Ok r, s') ->
  r_ptsIndex r = ptsIndex frame /\ r_dtsIndex r = dtsIndex frame
  /\ m s = (Ok (r_samples r), s').
Proof.
  intros H. apply bind_Ok_inv in H. destruct H as (a & s1 & Hm & Hk).
  unfold Spec.answer_with, ret in Hk. inversion Hk; subst. simpl.
  repeat split. exact Hm.
Qed.

(** What a successful [seek] reports is what the lookup found. *)
Lemma seek_ptsIndex (t : Q) (s s' : State) (r : SeekReturn) :
  Spec.indexed s -> seek t s = (Ok r, s') ->
  r_ptsIndex r = timestampMsToPtsIndex t s.
Proof.
  intros Hi H.
  destruct (videoSamples s) as [|v vs] eqn:Ev.
  { rewrite seek_empty in H by exact Ev. discriminate. }
  rewrite seek_nonempty in H by (rewrite Ev; discriminate).
  cbv zeta in H. rewrite Ev in H.
  destruct (timestampMsToPtsIndex t s =? -1) eqn:E.
  { apply Z.eqb_eq in E. inversion H; subst. simpl. now rewrite E. }
  destruct (JS.index (v :: vs) (timestampMsToPtsIndex t s)) as [frame|] eqn:Ef;
    [|discriminate].
  rewrite <- Ev in Ef. apply (indexed_index _ _ _ Hi) in Ef.
  destruct (is_key frame).
  - apply answer_with_ptsIndex in H. destruct H as (-> & _). exact Ef.
  - destruct (JS.findLast _ _); [|discriminate].
    apply answer_with_ptsIndex in H. destruct H as (-> & _). exact Ef.
Qed.


End Lookup.

(** ** The example files are indexed *)
Section ExampleFacts.
Import Demux.

Lemma numbers_well_numbered (l : list MP4Sample) :
  map number l = Spec.zseq (List.length l) -> Spec.well_numbered l.
Proof.
  intros H i s Hi.
  assert (Hn : nth_error (map number l) i = Some (number s))
    by (rewrite nth_error_map, Hi; reflexivity).
  rewrite H in Hn. unfold Spec.zseq in Hn. rewrite nth_error_map in Hn.
  destruct (nth_error (seq 0 (List.length l)) i) as [k|] eqn:E; [|discriminate].
  rewrite nth_error_seq in E.
  destruct (i <? List.length l)%nat; [|discriminate].
  inversion E; subst. now inversion Hn.
Qed.

Lemma parsed5_indexed : Spec.indexed Examples.parsed5.
Proof.
  apply (onReady_indexed _ _ _ Examples.track [] Examples.trak5);
    [reflexivity | reflexivity | now apply numbers_well_numbered].
Qed.

Lemma rejected5_indexed : Spec.indexed Examples.rejected5.
Proof.
  apply (onReady_indexed _ _ _ Examples.track [] Examples.trak5);
    [reflexivity | reflexivity | now apply numbers_well_numbered].
Qed.

Lemma parsed13_indexed : Spec.indexed Examples.parsed13.
Proof.
  apply (onReady_indexed _ _ _ Examples.track [] Examples.trak13);
    [reflexivity | reflexivity | now apply numbers_well_numbered].
Qed.

Lemma parsed_tie_indexed : Spec.indexed Examples.parsed_tie.
Proof.
  apply (onReady_indexed _ _ _ Examples.track [] Examples.trak_tie);
    [reflexivity | reflexivity | now apply numbers_well_numbered].
Qed.



End ExampleFacts.

Section LookupExamples.
Import Demux.



(** The boundary queries of the claim on which the code agrees with it. *)
Example lookup_inside_the_interval :
  timestampMsToPtsIndex (1032999 # 1000) Examples.parsed5 = 1
  /\ timestampMsToPtsIndex (999999 # 1000) Examples.parsed5 = 0.
Proof. split; reflexivity. Qed.






End LookupExamples.

(** ** Trapped parse errors *)
Section ParseErrors.
Import Demux.

Lemma snd_bind_answer (frame : IndexedMP4Sample)
    (m : M (list IndexedMP4Sample)) (s : State) :
  snd (bind m (Spec.answer_with frame) s) = snd (m s).
Proof. unfold bind. destruct (m s) as [[a|e] s1]; reflexivity. Qed.

Lemma has_track_cases (s : State) :
  Spec.has_track s -> videoSamples s = [] \/ exists trak, videoTrak s = Some trak.
Proof.
  unfold Spec.has_track. intros H.
  destruct (videoTrak s) as [trak|]; [right; now exists trak|].
  left. now apply H.
Qed.

Lemma seek_same_index (t : Q) (s : State) :
  Spec.has_track s -> Spec.same_index s (snd (seek t s)).
Proof.
  intros H. destruct (has_track_cases s H) as [He | (trak & Ht)].
  { rewrite seek_empty by exact He. apply same_index_refl. }
  destruct (videoSamples s) as [|v vs] eqn:Ev.
  { rewrite seek_empty by exact Ev. apply same_index_refl. }
  rewrite seek_nonempty by (rewrite Ev; discriminate). cbv zeta.
  assert (Hb : forall l, Spec.same_index s
                 (snd (bulkFetchSampleData l (set_buffers [] s)))).
  { intros l. apply same_index_trans with (s2 := set_buffers [] s);
      [repeat split|].
    apply bulkFetch_state. right. now exists trak. }
  destruct (_ =? -1); [repeat split|].
  destruct (JS.index _ _) as [frame|]; [|repeat split].
  destruct (is_key frame); [rewrite snd_bind_answer; apply Hb|].
  destruct (JS.findLast _ _); [rewrite snd_bind_answer; apply Hb | repeat split].
Qed.

Lemma readAllSamples_unfold (s : State) :
  readAllSamples s = bulkFetchSampleData (videoSamples s) (set_buffers [] s).
Proof. reflexivity. Qed.

Lemma readAllSamples_same_index (s : State) :
  Spec.has_track s -> Spec.same_index s (snd (readAllSamples s)).
Proof.
  intros H. rewrite readAllSamples_unfold.
  apply same_index_trans with (s2 := set_buffers [] s); [repeat split|].
  apply bulkFetch_state.
  destruct (has_track_cases s H) as [He | (trak & Ht)];
    [left; exact He | right; now exists trak].
Qed.

Lemma run_call_same_index (c : Spec.Call) (s : State) :
  Spec.has_track s -> Spec.same_index s (Spec.run_call s c).
Proof.
  intros H. destruct c as [t| |]; simpl.
  - now apply seek_same_index.
  - now apply readAllSamples_same_index.
  - apply same_index_refl.
Qed.

Lemma same_index_has_track (s s' : State) :
  Spec.same_index s s' -> Spec.has_track s -> Spec.has_track s'.
Proof.
  unfold Spec.has_track. intros (_ & Hv & Ht & _) H. rewrite Hv, Ht. exact H.
Qed.

Lemma run_calls_same_index (calls : list Spec.Call) (s : State) :
  Spec.has_track s -> Spec.same_index s (fold_left Spec.run_call calls s).
Proof.
  revert s. induction calls as [|c calls IH]; intros s H; simpl.
  - apply same_index_refl.
  - pose proof (run_call_same_index c s H) as Hc.
    eapply same_index_trans; [exact Hc|].
    apply IH. eapply same_index_has_track; eassumption.
Qed.

Lemma construct_has_track (f : bytes) (parsed : list (Z * Trak))
    (outcome : ParseOutcome) (supported : VideoDecoderConfig -> bool) :
  Spec.has_track (construct f parsed outcome supported).
Proof.
  destruct outcome as [error | | info]; try (intros _; reflexivity).
  unfold construct.
  destruct (videoTracks info) as [|vt rest] eqn:Ev.
  { unfold onReady, _trapError, bind, modify, ret. cbn. rewrite Ev.
    intros _. reflexivity. }
  destruct (getTrackById (mp4box (new f parsed)) (id vt)) as [trak|] eqn:Et.
  - destruct (onReady_index info supported _ vt rest trak Ev Et) as (_ & Ht & _).
    intros H. rewrite Ht in H. discriminate.
  - unfold onReady, bind, modify, get, throw. cbn. rewrite Ev. cbn.
    cbn in Et. rewrite Et. intros _. reflexivity.
Qed.

(** C9, amended.  After any parse error trapped while the demuxer was
    constructed, [getVideoDecoderConfig] throws that error, and keeps doing
    so after any further [seek], [readAllSamples] and
    [getVideoDecoderConfig] calls: nothing clears or replaces it. *)
Theorem trapped_error_rethrown_by_getVideoDecoderConfig
    (f : bytes) (parsed : list (Z * Trak)) (outcome : ParseOutcome)
    (supported : VideoDecoderConfig -> bool) (e : string)
    (calls : list Spec.Call) :
  _error (construct f parsed outcome supported) = Some e ->
  getVideoDecoderConfig
    (fold_left Spec.run_call calls (construct f parsed outcome supported))
  = ConfigThrown e.
Proof.
  intros He.
  destruct (run_calls_same_index calls _
              (construct_has_track f parsed outcome supported)) as (H & _).
  unfold getVideoDecoderConfig. now rewrite H, He.
Qed.

Lemma trapped_error_rethrown_by_getVideoDecoderConfig_witness :
  getVideoDecoderConfig
    (fold_left Spec.run_call [Spec.CallSeek 1050; Spec.CallReadAllSamples]
       Examples.rejected5)
  = ConfigThrown "VideoDecoder config not supported".
Proof.
  exact (trapped_error_rethrown_by_getVideoDecoderConfig
           Examples.file10 [(1, Examples.trak5)]
           (MovieParsed Examples.info5) (fun _ => false)
           "VideoDecoder config not supported"
           [Spec.CallSeek 1050; Spec.CallReadAllSamples] eq_refl).
Defined.

(** C9, as stated, fails.  With a decoder configuration that the engine
    rejects, the error is trapped after the samples were indexed: [seek]
    and [readAllSamples] then answer normally.  With no video track,
    [readAllSamples] answers with the empty list and [seek] throws an error
    of its own, not the trapped one. *)
Lemma trapped_error_not_rethrown_by_seek :
  _error Examples.rejected5 = Some "VideoDecoder config not supported"%string
  /\ (exists r, fst (seek 1050 Examples.rejected5) = Ok r
                /\ r_ptsIndex r = 2 /\ List.length (r_samples r) = 4%nat)
  /\ (exists l, fst (readAllSamples Examples.rejected5) = Ok l
                /\ List.length l = 5%nat)
  /\ let s := construct Examples.file10 [(1, Examples.trak5)]
                (MovieParsed {| info_duration := 0; info_timescale := 1000;
                                videoTracks := [] |})
                (fun _ => true) in
     _error s = Some "mp4 file without video track"%string
     /\ fst (readAllSamples s) = Ok []
     /\ fst (seek 0 s) = Throw NO_SAMPLES
     /\ NO_SAMPLES <> "mp4 file without video track"%string.
Proof.
  split; [reflexivity|].
  split; [eexists; repeat split; reflexivity|].
  split; [eexists; repeat split; reflexivity|].
  repeat split. discriminate.
Qed.

End ParseErrors.

(** ** The bulk fetch *)
Section BulkFetch.
Import Demux.

Lemma slice_of_slice {A} (l : list A) (a b c n : Z) :
  0 <= a <= c -> 0 <= n -> c + n <= b -> b <= JS.length l ->
  firstn (Z.to_nat n) (skipn (Z.to_nat (c - a)) (JS.slice l a b))
  = JS.slice l c (c + n).
Proof.
  intros Ha Hn Hb Hl.
  rewrite !slice_inside by lia.
  rewrite skipn_firstn_comm, skipn_skipn, firstn_firstn.
  f_equal; [lia | f_equal; lia].
Qed.

Lemma bulkFetch_ok (l : list IndexedMP4Sample) (s : State) (trak : Trak) :
  l <> [] -> videoTrak s = Some trak ->
  (forall x, In x l -> JS.index (samples trak) (dtsIndex x) = Some (sample x)) ->
  exists first rest last out,
    JS.toSorted (fun a => offset (sample a)) l = first :: rest
    /\ JS.at_last (first :: rest) = Some last
    /\ let s' := Spec.after_fetch (offset (sample first))
                   (offset (sample last) + size (sample last)) s in
       bulkFetchSampleData l s = (Ok out, s')
       /\ Forall2 (Spec.fetched_from (buffers (mp4box s')))
            (JS.toSorted (fun a => dts (sample a)) l) out.
Proof.
  intros Hne Ht Hin.
  destruct (toSorted_nonempty (fun a => offset (sample a)) l Hne)
    as (first & rest & last & Hf & Ha).
  exists first, rest, last.
  rewrite (bulkFetch_unfold _ s _ _ _ Hne Hf Ha).
  rewrite Hf in Ha.
  set (s' := Spec.after_fetch _ _ s).
  destruct (mapM_ok fetchSampleData (Spec.fetched_from (buffers (mp4box s')))
              (JS.toSorted (fun a => dts (sample a)) l) s') as (out & Ho & Hr).
  { intros x Hx. apply toSorted_In in Hx.
    destruct (fetchSampleData_ok x s' trak Ht (Hin x Hx)) as (x' & H1 & H2 & H3).
    exists x'. split; [exact H1 | split; assumption]. }
  exists out. split; [exact Hf|]. split; [exact Ha|].
  split; assumption.
Qed.

Lemma Forall2_In_r {A B} (R : A -> B -> Prop) (l : list A) (l' : list B) (y : B) :
  Forall2 R l l' -> In y l' -> exists x, In x l /\ R x y.
Proof.
  induction 1 as [|a b l l' Hab Hl IH]; intros Hy; [contradiction|].
  destruct Hy as [<- | Hy].
  - exists a. split; [now left | exact Hab].
  - destruct (IH Hy) as (x & Hx & Hr). exists x. split; [now right | exact Hr].
Qed.

Lemma Forall2_impl {A B} (R R' : A -> B -> Prop) (l : list A) (l' : list B) :
  (forall x y, R x y -> R' x y) -> Forall2 R l l' -> Forall2 R' l l'.
Proof. intros H. induction 1; constructor; auto. Qed.

(** Sortedness carries over to a list related element by element. *)
Lemma sorted_transfer {A B} (R : A -> A -> Prop) (R' : B -> B -> Prop)
    (T : A -> B -> Prop) (l : list A) (l' : list B) :
  (forall a b a' b', In a l -> In b l -> T a a' -> T b b' -> R a b -> R' a' b') ->
  Forall2 T l l' -> StronglySorted R l -> StronglySorted R' l'.
Proof.
  intros H HT. induction HT as [|a a' l l' Ha HT IH]; intros Hs; [constructor|].
  inversion Hs as [|? ? Hs' Hall]; subst. constructor.
  - apply IH; [|exact Hs'].
    intros x y x' y' Hx Hy. apply H; now right.
  - rewrite Forall_forall in *. intros b' Hb'.
    destruct (Forall2_In_r _ _ _ _ HT Hb') as (b & Hb & Tb).
    apply (H a b a' b'); [now left | now right | exact Ha | exact Tb | now apply Hall].
Qed.

(** C6, amended.  An empty input gives an empty result and leaves the
    state, read log included, untouched.  A non-empty input of samples of
    the demuxer's track causes exactly one read, of the range from the
    smallest offset to the end of the sample with the largest offset, and
    the result is the input stably re-sorted by decode timestamp [dts], each
    sample with its indices unchanged.  That is [dtsIndex] order whenever
    [dts] strictly increases with [dtsIndex].  Every payload is populated
    with the sample's bytes of the file when the read range lies in the
    file and covers every sample. *)
Theorem bulk_fetch_reads_once_in_dts_order
    (l : list IndexedMP4Sample) (s : State) :
  (l = [] -> bulkFetchSampleData l s = (Ok [], s))
  /\ forall trak,
     l <> [] -> videoTrak s = Some trak ->
     (forall x, In x l -> JS.index (samples trak) (dtsIndex x) = Some (sample x)) ->
     exists first rest last out,
       JS.toSorted (fun a => offset (sample a)) l = first :: rest
       /\ JS.at_last (first :: rest) = Some last
       /\ let start := offset (sample first) in
          let stop := offset (sample last) + size (sample last) in
          bulkFetchSampleData l s = (Ok out, Spec.after_fetch start stop s)
          /\ reads (Spec.after_fetch start stop s) = reads s ++ [(start, stop)]
          /\ Forall2 Spec.fetched_of (JS.toSorted (fun a => dts (sample a)) l) out
          /\ StronglySorted Spec.by_dts out
          /\ (Spec.dts_follows_dtsIndex l -> StronglySorted Spec.by_dtsIndex out)
          /\ (buffers (mp4box s) = [] -> stop <= JS.length (file s) ->
              (forall x, In x l ->
                 0 <= offset (sample x) /\ 0 <= size (sample x)
                 /\ offset (sample x) + size (sample x) <= stop) ->
              forall x', In x' out ->
                data (sample x')
                = Some (JS.slice (file s) (offset (sample x'))
                          (offset (sample x') + size (sample x')))).
Proof.
  split; [intros ->; reflexivity|].
  intros trak Hne Ht Hin.
  destruct (bulkFetch_ok l s trak Hne Ht Hin)
    as (first & rest & last & out & Hf & Ha & Hb & Hr).
  exists first, rest, last, out. split; [exact Hf|]. split; [exact Ha|].
  cbv zeta in *. split; [exact Hb|]. split; [reflexivity|].
  assert (Hr' : Forall2 Spec.fetched_of (JS.toSorted (fun a => dts (sample a)) l) out).
  { eapply Forall2_impl; [|exact Hr]. now intros x y [H _]. }
  pose proof (toSorted_sorted (fun a => dts (sample a)) l) as Hsorted.
  split; [exact Hr'|]. split; [|split].
  - eapply sorted_transfer; [|exact Hr'|exact Hsorted].
    intros a b a' b' _ _ (_ & _ & da & Ea) (_ & _ & db & Eb) Hab.
    unfold Spec.by_dts. rewrite Ea, Eb. exact Hab.
  - intros Hmono. eapply sorted_transfer; [|exact Hr'|exact Hsorted].
    intros a b a' b' Hina Hinb (_ & Ea & _) (_ & Eb & _) Hab.
    unfold Spec.by_dtsIndex. rewrite Ea, Eb.
    apply toSorted_In in Hina, Hinb.
    destruct (Z.le_gt_cases (dtsIndex a) (dtsIndex b)) as [Hle | Hgt]; [exact Hle|].
    specialize (Hmono b a Hinb Hina ltac:(lia)). cbv beta in Hab. lia.
  - intros Hbuf Hstop Hrange x' Hx'.
    destruct (Forall2_In_r _ _ _ _ Hr Hx') as (x & Hx & _ & Hs).
    apply toSorted_In in Hx.
    assert (Hfirst : In first l)
      by (apply (toSorted_In (fun a => offset (sample a))); rewrite Hf; now left).
    assert (Hle : offset (sample first) <= offset (sample x)).
    { pose proof (toSorted_sorted (fun a => offset (sample a)) l) as Hso.
      rewrite Hf in Hso. inversion Hso as [|? ? _ Hall]; subst.
      assert (Hx2 : In x (first :: rest))
        by (rewrite <- Hf; now apply toSorted_In).
      destruct Hx2 as [<- | Hx2]; [lia|].
      rewrite Forall_forall in Hall. now apply Hall. }
    destruct (Hrange _ Hfirst) as (Hf0 & Hf1 & Hf2).
    destruct (Hrange _ Hx) as (Hx0 & Hx1 & Hx2).
    cbn in Hs. rewrite Hbuf in Hs. cbn in Hs.
    rewrite slice_length in Hs by lia.
    replace (offset (sample first) <=? offset (sample x)) with true in Hs
      by (symmetry; apply Z.leb_le; exact Hle).
    replace (offset (sample x) + size (sample x) <=?
             offset (sample first)
             + (offset (sample last) + size (sample last) - offset (sample first)))
      with true in Hs by (symmetry; apply Z.leb_le; lia).
    cbn in Hs. rewrite slice_of_slice in Hs by lia.
    rewrite Hs. reflexivity.
Qed.

End BulkFetch.

(** ** The seek window *)
Section SeekWindow.
Import Demux.

Lemma indexed_after_clean (s : State) :
  Spec.indexed s -> Spec.indexed (set_buffers [] s).
Proof. intros (trak & H1 & H2 & H3). now exists trak. Qed.

(** On an indexed demuxer, a bulk fetch of samples taken from the index
    succeeds and returns them stably sorted by [dts]. *)
Lemma bulkFetch_window (l : list IndexedMP4Sample) (s s' : State)
    (out : list IndexedMP4Sample) :
  Spec.indexed s -> (forall x, In x l -> In x (videoSamples s)) ->
  bulkFetchSampleData l s = (Ok out, s') ->
  Forall2 Spec.fetched_of (JS.toSorted (fun a => dts (sample a)) l) out.
Proof.
  intros (trak & Ht & Hs & Hw) Hin Hb.
  destruct l as [|x l].
  { rewrite bulkFetch_nil in Hb. inversion Hb; subst. constructor. }
  destruct (bulkFetch_ok (x :: l) s trak ltac:(discriminate) Ht)
    as (first & rest & last & out' & _ & _ & Hb' & Hr).
  { intros y Hy. apply indexSamples_decode_order; [exact Hw|].
    rewrite <- Hs. now apply Hin. }
  cbv zeta in Hb'. rewrite Hb' in Hb. inversion Hb; subst.
  eapply Forall2_impl; [|exact Hr]. now intros a b [H _].
Qed.

Lemma nth_error_index {A} (l : list A) (z : Z) (x : A) :
  JS.index l z = Some x -> 0 <= z < JS.length l /\ nth_error l (Z.to_nat z) = Some x.
Proof.
  intros H. apply index_Some in H. destruct H as (i & -> & Hi & Hlen).
  unfold JS.length. rewrite Nat2Z.id. split; [lia | exact Hi].
Qed.

(** The slice fetched for a target that is not a keyframe starts with the
    keyframe found before it. *)
Lemma gop_window_head (s : State) (frame lastKeyframe : IndexedMP4Sample) :
  Spec.indexed s ->
  JS.index (videoSamples s) (ptsIndex frame) = Some frame ->
  JS.findLast is_key (JS.slice (videoSamples s) 0 (ptsIndex frame))
    = Some lastKeyframe ->
  is_key lastKeyframe = true
  /\ ptsIndex lastKeyframe < ptsIndex frame
  /\ exists rest,
       Spec.gop_window (videoSamples s) frame lastKeyframe = lastKeyframe :: rest.
Proof.
  intros Hi Hf Hl.
  apply nth_error_index in Hf. destruct Hf as [Hp Hf].
  apply findLast_some in Hl. destruct Hl as [Hin Hk].
  rewrite slice_inside in Hin by lia. simpl in Hin.
  apply firstn_In_nth in Hin. destruct Hin as (k & Hkp & Hnk).
  pose proof (indexed_nth s k lastKeyframe Hi Hnk) as Hpk.
  split; [exact Hk|]. split; [lia|].
  unfold Spec.gop_window. cbv zeta. rewrite Hpk.
  apply slice_head; [exact Hnk | lia | lia].
Qed.

(** C2, amended.  After a successful [seek], if the target frame is itself
    a keyframe the returned window is the slice of 20 positions that starts
    10 before the target (clamped), re-sorted by [dts]; its first sample
    need not be a keyframe.  If the target is not a keyframe, the window is
    the re-sorted slice that starts, in presentation order, at a keyframe
    preceding the target; its first sample is that keyframe whenever no
    other sample of the slice has a smaller [dts]. *)
Theorem seek_window_starts_at_preceding_keyframe
    (s s' : State) (t : Q) (r : SeekReturn) (frame : IndexedMP4Sample) :
  Spec.indexed s ->
  seek t s = (Ok r, s') ->
  JS.index (videoSamples s) (r_ptsIndex r) = Some frame ->
  (is_key frame = true ->
   Forall2 Spec.fetched_of
     (JS.toSorted (fun a => dts (sample a))
        (Spec.keyframe_window (videoSamples s) (r_ptsIndex r)))
     (r_samples r))
  /\ (is_key frame = false ->
      exists lastKeyframe rest,
        is_key lastKeyframe = true
        /\ ptsIndex lastKeyframe < r_ptsIndex r
        /\ Spec.gop_window (videoSamples s) frame lastKeyframe
           = lastKeyframe :: rest
        /\ Forall2 Spec.fetched_of
             (JS.toSorted (fun a => dts (sample a)) (lastKeyframe :: rest))
             (r_samples r)
        /\ (Forall (fun x => dts (sample lastKeyframe) <= dts (sample x)) rest ->
            exists w ws, r_samples r = w :: ws
              /\ is_key w = true /\ ptsIndex w = ptsIndex lastKeyframe)).
Proof.
  intros Hi Hseek Hframe.
  pose proof (seek_ptsIndex t s s' r Hi Hseek) as Hp.
  assert (Hne : videoSamples s <> []).
  { intros Ev. rewrite seek_empty in Hseek by exact Ev. discriminate. }
  rewrite seek_nonempty in Hseek by exact Hne.
  cbv zeta in Hseek. rewrite <- Hp in Hseek.
  destruct (r_ptsIndex r =? -1) eqn:E.
  { apply Z.eqb_eq in E. rewrite E in Hframe. discriminate. }
  rewrite Hframe in Hseek.
  pose proof (indexed_index s _ _ Hi Hframe) as Hpf.
  assert (Hfetch : forall l, (forall x, In x l -> In x (videoSamples s)) ->
            bind (bulkFetchSampleData l) (Spec.answer_with frame) (set_buffers [] s)
              = (Ok r, s') ->
            Forall2 Spec.fetched_of (JS.toSorted (fun a => dts (sample a)) l)
              (r_samples r)).
  { intros l Hl Hb. apply answer_with_ptsIndex in Hb. destruct Hb as (_ & _ & Hb).
    eapply bulkFetch_window; [apply indexed_after_clean, Hi | exact Hl | exact Hb]. }
  destruct (is_key frame) eqn:Ek; split; try discriminate.
  - intros _. apply Hfetch; [|exact Hseek].
    intros x Hx. eapply slice_In, Hx.
  - intros _.
    destruct (JS.findLast is_key (JS.slice (videoSamples s) 0 (ptsIndex frame)))
      as [lastKeyframe|] eqn:El; [|discriminate].
    rewrite <- Hpf in Hframe.
    destruct (gop_window_head s frame lastKeyframe Hi Hframe El)
      as (Hk & Hlt & rest & Hw).
    exists lastKeyframe, rest. split; [exact Hk|]. split; [lia|].
    split; [exact Hw|].
    assert (HF : Forall2 Spec.fetched_of
                   (JS.toSorted (fun a => dts (sample a)) (lastKeyframe :: rest))
                   (r_samples r)).
    { rewrite <- Hw. apply Hfetch; [|exact Hseek].
      intros x Hx. eapply slice_In, Hx. }
    split; [exact HF|].
    intros Hleast.
    rewrite (toSorted_least_head (fun a => dts (sample a))) in HF by exact Hleast.
    inversion HF as [|? w ? ws (Hwp & _ & d & Hwd) _]; subst.
    exists w, ws. split; [reflexivity|]. split; [|exact Hwp].
    unfold is_key in *. rewrite Hwd. exact Hk.
Qed.

End SeekWindow.

Section SeekExamples.
Import Demux.

Lemma seek_window_starts_at_preceding_keyframe_witness :
  exists lastKeyframe rest,
    is_key lastKeyframe = true
    /\ Spec.gop_window (videoSamples Examples.parsed5) Examples.frame2 lastKeyframe
       = lastKeyframe :: rest
    /\ Forall2 Spec.fetched_of
         (JS.toSorted (fun a => dts (sample a)) (lastKeyframe :: rest))
         (r_samples (Examples.answer_of (seek 1050 Examples.parsed5))).
Proof.
  destruct (seek_window_starts_at_preceding_keyframe Examples.parsed5
              (snd (seek 1050 Examples.parsed5)) 1050
              (Examples.answer_of (seek 1050 Examples.parsed5)) Examples.frame2
              parsed5_indexed eq_refl eq_refl) as [_ H].
  destruct (H eq_refl) as (lastKeyframe & rest & Hk & _ & Hw & Hf & _).
  exists lastKeyframe, rest. repeat split; assumption.
Defined.

(** C2, as stated, fails.  In a file of thirteen frames with keyframes at
    positions 0 and 11, a seek into frame 11 succeeds with a non-empty
    window whose first sample is frame 1, a delta frame. *)
Lemma seek_window_need_not_start_at_keyframe :
  exists r s' w ws,
    seek 370 Examples.parsed13 = (Ok r, s')
    /\ r_ptsIndex r = 11
    /\ (exists frame, JS.index (videoSamples Examples.parsed13) 11 = Some frame
                      /\ is_key frame = true)
    /\ r_samples r = w :: ws
    /\ ptsIndex w = 1
    /\ is_key w = false.
Proof.
  do 4 eexists. split; [vm_compute; reflexivity|].
  split; [reflexivity|].
  split; [eexists; split; reflexivity|].
  split; [reflexivity|]. split; reflexivity.
Qed.

(** C3: the code at a failing input.  In the five-sample file, whose only
    keyframe is sample 0, a seek into sample 2 returns a window that starts
    at the keyframe and has 4 samples, fewer than min(20, 5 - 0) = 5; and a
    seek into the last sample, 4, returns the same 4 samples, without the
    target itself.  The slice ends before [endIndex], which was clamped to
    the last index. *)
Theorem seek_window_excludes_last_sample :
  JS.length (videoSamples Examples.parsed5) = 5
  /\ (exists r, fst (seek 1050 Examples.parsed5) = Ok r
        /\ r_ptsIndex r = 2
        /\ map ptsIndex (r_samples r) = [0; 1; 2; 3]
        /\ JS.length (r_samples r) < Z.min MIN_DECODER_QUEUE_SIZE (5 - 0))
  /\ (exists r, fst (seek 1120 Examples.parsed5) = Ok r
        /\ r_ptsIndex r = 4
        /\ map ptsIndex (r_samples r) = [0; 1; 2; 3]
        /\ ~ In 4 (map ptsIndex (r_samples r))).
Proof.
  split; [reflexivity|].
  split; eexists; (split; [reflexivity|]); (split; [reflexivity|]);
    (split; [reflexivity|]).
  - reflexivity.
  - simpl. intros [H|[H|[H|[H|[]]]]]; discriminate.
Qed.

(** In general the window for a target that is not a keyframe has
    [endIndex - lastKeyframe] samples: position [endIndex] is left out. *)
Lemma gop_window_length (s : State) (frame lastKeyframe : IndexedMP4Sample) :
  Spec.indexed s ->
  JS.index (videoSamples s) (ptsIndex frame) = Some frame ->
  JS.findLast is_key (JS.slice (videoSamples s) 0 (ptsIndex frame))
    = Some lastKeyframe ->
  JS.length (Spec.gop_window (videoSamples s) frame lastKeyframe)
  = Z.min (Z.max (Z.max (match JS.find is_key
                                 (JS.slice (videoSamples s) (ptsIndex frame)
                                    (JS.length (videoSamples s))) with
                         | Some n => ptsIndex n
                         | None => 0
                         end) (ptsIndex frame))
                 (ptsIndex lastKeyframe + 20))
          (JS.length (videoSamples s) - 1)
    - ptsIndex lastKeyframe.
Proof.
  intros Hi Hf Hl.
  destruct (gop_window_head s frame lastKeyframe Hi Hf Hl) as (_ & Hlt & _).
  apply nth_error_index in Hf. destruct Hf as [Hp _].
  apply findLast_some in Hl. destruct Hl as [Hin _].
  rewrite slice_inside in Hin by lia. simpl in Hin.
  apply firstn_In_nth in Hin. destruct Hin as (k & _ & Hnk).
  pose proof (indexed_nth s k lastKeyframe Hi Hnk) as Hpk.
  unfold Spec.gop_window. cbv zeta. apply slice_length; lia.
Qed.

Lemma scenario_in_track (x : IndexedMP4Sample) :
  In x Examples.scenario ->
  JS.index (samples Examples.trak_fetch) (dtsIndex x) = Some (sample x).
Proof.
  intros H. repeat (destruct H as [<- | H]; [reflexivity|]). destruct H.
Qed.

Lemma scenario_dts : Spec.dts_follows_dtsIndex Examples.scenario.
Proof.
  intros a b Ha Hb.
  repeat (destruct Ha as [<- | Ha]; [|]); try destruct Ha;
    repeat (destruct Hb as [<- | Hb]; [|]); try destruct Hb;
    simpl; lia.
Qed.

Lemma bulk_fetch_reads_once_in_dts_order_witness :
  map (fun x => offset (sample x)) Examples.scenario = [200; 0; 100]
  /\ reads (snd (bulkFetchSampleData Examples.scenario Examples.parsed_fetch)) = [(0, 250)]
  /\ exists out,
       fst (bulkFetchSampleData Examples.scenario Examples.parsed_fetch) = Ok out
       /\ StronglySorted Spec.by_dtsIndex out.
Proof.
  split; [reflexivity|]. split; [reflexivity|].
  destruct (proj2 (bulk_fetch_reads_once_in_dts_order Examples.scenario Examples.parsed_fetch)
              Examples.trak_fetch ltac:(discriminate) eq_refl scenario_in_track)
    as (first & rest & last & out & _ & _ & Hb & _ & _ & _ & Hs & _).
  exists out. split; [now rewrite Hb | exact (Hs scenario_dts)].
Defined.

(** C6, as stated, fails.  In a track whose two samples share a decode
    timestamp and are presented in reverse, [readAllSamples] and the bulk
    fetch return the samples with [dtsIndex] 1 before 0: the sort key is
    [dts], and the stable sort keeps the presentation order of the tie. *)
Lemma bulk_fetch_not_in_dtsIndex_order :
  map dtsIndex (videoSamples Examples.parsed_tie) = [1; 0]
  /\ exists out,
       fst (bulkFetchSampleData (videoSamples Examples.parsed_tie)
              Examples.parsed_tie) = Ok out
       /\ fst (readAllSamples Examples.parsed_tie) = Ok out
       /\ map dtsIndex out = [1; 0]
       /\ ~ StronglySorted Spec.by_dtsIndex out.
Proof.
  split; [reflexivity|]. eexists.
  split; [reflexivity|]. split; [reflexivity|]. split; [reflexivity|].
  intros H. inversion H as [|? ? _ Hall]; subst.
  inversion Hall as [|? ? Hle _]; subst.
  unfold Spec.by_dtsIndex in Hle. simpl in Hle. lia.
Qed.

End SeekExamples.

(** * Further properties *)

(** ** More on [seek]: when it throws, and what its window holds *)
Section SeekOutcome.
Import Demux.

Lemma firstn_seq_min (n a m : nat) : firstn n (seq a m) = seq a (Nat.min n m).
Proof.
  revert a m. induction n as [|n IH]; intros a [|m]; simpl; try reflexivity.
  now rewrite IH.
Qed.

Lemma range_In (a b x : Z) : 0 <= a -> In x (View.range a b) -> a <= x < b.
Proof.
  intros Ha H. unfold View.range in H. apply in_map_iff in H.
  destruct H as (k & <- & Hk). apply in_seq in Hk. lia.
Qed.

Lemma map_slice {A B} (f : A -> B) (l : list A) (a b : Z) :
  map f (JS.slice l a b) = JS.slice (map f l) a b.
Proof.
  unfold JS.slice, JS.length. now rewrite length_map, skipn_map, firstn_map.
Qed.

Lemma slice_zseq (n : nat) (a b : Z) :
  0 <= a -> a <= b -> b <= Z.of_nat n ->
  JS.slice (Spec.zseq n) a b = View.range a b.
Proof.
  intros Ha Hab Hb. rewrite slice_inside; [|lia|].
  2:{ unfold JS.length, Spec.zseq. rewrite length_map, length_seq. lia. }
  unfold Spec.zseq, View.range.
  rewrite skipn_map, firstn_map, skipn_seq, firstn_seq_min. simpl.
  f_equal. f_equal. lia.
Qed.

(** On an indexed demuxer a slice of the index holds the samples of
    consecutive presentation positions. *)
Lemma slice_positions (s : State) (a b : Z) :
  Spec.indexed s -> 0 <= a -> a <= b -> b <= JS.length (videoSamples s) ->
  map ptsIndex (JS.slice (videoSamples s) a b) = View.range a b.
Proof.
  intros (trak & _ & Hs & _) Ha Hab Hb. rewrite map_slice, Hs, indexSamples_ptsIndex.
  apply slice_zseq; try assumption.
  rewrite Hs in Hb. unfold JS.length in Hb. now rewrite indexSamples_length in Hb.
Qed.

Lemma Forall2_fetched_ptsIndex (l out : list IndexedMP4Sample) :
  Forall2 Spec.fetched_of l out -> map ptsIndex out = map ptsIndex l.
Proof.
  induction 1 as [|x y l out (Hp & _) _ IH]; [reflexivity|].
  simpl. now rewrite Hp, IH.
Qed.

Lemma Forall2_fetched_dtsIndex (l out : list IndexedMP4Sample) :
  Forall2 Spec.fetched_of l out -> map dtsIndex out = map dtsIndex l.
Proof.
  induction 1 as [|x y l out (_ & Hd & _) _ IH]; [reflexivity|].
  simpl. now rewrite Hd, IH.
Qed.

(** On an indexed demuxer a bulk fetch of indexed samples always succeeds. *)
Lemma bulkFetch_total (l : list IndexedMP4Sample) (s : State) :
  Spec.indexed s -> (forall x, In x l -> In x (videoSamples s)) ->
  exists out s',
    bulkFetchSampleData l s = (Ok out, s')
    /\ Forall2 Spec.fetched_of (JS.toSorted (fun a => dts (sample a)) l) out
    /\ Spec.same_index s s'
    /\ (l = [] -> reads s' = reads s)
    /\ (l <> [] -> exists rd, reads s' = reads s ++ [rd]).
Proof.
  intros (trak & Ht & Hs & Hw) Hin.
  destruct l as [|x l].
  { exists [], s. split; [reflexivity|]. split; [constructor|].
    split; [apply same_index_refl|]. split; [reflexivity | intros H; now elim H]. }
  destruct (bulkFetch_ok (x :: l) s trak ltac:(discriminate) Ht)
    as (first & rest & last & out & _ & _ & Hb & Hr).
  { intros y Hy. apply indexSamples_decode_order; [exact Hw|].
    rewrite <- Hs. now apply Hin. }
  cbv zeta in Hb. eexists out, _. split; [exact Hb|].
  split; [eapply Forall2_impl; [|exact Hr]; now intros a b [H _]|].
  split; [repeat split|]. split; [discriminate|].
  intros _. eexists. reflexivity.
Qed.

Lemma lookup_found (t : Q) (s : State) :
  Spec.indexed s -> timestampMsToPtsIndex t s <> -1 ->
  exists frame,
    JS.index (videoSamples s) (timestampMsToPtsIndex t s) = Some frame
    /\ ptsIndex frame = timestampMsToPtsIndex t s
    /\ covers (firstFramePtsOffsetMs s) t (sample frame) = true.
Proof.
  intros Hi Hp.
  destruct (covers_dec (firstFramePtsOffsetMs s) t (videoSamples s)) as [Hex | Hnone].
  - destruct (scan_samples_found _ _ _ Hex) as (k & x & Hk & Hc & Hsc & _).
    pose proof (indexed_nth s k x Hi Hk) as Hpk.
    exists x. unfold timestampMsToPtsIndex. rewrite Hsc, Hpk, index_nth.
    repeat split; assumption.
  - exfalso. apply Hp. now apply scan_samples_none.
Qed.

Lemma find_all_false {A} (p : A -> bool) (l : list A) :
  (forall x, In x l -> p x = false) -> List.find p l = None.
Proof.
  induction l as [|y l IH]; intros H; [reflexivity|].
  simpl. rewrite (H y (or_introl eq_refl)). apply IH. intros x Hx. apply H. now right.
Qed.

(** [findLast] answers with the last element that passes the test. *)
Lemma findLast_position {A} (p : A -> bool) (l : list A) (x : A) :
  JS.findLast p l = Some x ->
  exists k, nth_error l k = Some x /\ p x = true
    /\ forall j y, (k < j)%nat -> nth_error l j = Some y -> p y = false.
Proof.
  unfold JS.findLast. induction l as [|z l IH] using rev_ind; [discriminate|].
  rewrite rev_app_distr. simpl. destruct (p z) eqn:E.
  - intros H; inversion H; subst. exists (List.length l).
    rewrite nth_error_app2, Nat.sub_diag by lia. repeat split; [exact E|].
    intros j y Hj Hy. rewrite nth_error_app2 in Hy by lia.
    destruct (j - List.length l)%nat as [|[|n]] eqn:En; try lia; discriminate.
  - intros H. destruct (IH H) as (k & Hk & Hp & Hlast).
    assert (Hlen : (k < List.length l)%nat) by (apply nth_error_Some; now rewrite Hk).
    exists k. rewrite nth_error_app1 by exact Hlen. repeat split; try assumption.
    intros j y Hj Hy.
    destruct (Nat.lt_ge_cases j (List.length l)) as [Hjl | Hjl].
    + rewrite nth_error_app1 in Hy by exact Hjl. eapply Hlast; eassumption.
    + rewrite nth_error_app2 in Hy by exact Hjl.
      destruct (j - List.length l)%nat as [|[|n]]; try discriminate.
      inversion Hy; subst. exact E.
Qed.

Lemma findLast_none {A} (p : A -> bool) (l : list A) :
  JS.findLast p l = None <-> forall x, In x l -> p x = false.
Proof.
  unfold JS.findLast. split.
  - intros H x Hx. eapply find_none; [exact H | now apply in_rev in Hx].
  - intros H. apply find_all_false. intros x Hx. apply H. now apply in_rev.
Qed.

Lemma prefix_nth {A} (l : list A) (p : Z) (j : nat) :
  0 <= p <= JS.length l -> (j < Z.to_nat p)%nat ->
  nth_error (JS.slice l 0 p) j = nth_error l j.
Proof.
  intros Hp Hj. rewrite slice_inside by lia. simpl.
  rewrite Z.sub_0_r, nth_error_firstn.
  now replace (j <? Z.to_nat p)%nat with true by (symmetry; now apply Nat.ltb_lt).
Qed.

Lemma prefix_length {A} (l : list A) (p : Z) :
  0 <= p <= JS.length l -> List.length (JS.slice l 0 p) = Z.to_nat p.
Proof.
  intros Hp. pose proof (slice_length l 0 p ltac:(lia) ltac:(lia)) as H.
  unfold JS.length in H. lia.
Qed.

(** The complete behaviour of [seek] on an indexed demuxer with samples. *)
Lemma seek_outcome (t : Q) (s : State) :
  Spec.indexed s -> videoSamples s <> [] ->
  let vs := videoSamples s in
  let p := timestampMsToPtsIndex t s in
  (p = -1 /\ seek t s = (Ok Spec.NOT_FOUND, set_buffers [] s))
  \/ exists frame,
       JS.index vs p = Some frame /\ ptsIndex frame = p /\ 0 <= p < JS.length vs
       /\ ((is_key frame = true
            /\ exists out s',
                 seek t s = (Ok {| r_ptsIndex := p; r_dtsIndex := dtsIndex frame;
                                   r_samples := out |}, s')
                 /\ Forall2 Spec.fetched_of
                      (JS.toSorted (fun a => dts (sample a))
                         (JS.slice vs (View.key_start p) (View.key_end vs p))) out
                 /\ Spec.same_index s s')
           \/ (is_key frame = false
               /\ JS.findLast is_key (JS.slice vs 0 p) = None
               /\ seek t s = (Throw NO_KEYFRAME, set_buffers [] s))
           \/ (is_key frame = false
               /\ exists lastKeyframe out s',
                    JS.findLast is_key (JS.slice vs 0 p) = Some lastKeyframe
                    /\ seek t s = (Ok {| r_ptsIndex := p; r_dtsIndex := dtsIndex frame;
                                         r_samples := out |}, s')
                    /\ Forall2 Spec.fetched_of
                         (JS.toSorted (fun a => dts (sample a))
                            (JS.slice vs (ptsIndex lastKeyframe)
                               (View.gop_end vs frame lastKeyframe))) out
                    /\ Spec.same_index s s')).
Proof.
  intros Hi Hne vs p.
  rewrite seek_nonempty by exact Hne. cbv zeta. fold p. fold vs.
  destruct (p =? -1) eqn:E.
  { left. apply Z.eqb_eq in E. split; [exact E | reflexivity]. }
  right. apply Z.eqb_neq in E.
  destruct (lookup_found t s Hi E) as (frame & Hf & Hpf & _).
  fold p in Hf, Hpf. fold vs in Hf. exists frame.
  pose proof (nth_error_index _ _ _ Hf) as [Hrange _].
  split; [exact Hf|]. split; [exact Hpf|]. split; [exact Hrange|].
  rewrite Hf.
  assert (Hfetch : forall l, (forall x, In x l -> In x vs) ->
            exists out s',
              bind (bulkFetchSampleData l) (Spec.answer_with frame) (set_buffers [] s)
              = (Ok {| r_ptsIndex := p; r_dtsIndex := dtsIndex frame;
                       r_samples := out |}, s')
              /\ Forall2 Spec.fetched_of (JS.toSorted (fun a => dts (sample a)) l) out
              /\ Spec.same_index s s').
  { intros l Hl.
    destruct (bulkFetch_total l (set_buffers [] s) (indexed_after_clean s Hi) Hl)
      as (out & s' & Hb & Hr & Hsame & _).
    exists out, s'. rewrite (bind_Ok _ _ _ _ _ Hb).
    unfold Spec.answer_with, ret. rewrite Hpf.
    split; [reflexivity|]. split; [exact Hr|].
    eapply same_index_trans; [|exact Hsame]. repeat split. }
  destruct (is_key frame) eqn:Ek.
  - left. split; [reflexivity|].
    apply (Hfetch (Spec.keyframe_window vs p)).
    intros x Hx. eapply slice_In, Hx.
  - right. rewrite Hpf.
    destruct (JS.findLast is_key (JS.slice vs 0 p)) as [lastKeyframe|] eqn:El.
    + right. split; [reflexivity|].
      destruct (Hfetch (Spec.gop_window vs frame lastKeyframe)) as (out & s' & H1 & H2 & H3).
      { intros x Hx. eapply slice_In, Hx. }
      exists lastKeyframe, out, s'.
      split; [reflexivity|]. split; [exact H1|]. split; [exact H2 | exact H3].
    + left. repeat split.
Qed.

End SeekOutcome.

Section SeekProperties.
Import Demux.

Lemma prefix_member (s : State) (p j : Z) (y : IndexedMP4Sample) :
  0 <= p <= JS.length (videoSamples s) -> 0 <= j < p ->
  JS.index (videoSamples s) j = Some y ->
  In y (JS.slice (videoSamples s) 0 p).
Proof.
  intros Hp Hj Hy. apply nth_error_index in Hy. destruct Hy as [_ Hy].
  apply (nth_error_In _ (Z.to_nat j)). rewrite prefix_nth by lia. exact Hy.
Qed.

Lemma prefix_found (s : State) (p : Z) (x : IndexedMP4Sample) :
  Spec.indexed s -> 0 <= p <= JS.length (videoSamples s) ->
  JS.findLast is_key (JS.slice (videoSamples s) 0 p) = Some x ->
  JS.index (videoSamples s) (ptsIndex x) = Some x
  /\ is_key x = true /\ 0 <= ptsIndex x < p
  /\ forall j y, ptsIndex x < j < p -> JS.index (videoSamples s) j = Some y ->
       is_key y = false.
Proof.
  intros Hi Hp Hx. apply findLast_position in Hx.
  destruct Hx as (k & Hk & Hkey & Hlast).
  assert (Hkp : (k < Z.to_nat p)%nat).
  { rewrite <- (prefix_length (videoSamples s) p Hp). apply nth_error_Some.
    now rewrite Hk. }
  rewrite prefix_nth in Hk by (try exact Hp; exact Hkp).
  pose proof (indexed_nth s k x Hi Hk) as Hpk.
  rewrite Hpk, index_nth. split; [exact Hk|]. split; [exact Hkey|]. split; [lia|].
  intros j y Hj Hy. apply nth_error_index in Hy. destruct Hy as [_ Hy].
  apply (Hlast (Z.to_nat j)); [lia|]. rewrite prefix_nth by lia. exact Hy.
Qed.

(** X15. On an indexed demuxer with samples, [seek] throws exactly when the
    sample found for the timestamp is not a keyframe and no keyframe comes
    before it in presentation order; the error is then the missing-keyframe
    one.  When the first sample in presentation order is a keyframe, [seek]
    never throws. *)
Theorem seek_throws_only_without_keyframe (s : State) (t : Q) :
  Spec.indexed s -> videoSamples s <> [] ->
  let vs := videoSamples s in
  let p := timestampMsToPtsIndex t s in
  ((exists e, fst (seek t s) = Throw e) <->
   (exists frame, JS.index vs p = Some frame /\ is_key frame = false
      /\ forall j y, 0 <= j < p -> JS.index vs j = Some y -> is_key y = false))
  /\ (forall e, fst (seek t s) = Throw e -> e = NO_KEYFRAME)
  /\ ((exists first, JS.index vs 0 = Some first /\ is_key first = true) ->
      exists r, fst (seek t s) = Ok r).
Proof.
  intros Hi Hne vs p. subst vs p.
  assert (Hiff : (exists e, fst (seek t s) = Throw e) <->
    (exists frame, JS.index (videoSamples s) (timestampMsToPtsIndex t s) = Some frame /\ is_key frame = false
       /\ forall j y, 0 <= j < (timestampMsToPtsIndex t s) -> JS.index (videoSamples s) j = Some y -> is_key y = false)).
  { destruct (seek_outcome t s Hi Hne) as [[Hp Hs] | (frame & Hf & Hpf & Hr & Hcases)].
    - rewrite Hs. split; [intros [e He]; discriminate|].
      intros (frame & Hf & _). rewrite Hp in Hf. discriminate.
    - destruct Hcases as [(Hk & out & s' & Hs & _) | [(Hk & Hnone & Hs)
                         | (Hk & lk & out & s' & Hl & Hs & _)]]; rewrite Hs.
      + split; [intros [e He]; discriminate|].
        intros (frame' & Hf' & Hk' & _). congruence.
      + split; [|intros _; eexists; reflexivity].
        intros _. exists frame. split; [exact Hf|]. split; [exact Hk|].
        intros j y Hj Hy. rewrite findLast_none in Hnone. apply Hnone.
        apply prefix_member with (j := j); [lia | exact Hj | exact Hy].
      + split; [intros [e He]; discriminate|].
        intros (_ & _ & _ & Hall).
        destruct (prefix_found s (timestampMsToPtsIndex t s) lk Hi ltac:(lia) Hl) as (Hix & Hkey & Hrange & _).
        rewrite (Hall _ _ Hrange Hix) in Hkey. discriminate. }
  split; [exact Hiff|]. split.
  - intros e He.
    destruct (seek_outcome t s Hi Hne) as [[Hp Hs] | (frame & Hf & Hpf & Hr & Hcases)].
    + rewrite Hs in He. discriminate.
    + destruct Hcases as [(Hk & out & s' & Hs & _) | [(Hk & Hnone & Hs)
                         | (Hk & lk & out & s' & Hl & Hs & _)]];
        rewrite Hs in He; try discriminate.
      now inversion He.
  - intros (first & H0 & Hk0).
    destruct (fst (seek t s)) as [r|e] eqn:E; [now exists r|].
    destruct (proj1 Hiff (ex_intro _ e eq_refl)) as (frame & Hf & Hk & Hall).
    destruct (Z.eq_dec (timestampMsToPtsIndex t s) 0) as [Hp0 | Hp0].
    + rewrite Hp0 in Hf. congruence.
    + apply nth_error_index in Hf. destruct Hf as [Hr _].
      rewrite (Hall 0 first ltac:(lia) H0) in Hk0. discriminate.
Qed.

Lemma seek_throws_only_without_keyframe_witness :
  exists r, fst (seek 1050 Examples.parsed5) = Ok r.
Proof.
  destruct (seek_throws_only_without_keyframe Examples.parsed5 1050
              parsed5_indexed ltac:(discriminate)) as (_ & _ & H).
  apply H. eexists. split; reflexivity.
Defined.

(** X16. The window of a successful [seek] that found its target holds the
    samples of a run of consecutive presentation positions [a, b), each
    exactly once.  For a keyframe target the run is [max(0, p - 10),
    min(start + 20, length - 1)); otherwise it starts at the nearest keyframe
    before the target and ends before [endIndex].  In both cases [b] is at
    most the last index, so the last sample of the file is never part of a
    window. *)
Theorem seek_window_is_contiguous
    (s s' : State) (t : Q) (r : SeekReturn) :
  Spec.indexed s -> seek t s = (Ok r, s') -> r_ptsIndex r <> -1 ->
  let vs := videoSamples s in
  exists frame a b,
    JS.index vs (r_ptsIndex r) = Some frame
    /\ 0 <= a <= r_ptsIndex r /\ a <= b /\ b <= JS.length vs - 1
    /\ Permutation (map ptsIndex (r_samples r)) (View.range a b)
    /\ (is_key frame = true ->
        a = View.key_start (r_ptsIndex r) /\ b = View.key_end vs (r_ptsIndex r))
    /\ (is_key frame = false ->
        exists lastKeyframe,
          JS.index vs a = Some lastKeyframe /\ is_key lastKeyframe = true
          /\ a < r_ptsIndex r
          /\ (forall j y, a < j < r_ptsIndex r -> JS.index vs j = Some y ->
                is_key y = false)
          /\ b = View.gop_end vs frame lastKeyframe)
    /\ ~ In (JS.length vs - 1) (map ptsIndex (r_samples r)).
Proof.
  intros Hi Hseek Hfound vs. subst vs.
  assert (Hne : videoSamples s <> []).
  { intros Ev. rewrite seek_empty in Hseek by exact Ev. discriminate. }
  assert (Hwin : forall a b out,
            0 <= a -> a <= b -> b <= JS.length (videoSamples s) ->
            Forall2 Spec.fetched_of
              (JS.toSorted (fun x => dts (sample x)) (JS.slice (videoSamples s) a b)) out ->
            Permutation (map ptsIndex out) (View.range a b)).
  { intros a b out Ha Hab Hb HF.
    rewrite (Forall2_fetched_ptsIndex _ _ HF), <- (slice_positions s a b Hi Ha Hab Hb).
    apply Permutation_map, toSorted_perm. }
  assert (Hlast : forall a b l, 0 <= a -> b <= JS.length (videoSamples s) - 1 ->
            Permutation l (View.range a b) -> ~ In (JS.length (videoSamples s) - 1) l).
  { intros a b l Ha Hb Hperm Hin.
    apply (Permutation_in _ Hperm), (range_In a b _ Ha) in Hin. lia. }
  destruct (seek_outcome t s Hi Hne) as [[Hp Hs] | (frame & Hf & Hpf & Hr & Hcases)].
  { rewrite Hs in Hseek. inversion Hseek; subst. now elim Hfound. }
  destruct Hcases as [(Hk & out & s1 & Hs & HF & _) | [(Hk & Hnone & Hs)
                     | (Hk & lk & out & s1 & Hl & Hs & HF & _)]];
    rewrite Hs in Hseek; inversion Hseek; subst; clear Hseek; cbn [r_ptsIndex r_samples] in *.
  - set (p := timestampMsToPtsIndex t s) in *.
    assert (Ha : 0 <= View.key_start p <= p) by (unfold View.key_start; lia).
    assert (Hb : View.key_start p <= View.key_end (videoSamples s) p <= JS.length (videoSamples s) - 1)
      by (unfold View.key_end, View.key_start, MIN_DECODER_QUEUE_SIZE; lia).
    pose proof (Hwin _ _ _ (proj1 Ha) (proj1 Hb) ltac:(lia) HF) as Hperm.
    exists frame, (View.key_start p), (View.key_end (videoSamples s) p).
    split; [exact Hf|]. split; [exact Ha|]. split; [apply Hb|]. split; [apply Hb|].
    split; [exact Hperm|]. split; [intros _; split; reflexivity|].
    split; [intros H; congruence|].
    eapply Hlast; [apply Ha | apply Hb | exact Hperm].
  - set (p := timestampMsToPtsIndex t s) in *.
    destruct (prefix_found s p lk Hi ltac:(lia) Hl) as (Hix & Hkey & Hrange & Hnear).
    assert (Hb : ptsIndex lk <= View.gop_end (videoSamples s) frame lk <= JS.length (videoSamples s) - 1)
      by (unfold View.gop_end, MIN_DECODER_QUEUE_SIZE; rewrite Hpf; lia).
    pose proof (Hwin _ _ _ (proj1 Hrange) (proj1 Hb) ltac:(lia) HF) as Hperm.
    exists frame, (ptsIndex lk), (View.gop_end (videoSamples s) frame lk).
    split; [exact Hf|]. split; [lia|]. split; [apply Hb|]. split; [apply Hb|].
    split; [exact Hperm|]. split; [intros H; congruence|].
    split.
    + intros _. exists lk. split; [exact Hix|]. split; [exact Hkey|].
      split; [lia|]. split; [exact Hnear | reflexivity].
    + eapply Hlast; [apply Hrange | apply Hb | exact Hperm].
Qed.

Lemma seek_window_is_contiguous_witness :
  exists a b,
    Permutation (map ptsIndex (r_samples (Examples.answer_of (seek 1050 Examples.parsed5))))
                (View.range a b)
    /\ b <= JS.length (videoSamples Examples.parsed5) - 1.
Proof.
  destruct (seek_window_is_contiguous Examples.parsed5
              (snd (seek 1050 Examples.parsed5)) 1050
              (Examples.answer_of (seek 1050 Examples.parsed5))
              parsed5_indexed eq_refl ltac:(discriminate))
    as (frame & a & b & _ & _ & _ & Hb & Hperm & _).
  exists a, b. split; assumption.
Defined.

End SeekProperties.

Section IndexLookups.
Import Demux.

Lemma indexed_dtsIndex_perm (s : State) :
  Spec.indexed s ->
  Permutation (map dtsIndex (videoSamples s))
              (Spec.zseq (List.length (videoSamples s))).
Proof.
  intros (trak & _ & Hs & Hw). rewrite Hs, indexSamples_length.
  now apply indexSamples_dtsIndex.
Qed.


(** X20. On an indexed demuxer [dtsIndexToPtsIndex] answers [-1] exactly for
    the arguments outside [0, count); inside, its answer is a presentation
    position in [0, count) whose sample has that [dtsIndex]. *)
Theorem dtsIndexToPtsIndex_range (s : State) (d : Z) :
  Spec.indexed s ->
  let count := JS.length (videoSamples s) in
  (dtsIndexToPtsIndex d s = -1 <-> ~ (0 <= d < count))
  /\ (0 <= d < count ->
      exists x, JS.index (videoSamples s) (dtsIndexToPtsIndex d s) = Some x
                /\ dtsIndex x = d /\ 0 <= dtsIndexToPtsIndex d s < count).
Proof.
  intros Hi count.
  pose proof (indexed_dtsIndex_perm s Hi) as Hperm.
  assert (Hin : 0 <= d < count <-> In d (map dtsIndex (videoSamples s))).
  { split; intros H.
    - eapply Permutation_in; [symmetry; exact Hperm | now apply zseq_In].
    - apply (Permutation_in _ Hperm), zseq_In in H. exact H. }
  unfold dtsIndexToPtsIndex, JS.find.
  destruct (List.find (fun y => dtsIndex y =? d) (videoSamples s)) as [b|] eqn:Eb.
  - apply find_some in Eb. destruct Eb as [Hb Hbd]. apply Z.eqb_eq in Hbd.
    destruct (In_nth_error _ _ Hb) as (k & Hk).
    pose proof (indexed_nth s k b Hi Hk) as Hpk.
    assert (Hkl : (k < List.length (videoSamples s))%nat)
      by (apply nth_error_Some; now rewrite Hk).
    assert (Hd : 0 <= d < count) by (apply Hin; rewrite <- Hbd; now apply in_map).
    split.
    + split; [intros H; lia | intros H; contradiction].
    + intros _. exists b. rewrite Hpk, index_nth. unfold count, JS.length.
      split; [exact Hk|]. split; [exact Hbd | lia].
  - split.
    + split; [|reflexivity]. intros _ Hd. apply Hin, in_map_iff in Hd.
      destruct Hd as (x & Hx & Hxin).
      eapply find_none in Eb; [|exact Hxin]. cbv beta in Eb.
      apply Z.eqb_neq in Eb. contradiction.
    + intros Hd. apply Hin, in_map_iff in Hd. destruct Hd as (x & Hx & Hxin).
      eapply find_none in Eb; [|exact Hxin]. cbv beta in Eb.
      apply Z.eqb_neq in Eb. contradiction.
Qed.

Lemma dtsIndexToPtsIndex_range_witness :
  dtsIndexToPtsIndex 5 Examples.parsed5 = -1
  /\ dtsIndexToPtsIndex (-1) Examples.parsed5 = -1.
Proof.
  destruct (dtsIndexToPtsIndex_range Examples.parsed5 5 parsed5_indexed) as [[_ H1] _].
  destruct (dtsIndexToPtsIndex_range Examples.parsed5 (-1) parsed5_indexed) as [[_ H2] _].
  split; [apply H1 | apply H2]; simpl; unfold JS.length; simpl; lia.
Defined.



End IndexLookups.

Section CallsCompose.
Import Demux.

Lemma bulkFetch_reads (l : list IndexedMP4Sample) (s : State) :
  (l = [] \/ exists trak, videoTrak s = Some trak) ->
  exists more, reads (snd (bulkFetchSampleData l s)) = reads s ++ more
    /\ (List.length more <= 1)%nat /\ (l = [] -> more = []).
Proof.
  intros H.
  destruct l as [|x l].
  { exists []. rewrite app_nil_r. repeat split. simpl. lia. }
  destruct H as [H | (trak & Ht)]; [discriminate|].
  destruct (toSorted_nonempty (fun a => offset (sample a)) (x :: l))
    as (first & rest & last & Hf & Ha); [discriminate|].
  assert (Hne : x :: l <> []) by discriminate.
  rewrite (bulkFetch_unfold _ _ _ _ _ Hne Hf Ha), mapM_state.
  - eexists [_]. split; [reflexivity|]. split; [simpl; lia | discriminate].
  - intros y s' ->. now apply fetchSampleData_state with (trak := trak).
Qed.

Lemma reads_set_buffers (b : list (Z * bytes)) (s : State) :
  reads (set_buffers b s) = reads s.
Proof. reflexivity. Qed.

Lemma seek_reads (t : Q) (s : State) :
  Spec.has_track s ->
  exists more, reads (snd (seek t s)) = reads s ++ more
    /\ (List.length more <= 1)%nat.
Proof.
  intros H.
  assert (Hnil : exists more : list (Z * Z), reads s = reads s ++ more
                   /\ (List.length more <= 1)%nat).
  { exists []. rewrite app_nil_r. split; [reflexivity | simpl; lia]. }
  destruct (has_track_cases s H) as [He | (trak & Ht)].
  { rewrite seek_empty by exact He. exact Hnil. }
  destruct (videoSamples s) as [|v vs] eqn:Ev.
  { rewrite seek_empty by exact Ev. exact Hnil. }
  rewrite seek_nonempty by (rewrite Ev; discriminate). cbv zeta.
  assert (Hb : forall l, exists more,
             reads (snd (bulkFetchSampleData l (set_buffers [] s))) = reads s ++ more
             /\ (List.length more <= 1)%nat).
  { intros l. destruct (bulkFetch_reads l (set_buffers [] s)) as (more & H1 & H2 & _).
    - right. now exists trak.
    - exists more. split; [exact H1 | exact H2]. }
  destruct (_ =? -1); [exact Hnil|].
  destruct (JS.index _ _) as [frame|]; [|exact Hnil].
  destruct (is_key frame); [rewrite snd_bind_answer; apply Hb|].
  destruct (JS.findLast _ _); [rewrite snd_bind_answer; apply Hb | exact Hnil].
Qed.

Lemma readAllSamples_reads (s : State) :
  Spec.has_track s ->
  exists more, reads (snd (readAllSamples s)) = reads s ++ more
    /\ (List.length more <= 1)%nat.
Proof.
  intros H. rewrite readAllSamples_unfold.
  destruct (bulkFetch_reads (videoSamples s) (set_buffers [] s)) as (more & H1 & H2 & _).
  - destruct (has_track_cases s H) as [He | (trak & Ht)];
      [left; exact He | right; now exists trak].
  - exists more. split; [exact H1 | exact H2].
Qed.

(** X17. Whatever API call is made on a constructed demuxer, the sample
    index, the track, the file, the decoder configuration, the timestamp
    offset and the trapped error stay as they are, and the call reads the
    file at most once, appending to the read log. *)
Theorem calls_leave_the_index
    (f : bytes) (parsed : list (Z * Trak)) (outcome : ParseOutcome)
    (supported : VideoDecoderConfig -> bool) (calls : list Spec.Call) (c : Spec.Call) :
  let s := fold_left Spec.run_call calls (construct f parsed outcome supported) in
  Spec.same_index (construct f parsed outcome supported) s
  /\ Spec.same_index s (Spec.run_call s c)
  /\ exists more, reads (Spec.run_call s c) = reads s ++ more
       /\ (List.length more <= 1)%nat.
Proof.
  intros s.
  pose proof (construct_has_track f parsed outcome supported) as H0.
  pose proof (run_calls_same_index calls _ H0) as Hs. fold s in Hs.
  pose proof (same_index_has_track _ _ Hs H0) as H1.
  split; [exact Hs|]. split; [now apply run_call_same_index|].
  destruct c as [t | |]; simpl.
  - now apply seek_reads.
  - now apply readAllSamples_reads.
  - exists []. rewrite app_nil_r. split; [reflexivity | simpl; lia].
Qed.

Lemma fst_bind_answer (frame : IndexedMP4Sample)
    (m : M (list IndexedMP4Sample)) (s : State) :
  fst (bind m (Spec.answer_with frame) s)
  = match fst (m s) with
    | Ok out => Ok {| r_ptsIndex := ptsIndex frame; r_dtsIndex := dtsIndex frame;
                      r_samples := out |}
    | Throw e => Throw e
    end.
Proof. unfold bind. destruct (m s) as [[a|e] s1]; reflexivity. Qed.

Lemma mapM_fst_ext {A B} (f : A -> M B) (l : list A) (s s2 : State) :
  (forall x, snd (f x s) = s /\ snd (f x s2) = s2 /\ fst (f x s) = fst (f x s2)) ->
  fst (mapM f l s) = fst (mapM f l s2).
Proof.
  intros H. induction l as [|x l IH]; [reflexivity|].
  simpl. unfold bind. destruct (H x) as (H1 & H2 & H3).
  destruct (f x s) as [[y|e] s1], (f x s2) as [[y2|e2] s3]; simpl in *;
    subst; try discriminate; [|now inversion H3].
  inversion H3; subst y2.
  destruct (mapM f l s) as [[ys|e] s1], (mapM f l s2) as [[ys2|e2] s3];
    simpl in *; try discriminate; [|exact IH].
  now inversion IH.
Qed.

Lemma fetchSampleData_fst_ext (x : IndexedMP4Sample) (s s2 : State) (trak : Trak) :
  videoTrak s = Some trak -> videoTrak s2 = Some trak ->
  buffers (mp4box s2) = buffers (mp4box s) ->
  fst (fetchSampleData x s) = fst (fetchSampleData x s2).
Proof.
  intros H1 H2 Hb. unfold fetchSampleData, bind, get, throw, ret. cbn.
  rewrite H1, H2. unfold getSample. rewrite Hb.
  destruct (JS.index _ _); [|reflexivity].
  destruct (find_bytes _ _ _); reflexivity.
Qed.

Lemma bulkFetch_fst_ext (l : list IndexedMP4Sample) (s s2 : State) :
  (l = [] \/ exists trak, videoTrak s = Some trak) ->
  videoTrak s2 = videoTrak s -> file s2 = file s ->
  buffers (mp4box s2) = buffers (mp4box s) ->
  fst (bulkFetchSampleData l s2) = fst (bulkFetchSampleData l s).
Proof.
  intros H Ht Hfile Hb.
  destruct l as [|x l]; [reflexivity|].
  destruct H as [H | (trak & Htr)]; [discriminate|].
  destruct (toSorted_nonempty (fun a => offset (sample a)) (x :: l))
    as (first & rest & last & Hf & Ha); [discriminate|].
  assert (Hne : x :: l <> []) by discriminate.
  rewrite !(bulkFetch_unfold _ _ _ _ _ Hne Hf Ha).
  apply mapM_fst_ext. intros y.
  split; [apply fetchSampleData_state with (trak := trak); cbn; congruence|].
  split; [now apply fetchSampleData_state with (trak := trak)|].
  apply fetchSampleData_fst_ext with (trak := trak); cbn; congruence.
Qed.

Lemma seek_fst_ext (t : Q) (s s2 : State) :
  Spec.has_track s -> Spec.same_index s s2 ->
  fst (seek t s2) = fst (seek t s).
Proof.
  intros H (He & Hv & Ht & Hfile & _ & Ho).
  assert (Hcase : videoSamples s = [] \/ videoSamples s <> [])
    by (destruct (videoSamples s); [left; reflexivity | right; discriminate]).
  destruct Hcase as [Ev | Ev].
  { rewrite !seek_empty by congruence. reflexivity. }
  assert (Htr : exists trak, videoTrak s = Some trak).
  { destruct (has_track_cases s H) as [Hn | Htr]; [congruence | exact Htr]. }
  rewrite !seek_nonempty by congruence. cbv zeta.
  unfold timestampMsToPtsIndex. rewrite Hv, Ho.
  destruct (_ =? -1); [reflexivity|].
  destruct (JS.index _ _) as [frame|]; [|reflexivity].
  assert (Hb : forall l,
            fst (bind (bulkFetchSampleData l) (Spec.answer_with frame) (set_buffers [] s2))
            = fst (bind (bulkFetchSampleData l) (Spec.answer_with frame) (set_buffers [] s))).
  { intros l. rewrite !fst_bind_answer.
    rewrite (bulkFetch_fst_ext l (set_buffers [] s) (set_buffers [] s2));
      try reflexivity; [right; exact Htr | exact Ht | exact Hfile]. }
  destruct (is_key frame); [apply Hb|].
  destruct (JS.findLast _ _); [apply Hb | reflexivity].
Qed.

Lemma readAllSamples_fst_ext (s s2 : State) :
  Spec.has_track s -> Spec.same_index s s2 ->
  fst (readAllSamples s2) = fst (readAllSamples s).
Proof.
  intros H (He & Hv & Ht & Hfile & _).
  rewrite !readAllSamples_unfold, Hv.
  apply bulkFetch_fst_ext; try reflexivity; try assumption.
  destruct (has_track_cases s H) as [Hn | Htr]; [left; exact Hn | right; exact Htr].
Qed.

(** X18. What [seek] and [readAllSamples] return does not depend on the
    calls made before: after any sequence of API calls on a constructed
    demuxer they answer as they would have answered right away. *)
Theorem answers_do_not_depend_on_history
    (f : bytes) (parsed : list (Z * Trak)) (outcome : ParseOutcome)
    (supported : VideoDecoderConfig -> bool) (calls : list Spec.Call) (t : Q) :
  let s0 := construct f parsed outcome supported in
  let s := fold_left Spec.run_call calls s0 in
  fst (seek t s) = fst (seek t s0)
  /\ fst (readAllSamples s) = fst (readAllSamples s0)
  /\ getVideoDecoderConfig s = getVideoDecoderConfig s0.
Proof.
  intros s0 s.
  pose proof (construct_has_track f parsed outcome supported) as H0.
  pose proof (run_calls_same_index calls _ H0) as Hs. fold s0 s in Hs, H0.
  split; [now apply seek_fst_ext|]. split; [now apply readAllSamples_fst_ext|].
  destruct Hs as (He & _ & _ & _ & Hc & _).
  unfold getVideoDecoderConfig. now rewrite He, Hc.
Qed.

End CallsCompose.

Section ReadAll.
Import Demux.

Lemma strictly_sorted_head_least (l : list Z) (a x : Z) :
  StronglySorted Z.lt (a :: l) -> In x (a :: l) -> a <= x.
Proof.
  intros Hs [-> | Hx]; [lia|].
  inversion Hs as [|? ? _ Hall]; subst. rewrite Forall_forall in Hall.
  specialize (Hall x Hx). lia.
Qed.

(** Two strictly increasing lists with the same elements are equal. *)
Lemma strictly_sorted_unique (l1 l2 : list Z) :
  StronglySorted Z.lt l1 -> StronglySorted Z.lt l2 -> Permutation l1 l2 ->
  l1 = l2.
Proof.
  revert l2. induction l1 as [|a l1 IH]; intros l2 H1 H2 Hp.
  - apply Permutation_nil in Hp. now subst.
  - destruct l2 as [|b l2]; [apply Permutation_sym, Permutation_nil in Hp; discriminate|].
    assert (a = b).
    { pose proof (strictly_sorted_head_least l1 a b H1
                    (Permutation_in _ (Permutation_sym Hp) (or_introl eq_refl))).
      pose proof (strictly_sorted_head_least l2 b a H2
                    (Permutation_in _ Hp (or_introl eq_refl))).
      lia. }
    subst b. f_equal. apply IH.
    + now inversion H1.
    + now inversion H2.
    + eapply Permutation_cons_inv, Hp.
Qed.

Lemma seq_sorted (a n : nat) : StronglySorted Z.lt (map Z.of_nat (seq a n)).
Proof.
  revert a. induction n as [|n IH]; intros a; simpl; constructor; [apply IH|].
  apply Forall_forall. intros x Hx. apply in_map_iff in Hx.
  destruct Hx as (k & <- & Hk). apply in_seq in Hk. lia.
Qed.

Lemma sorted_le_NoDup (l : list Z) :
  StronglySorted Z.le l -> NoDup l -> StronglySorted Z.lt l.
Proof.
  induction 1 as [|a l Hs IH Hall]; intros Hnd; constructor.
  - apply IH. now inversion Hnd.
  - inversion Hnd as [|? ? Hnin _]; subst. rewrite Forall_forall in *.
    intros x Hx. specialize (Hall x Hx).
    assert (a <> x) by (intros ->; contradiction). lia.
Qed.

Lemma sorted_map {A} (f : A -> Z) (l : list A) :
  StronglySorted (fun a b => f a <= f b) l -> StronglySorted Z.le (map f l).
Proof.
  induction 1 as [|a l Hs IH Hall]; simpl; constructor; [exact IH|].
  apply Forall_map. exact Hall.
Qed.

(** X19. On an indexed demuxer [readAllSamples] succeeds and returns every
    indexed sample exactly once, ordered by decode timestamp; when decode
    timestamps strictly increase with [dtsIndex] the result is the track in
    decode order, [dtsIndex] running 0, 1, ..., count - 1. *)
Theorem readAllSamples_returns_decode_order (s : State) :
  Spec.indexed s ->
  let count := List.length (videoSamples s) in
  exists out s',
    readAllSamples s = (Ok out, s')
    /\ List.length out = count
    /\ Permutation (map dtsIndex out) (Spec.zseq count)
    /\ Permutation (map ptsIndex out) (Spec.zseq count)
    /\ StronglySorted Spec.by_dts out
    /\ (Spec.dts_follows_dtsIndex (videoSamples s) ->
        map dtsIndex out = Spec.zseq count).
Proof.
  intros Hi count. rewrite readAllSamples_unfold.
  destruct (bulkFetch_total (videoSamples s) (set_buffers [] s)
              (indexed_after_clean s Hi) (fun x H => H))
    as (out & s' & Hb & HF & _).
  change (videoSamples (set_buffers [] s)) with (videoSamples s) in *.
  exists out, s'. split; [exact Hb|].
  pose proof (toSorted_perm (fun a => dts (sample a)) (videoSamples s)) as Hperm.
  assert (Hd : Permutation (map dtsIndex out) (Spec.zseq count)).
  { rewrite (Forall2_fetched_dtsIndex _ _ HF).
    etransitivity; [apply Permutation_map, Hperm | apply indexed_dtsIndex_perm, Hi]. }
  assert (Hsorted : StronglySorted Spec.by_dts out).
  { eapply sorted_transfer;
      [|exact HF | apply (toSorted_sorted (fun a => dts (sample a)))].
    intros a b a' b' _ _ (_ & _ & da & Ea) (_ & _ & db & Eb) Hab.
    unfold Spec.by_dts. rewrite Ea, Eb. exact Hab. }
  split.
  { rewrite <- (Forall2_length HF). apply toSorted_length. }
  split; [exact Hd|]. split.
  { rewrite (Forall2_fetched_ptsIndex _ _ HF).
    etransitivity; [apply Permutation_map, Hperm|].
    destruct Hi as (trak & _ & Hs & _). unfold count.
    rewrite Hs, indexSamples_ptsIndex, indexSamples_length. reflexivity. }
  split; [exact Hsorted|].
  intros Hmono.
  apply strictly_sorted_unique; [| apply seq_sorted | exact Hd].
  apply sorted_le_NoDup.
  - apply sorted_map.
    eapply sorted_transfer;
      [|exact HF | apply (toSorted_sorted (fun a => dts (sample a)))].
    intros a b a' b' Hina Hinb (_ & Ea & _) (_ & Eb & _) Hab.
    cbv beta. rewrite Ea, Eb.
    apply toSorted_In in Hina, Hinb.
    destruct (Z.le_gt_cases (dtsIndex a) (dtsIndex b)) as [Hle | Hgt]; [exact Hle|].
    specialize (Hmono b a Hinb Hina ltac:(lia)). cbv beta in Hab. lia.
  - eapply Permutation_NoDup; [symmetry; exact Hd | apply zseq_NoDup].
Qed.

Lemma parsed5_dts : Spec.dts_follows_dtsIndex (videoSamples Examples.parsed5).
Proof.
  intros a b Ha Hb.
  repeat (destruct Ha as [<- | Ha]; [|]); try destruct Ha;
    repeat (destruct Hb as [<- | Hb]; [|]); try destruct Hb;
    simpl; lia.
Qed.

Lemma readAllSamples_returns_decode_order_witness :
  exists out, fst (readAllSamples Examples.parsed5) = Ok out
              /\ map dtsIndex out = [0; 1; 2; 3; 4].
Proof.
  destruct (readAllSamples_returns_decode_order Examples.parsed5 parsed5_indexed)
    as (out & s' & Hr & _ & _ & _ & _ & Hd).
  exists out. split; [now rewrite Hr | exact (Hd parsed5_dts)].
Defined.

End ReadAll.

Section Timeline.
Import Demux.

Lemma inject_Z_nonneg (z : Z) : 0 <= z -> (0 <= inject_Z z)%Q.
Proof. intros H. unfold Qle. simpl. lia. Qed.

Lemma inv_timescale_nonneg (T : Z) : 0 < T -> (0 <= / inject_Z T)%Q.
Proof. intros H. apply Qinv_le_0_compat, inject_Z_nonneg. lia. Qed.

(** With one positive timescale, milliseconds grow with track units. *)
Lemma secToMs_mono (T a b : Z) :
  0 < T -> a <= b ->
  (Time.secToMs (inject_Z a / inject_Z T) <= Time.secToMs (inject_Z b / inject_Z T))%Q.
Proof.
  intros HT Hab. unfold Time.secToMs, Qdiv.
  apply Qmult_le_compat_r; [|discriminate].
  apply Qmult_le_compat_r; [|now apply inv_timescale_nonneg].
  rewrite <- Zle_Qle. exact Hab.
Qed.

Lemma durationMs_nonneg (x : MP4Sample) :
  0 < timescale x -> 0 <= duration x -> (0 <= durationMs_of x)%Q.
Proof.
  intros HT Hd. unfold durationMs_of, Time.secToMs, Qdiv.
  apply Qmult_le_0_compat; [|discriminate].
  apply Qmult_le_0_compat;
    [now apply inject_Z_nonneg | now apply inv_timescale_nonneg].
Qed.

Lemma ctsMs_mono (offsetMs : Q) (x y : MP4Sample) :
  0 < timescale x -> timescale y = timescale x -> cts x <= cts y ->
  (ctsMs offsetMs x <= ctsMs offsetMs y)%Q.
Proof.
  intros HT HTy Hc. unfold ctsMs, ctsMs_raw. rewrite HTy.
  apply Qplus_le_compat; [now apply secToMs_mono | apply Qle_refl].
Qed.

Lemma indexed_cts_sorted (s : State) (i j : Z) (a b : IndexedMP4Sample) :
  Spec.indexed s -> i < j ->
  JS.index (videoSamples s) i = Some a -> JS.index (videoSamples s) j = Some b ->
  cts (sample a) <= cts (sample b).
Proof.
  intros (trak & _ & Hs & _) Hij Ha Hb. rewrite Hs in Ha, Hb.
  apply index_Some in Ha, Hb.
  destruct Ha as (i' & -> & Ha & _), Hb as (j' & -> & Hb & _).
  apply indexSamples_nth in Ha, Hb.
  destruct Ha as (_ & _ & Ha), Hb as (_ & _ & Hb).
  eapply (sorted_nth cts); [apply toSorted_sorted | | exact Ha | exact Hb]. lia.
Qed.

Lemma lookup_first (t : Q) (s : State) :
  Spec.indexed s -> timestampMsToPtsIndex t s <> -1 ->
  exists frame,
    JS.index (videoSamples s) (timestampMsToPtsIndex t s) = Some frame
    /\ Spec.in_closed_interval (firstFramePtsOffsetMs s) t (sample frame)
    /\ forall j y, 0 <= j < timestampMsToPtsIndex t s ->
         JS.index (videoSamples s) j = Some y ->
         ~ Spec.in_closed_interval (firstFramePtsOffsetMs s) t (sample y).
Proof.
  intros Hi Hp.
  destruct (covers_dec (firstFramePtsOffsetMs s) t (videoSamples s)) as [Hex | Hnone].
  - destruct (scan_samples_found _ _ _ Hex) as (k & x & Hk & Hc & Hsc & Hmin).
    pose proof (indexed_nth s k x Hi Hk) as Hpk.
    exists x. unfold timestampMsToPtsIndex. rewrite Hsc, Hpk, index_nth.
    split; [exact Hk|]. split; [now apply covers_closed|].
    intros j y Hj Hy. apply nth_error_index in Hy. destruct Hy as [_ Hy].
    apply covers_not_closed, (Hmin (Z.to_nat j)); [lia | exact Hy].
  - exfalso. apply Hp. now apply scan_samples_none.
Qed.

(** X13. On an indexed track whose samples share one positive timescale,
    the timestamp lookup is monotone: of two timestamps that both resolve,
    the later one never resolves to an earlier presentation position. *)
Theorem lookup_is_monotone (s : State) (T : Z) (t1 t2 : Q) :
  Spec.indexed s -> 0 < T ->
  Forall (fun x => timescale (sample x) = T) (videoSamples s) ->
  (t1 <= t2)%Q ->
  timestampMsToPtsIndex t1 s <> -1 -> timestampMsToPtsIndex t2 s <> -1 ->
  timestampMsToPtsIndex t1 s <= timestampMsToPtsIndex t2 s.
Proof.
  intros Hi HT Hall Ht H1 H2.
  destruct (lookup_first t1 s Hi H1) as (f1 & Hf1 & [Hc1 _] & Hmin1).
  destruct (lookup_first t2 s Hi H2) as (f2 & Hf2 & [Hc2 He2] & _).
  destruct (Z.le_gt_cases (timestampMsToPtsIndex t1 s) (timestampMsToPtsIndex t2 s))
    as [Hle | Hgt]; [exact Hle|].
  exfalso.
  pose proof (nth_error_index _ _ _ Hf2) as [Hr2 Hn2].
  pose proof (nth_error_index _ _ _ Hf1) as [_ Hn1].
  apply (Hmin1 (timestampMsToPtsIndex t2 s) f2); [lia | exact Hf2 |].
  rewrite Forall_forall in Hall.
  assert (HT1 : timescale (sample f1) = T) by (eapply Hall, nth_error_In, Hn1).
  assert (HT2 : timescale (sample f2) = T) by (eapply Hall, nth_error_In, Hn2).
  pose proof (indexed_cts_sorted s _ _ f2 f1 Hi Hgt Hf2 Hf1) as Hcts.
  split.
  - eapply Qle_trans; [|exact Hc1].
    apply ctsMs_mono; [rewrite HT2; exact HT | congruence | exact Hcts].
  - eapply Qle_trans; [exact Ht | exact He2].
Qed.

Lemma parsed5_timescale :
  Forall (fun x => timescale (sample x) = 1000) (videoSamples Examples.parsed5).
Proof. repeat constructor. Qed.

Lemma lookup_is_monotone_witness :
  timestampMsToPtsIndex 500 Examples.parsed5
  <= timestampMsToPtsIndex 1050 Examples.parsed5.
Proof.
  apply (lookup_is_monotone Examples.parsed5 1000 500 1050 parsed5_indexed
           ltac:(lia) parsed5_timescale);
    [discriminate | vm_compute; discriminate | vm_compute; discriminate].
Defined.

(** X12. Once [onReady] has indexed a track, the first sample in
    presentation order starts at corrected time 0 whatever its composition
    timestamp, and timestamp 0 resolves to presentation position 0, provided
    that sample has a positive timescale and a non-negative duration. *)
Theorem first_sample_is_at_time_zero
    (info : MP4Info) (supported : VideoDecoderConfig -> bool) (st : State)
    (vt : MP4VideoTrack) (rest : list MP4VideoTrack) (trak : Trak)
    (first : IndexedMP4Sample) (tl : list IndexedMP4Sample) :
  videoTracks info = vt :: rest ->
  getTrackById (mp4box st) (id vt) = Some trak ->
  indexSamples (samples trak) = first :: tl ->
  0 < timescale (sample first) -> 0 <= duration (sample first) ->
  let st' := snd (onReady info supported st) in
  (ctsMs (firstFramePtsOffsetMs st') (sample first) == 0)%Q
  /\ timestampMsToPtsIndex 0 st' = 0.
Proof.
  intros Hv Ht Hix HT Hd st'.
  destruct (onReady_index info supported st vt rest trak Hv Ht) as (Hs & _ & _ & Ho).
  fold st' in Hs, Ho. specialize (Ho first tl Hix).
  assert (Hz : (ctsMs (firstFramePtsOffsetMs st') (sample first) == 0)%Q).
  { unfold ctsMs. rewrite Ho. apply Qplus_opp_r. }
  split; [exact Hz|].
  unfold timestampMsToPtsIndex. rewrite Hs, Hix. simpl.
  assert (Hc : covers (firstFramePtsOffsetMs st') 0 (sample first) = true).
  { apply covers_closed. split.
    - rewrite Hz. apply Qle_refl.
    - rewrite Hz, Qplus_0_l. now apply durationMs_nonneg. }
  rewrite Hc.
  assert (H0 : nth_error (indexSamples (samples trak)) 0 = Some first)
    by (now rewrite Hix).
  now apply indexSamples_nth in H0.
Qed.

Lemma first_sample_is_at_time_zero_witness :
  timestampMsToPtsIndex 0 Examples.parsed_tie = 0.
Proof.
  refine (proj2 (first_sample_is_at_time_zero Examples.info_tie (fun _ => true)
           (new (repeat Byte.x07 4) [(1, Examples.trak_tie)])
           Examples.track [] Examples.trak_tie _ _ eq_refl eq_refl eq_refl _ _));
    simpl; lia.
Defined.

End Timeline.

Section ParseOutcomes.
Import Demux.

Lemma scan_entries_from (entries : list SampleEntry) (d : option bytes) :
  Forall View.no_box entries ->
  fold_left (fun description e =>
               match entry_box e with
               | Some b => Some (skipn 8 b)
               | None => description
               end) entries d = d.
Proof.
  induction 1 as [|e entries He _ IH]; [reflexivity|].
  simpl. unfold View.no_box in He. now rewrite He.
Qed.

(** The last entry that carries a configuration box decides. *)
Lemma scan_entries_last (pre post : list SampleEntry) (e : SampleEntry) (b : bytes) :
  entry_box e = Some b -> Forall View.no_box post ->
  scan_entries (pre ++ e :: post) = Some (skipn 8 b).
Proof.
  intros He Hpost. unfold scan_entries. rewrite fold_left_app. simpl.
  rewrite He. now apply scan_entries_from.
Qed.

Lemma scan_entries_none (entries : list SampleEntry) :
  Forall View.no_box entries -> scan_entries entries = None.
Proof. apply scan_entries_from. Qed.

(** [onReady] on a first video track with samples, up to the point where
    the decoder configuration is read. *)
Lemma onReady_with_samples
    (f : bytes) (parsed : list (Z * Trak)) (info : MP4Info)
    (supported : VideoDecoderConfig -> bool)
    (vt : MP4VideoTrack) (rest : list MP4VideoTrack) (trak : Trak)
    (P : State -> Prop) :
  videoTracks info = vt :: rest ->
  getTrackById (mp4box (new f parsed)) (id vt) = Some trak ->
  samples trak <> [] ->
  (forall first tl, indexSamples (samples trak) = first :: tl ->
     P (snd (match stsd trak with
             | None => trap_and_throw "mdia box not intact."
             | Some entries =>
                 match scan_entries entries with
                 | None => trap_and_throw "avcC, hvcC, vpcC, or av1C box not found"
                 | Some d =>
                     fun s0 =>
                       if negb (supported (View.config_with vt d))
                       then (Ok tt, set_error (Some "VideoDecoder config not supported"%string) s0)
                       else (Ok tt, set_buffers []
                                      (set_videoDecoderConfig
                                         (Some (View.config_with vt d)) s0))
                 end
             end
             (set_durationMs
                (Time.secToMs (inject_Z (info_duration info)
                               / inject_Z (info_timescale info)))
                (set_firstFramePtsOffsetMs (ctsMs_raw (sample first))
                   (set_videoSamples (indexSamples (samples trak))
                      (set_videoTrak (Some trak) (set_moov true (new f parsed))))))))) ->
  P (construct f parsed (MovieParsed info) supported).
Proof.
  intros Hv Ht Hne HP.
  assert (Hix : indexSamples (samples trak) <> []).
  { intros E. apply (f_equal (@List.length _)) in E.
    rewrite indexSamples_length in E. destruct (samples trak); [now elim Hne | discriminate]. }
  unfold construct.
  unfold onReady, readVideoDecoderConfig, trap_and_throw, _trapError,
    cleanBuffers, bind, modify, get, ret, throw in *. cbn in *.
  rewrite Hv. cbn. rewrite Ht. cbn.
  destruct (indexSamples (samples trak)) as [|first tl] eqn:E; [now elim Hix|].
  cbn. rewrite Ht. specialize (HP first tl eq_refl).
  destruct (stsd trak) as [entries|]; [|exact HP].
  destruct (scan_entries entries) as [d|]; [|exact HP].
  cbn in *. destruct (supported _); exact HP.
Qed.



(** X11. Parse errors.  Without a video track the error "mp4 file without
    video track" is trapped and nothing is indexed.  With a first video
    track that has samples, a missing sample description traps "mdia box
    not intact.", a description without any configuration box traps the
    missing-box error, and a configuration the engine rejects traps
    "VideoDecoder config not supported"; in these three cases the sample
    index has nevertheless been built and no configuration is stored. *)
Theorem parse_errors
    (f : bytes) (parsed : list (Z * Trak)) (info : MP4Info)
    (supported : VideoDecoderConfig -> bool) :
  let st := construct f parsed (MovieParsed info) supported in
  (videoTracks info = [] ->
   _error st = Some "mp4 file without video track"%string
   /\ videoSamples st = [] /\ videoDecoderConfig st = None)
  /\ forall vt rest trak,
       videoTracks info = vt :: rest ->
       getTrackById (mp4box (new f parsed)) (id vt) = Some trak ->
       samples trak <> [] ->
       videoSamples st = indexSamples (samples trak)
       /\ (stsd trak = None ->
           _error st = Some "mdia box not intact."%string
           /\ videoDecoderConfig st = None)
       /\ (forall entries, stsd trak = Some entries ->
             Forall View.no_box entries ->
             _error st = Some "avcC, hvcC, vpcC, or av1C box not found"%string
             /\ videoDecoderConfig st = None)
       /\ (forall pre e post box,
             stsd trak = Some (pre ++ e :: post) ->
             entry_box e = Some box -> Forall View.no_box post ->
             supported (View.decoder_config vt box) = false ->
             _error st = Some "VideoDecoder config not supported"%string
             /\ videoDecoderConfig st = None).
Proof.
  intros st. split.
  { intros Hv. unfold st, construct, onReady, _trapError, bind, modify, ret.
    cbn. rewrite Hv. repeat split. }
  intros vt rest trak Hv Ht Hne.
  split.
  { now destruct (onReady_index info supported (new f parsed) vt rest trak Hv Ht). }
  assert (Hstep := fun P => onReady_with_samples f parsed info supported
                              vt rest trak P Hv Ht Hne).
  fold st in Hstep.
  split; [|split].
  - intros Hs. apply Hstep. intros first tl _. rewrite Hs. split; reflexivity.
  - intros entries Hs Hno. apply Hstep. intros first tl _.
    rewrite Hs, (scan_entries_none entries Hno). split; reflexivity.
  - intros pre e post box Hs He Hpost Hsup. apply Hstep. intros first tl _.
    rewrite Hs, (scan_entries_last pre post e box He Hpost).
    change (View.config_with vt (skipn 8 box)) with (View.decoder_config vt box).
    rewrite Hsup. split; reflexivity.
Qed.

(** X10. A video track without samples.  [onReady] fails on the first
    sample it reads back, before any error is trapped: the demuxer is left
    with no error and no configuration, so [getVideoDecoderConfig] neither
    throws nor resolves, [seek] throws its missing-samples error and
    [readAllSamples] answers with the empty list without a read. *)
Theorem empty_track_traps_nothing
    (f : bytes) (parsed : list (Z * Trak)) (info : MP4Info)
    (supported : VideoDecoderConfig -> bool)
    (vt : MP4VideoTrack) (rest : list MP4VideoTrack) (trak : Trak) (t : Q) :
  videoTracks info = vt :: rest ->
  getTrackById (mp4box (new f parsed)) (id vt) = Some trak ->
  samples trak = [] ->
  let st := construct f parsed (MovieParsed info) supported in
  fst (onReady info supported (new f parsed)) = Throw "TypeError"
  /\ _error st = None
  /\ getVideoDecoderConfig st = ConfigPending
  /\ seek t st = (Throw NO_SAMPLES, st)
  /\ fst (readAllSamples st) = Ok []
  /\ reads (snd (readAllSamples st)) = [].
Proof.
  intros Hv Ht He st.
  assert (Hst : onReady info supported (new f parsed)
                = (Throw "TypeError",
                   set_videoSamples [] (set_videoTrak (Some trak)
                                          (set_moov true (new f parsed))))).
  { unfold onReady, bind, modify, get, throw. cbn. rewrite Hv. cbn.
    cbn in Ht. rewrite Ht. cbn. rewrite He. reflexivity. }
  unfold st, construct. rewrite Hst. cbn [fst snd].
  repeat split.
Qed.

Lemma empty_track_traps_nothing_witness :
  getVideoDecoderConfig
    (construct [] [(1, {| stsd := Some [Examples.entry]; samples := [] |})]
       (MovieParsed Examples.info5) (fun _ => true))
  = ConfigPending.
Proof.
  exact (proj1 (proj2 (proj2 (empty_track_traps_nothing []
           [(1, {| stsd := Some [Examples.entry]; samples := [] |})]
           Examples.info5 (fun _ => true) Examples.track []
           {| stsd := Some [Examples.entry]; samples := [] |} 0
           eq_refl eq_refl eq_refl)))).
Defined.

Lemma parse_errors_witness :
  _error Examples.rejected5 = Some "VideoDecoder config not supported"%string
  /\ videoSamples Examples.rejected5 = indexSamples (samples Examples.trak5).
Proof.
  destruct (parse_errors Examples.file10 [(1, Examples.trak5)] Examples.info5
              (fun _ => false)) as [_ H].
  destruct (H Examples.track [] Examples.trak5 eq_refl eq_refl ltac:(discriminate))
    as (Hs & _ & _ & Hr).
  split; [|exact Hs].
  exact (proj1 (Hr [] Examples.entry [] (repeat Byte.x01 10) eq_refl eq_refl
                  (Forall_nil _) eq_refl)).
Defined.

End ParseOutcomes.

(** ** The muxer over all its operations *)
Section MuxRuns.
Import Mux.

Lemma deliver_all_app (e1 e2 : list EncoderEvent) (s : State) :
  deliver_all (e1 ++ e2) s = deliver_all e2 (deliver_all e1 s).
Proof. unfold deliver_all. apply fold_left_app. Qed.

Lemma assemble_samples (s : State) :
  videoSamples (snd (assemble s)) = videoSamples s
  /\ audioSamples (snd (assemble s)) = audioSamples s.
Proof.
  unfold assemble.
  destruct (write_samples 0 _ _); [|split; reflexivity].
  destruct (JS.at_last _); [|split; reflexivity].
  destruct (write_samples _ _ _); split; reflexivity.
Qed.

(** The samples an action leaves are those its callbacks left. *)
Lemma act_samples (s : State) (a : View.Action) :
  videoSamples (View.act s a) = videoSamples (deliver_all (View.callbacks a) s)
  /\ audioSamples (View.act s a) = audioSamples (deliver_all (View.callbacks a) s).
Proof.
  destruct a as [ev | frame | | w h v au | | audioFlush videoFlush]; simpl.
  - split; reflexivity.
  - unfold pushVideoFrame. destruct (_encoderError s); [split; reflexivity|].
    destruct (Qle_bool _ _); unfold enc_encode; cbn;
      destruct (enc_state (videoEncoder s)); split; reflexivity.
  - unfold pushAudioData. destruct (_encoderError s); [split; reflexivity|].
    unfold enc_encode. destruct (enc_state (audioEncoder s)); split; reflexivity.
  - unfold configureEncoders, configure. destruct v; cbn; [|split; reflexivity].
    destruct (enc_state (videoEncoder s)); cbn; try (split; reflexivity);
      destruct au; cbn; try (split; reflexivity);
      destruct (enc_state (audioEncoder s)); split; reflexivity.
  - split; reflexivity.
  - unfold multiplexToBuffer.
    destruct (fl_rejected audioFlush) as [e|].
    { rewrite app_nil_r. split; reflexivity. }
    rewrite deliver_all_app.
    destruct (fl_rejected videoFlush) as [e|]; [split; reflexivity|].
    destruct (_encoderError _); [split; reflexivity|].
    destruct (_ =? 0); [split; reflexivity | apply assemble_samples].
Qed.

Lemma at_last_cons {A} (x : A) (l : list A) :
  JS.at_last (x :: l) = match JS.at_last l with Some y => Some y | None => Some x end.
Proof.
  destruct l as [|y l]; [reflexivity|].
  change (JS.at_last (x :: y :: l)) with (JS.at_last (y :: l)).
  destruct (at_last_cases (y :: l)) as [[H _] | (l' & z & _ & ->)];
    [discriminate | reflexivity].
Qed.

Lemma payloads_cons (x : Sample) (l : list Sample) :
  JS.length (View.payloads (x :: l))
  = JS.length (data x) + JS.length (View.payloads l).
Proof.
  unfold View.payloads, JS.length. simpl. rewrite length_app. lia.
Qed.

(** In a packed list the last sample ends where the payloads end. *)
Lemma packed_last (start : Z) (l : list Sample) :
  View.packed start l ->
  match JS.at_last l with
  | Some p => offset p + size p = start + JS.length (View.payloads l)
  | None => l = []
  end.
Proof.
  revert start. induction l as [|x l IH]; intros start H; [reflexivity|].
  destruct H as (Ho & Hs & Hp). specialize (IH _ Hp).
  rewrite at_last_cons, payloads_cons.
  destruct (JS.at_last l) as [p|].
  - rewrite IH, Hs. ring.
  - subst l. rewrite Ho, Hs. unfold View.payloads, JS.length. simpl. ring.
Qed.

Lemma packed_snoc (start : Z) (l : list Sample) (x : Sample) :
  View.packed start l ->
  offset x = start + JS.length (View.payloads l) ->
  size x = JS.length (data x) ->
  View.packed start (l ++ [x]).
Proof.
  revert start. induction l as [|y l IH]; intros start H Ho Hs.
  - simpl. unfold View.payloads, JS.length in Ho. simpl in Ho.
    repeat split; [lia | exact Hs].
  - destruct H as (Hy & Hys & Hp). simpl. repeat split; try assumption.
    apply IH; [exact Hp | | exact Hs].
    rewrite payloads_cons in Ho. lia.
Qed.

(** Both callbacks append a sample that continues the packing. *)
Lemma packed_push (l : list Sample) (x : Sample) :
  View.packed 0 l ->
  (let prev := match JS.at_last l with Some p => p | None => EMPTY_SAMPLE end in
   offset x = offset prev + size prev) ->
  size x = JS.length (data x) ->
  View.packed 0 (l ++ [x]).
Proof.
  intros H Ho Hs. apply packed_snoc; [exact H | | exact Hs].
  pose proof (packed_last 0 l H) as Hl. cbv zeta in Ho.
  destruct (JS.at_last l) as [p|]; [lia|].
  subst l. simpl in Ho. unfold View.payloads, JS.length. simpl. lia.
Qed.

Lemma deliver_effect (s : State) (ev : EncoderEvent) :
  map View.kept (videoSamples (deliver s ev))
  = map View.kept (videoSamples s) ++ map View.chunk_kept (View.video_chunks [ev])
  /\ map View.kept (audioSamples (deliver s ev))
     = map View.kept (audioSamples s) ++ map View.audio_kept (View.kept_audio_chunks [ev])
  /\ (View.packed 0 (videoSamples s) -> View.packed 0 (videoSamples (deliver s ev)))
  /\ (View.packed 0 (audioSamples s) -> View.packed 0 (audioSamples (deliver s ev))).
Proof.
  destruct ev as [chunk meta | chunk | e]; unfold deliver.
  - assert (Hv : videoSamples (onEncodedVideoChunk chunk meta s)
               = videoSamples s ++
                 [{| number := number (match JS.at_last (videoSamples s) with
                                       | Some p => p | None => EMPTY_SAMPLE end) + 1;
                     data := v_payload chunk;
                     duration := JS.Math_round
                       (Time.usToSec (inject_Z (match v_duration chunk with
                                                | Some d => d | None => 0 end))
                        * videoOutputTimescale (cfg s))%Q;
                     dts := JS.Math_round
                       (Time.usToSec (inject_Z (v_timestamp chunk))
                        * videoOutputTimescale (cfg s))%Q;
                     sync := View.is_key_chunk chunk;
                     offset := offset (match JS.at_last (videoSamples s) with
                                       | Some p => p | None => EMPTY_SAMPLE end)
                               + size (match JS.at_last (videoSamples s) with
                                       | Some p => p | None => EMPTY_SAMPLE end);
                     size := JS.length (v_payload chunk) |}])
      by (destruct meta; reflexivity).
    assert (Ha : audioSamples (onEncodedVideoChunk chunk meta s) = audioSamples s)
      by (destruct meta; reflexivity).
    rewrite Hv, Ha, map_app. simpl. rewrite app_nil_r.
    split; [reflexivity|]. split; [reflexivity|]. split; [|trivial].
    intros Hp. apply packed_push; [exact Hp | reflexivity | reflexivity].
  - unfold onEncodedAudioChunk. simpl.
    destruct (a_duration chunk) as [[|d|d]|]; simpl; rewrite ?app_nil_r;
      try (repeat split; trivial; fail);
      rewrite map_app; simpl;
      (split; [reflexivity|]); (split; [reflexivity|]); (split; [trivial|]);
      intros Hp; (apply packed_push; [exact Hp | reflexivity | reflexivity]).
  - simpl. rewrite !app_nil_r. repeat split; trivial.
Qed.

Lemma video_chunks_app (e1 e2 : list EncoderEvent) :
  View.video_chunks (e1 ++ e2) = View.video_chunks e1 ++ View.video_chunks e2.
Proof. unfold View.video_chunks. apply flat_map_app. Qed.

Lemma kept_audio_chunks_app (e1 e2 : list EncoderEvent) :
  View.kept_audio_chunks (e1 ++ e2)
  = View.kept_audio_chunks e1 ++ View.kept_audio_chunks e2.
Proof. unfold View.kept_audio_chunks. apply flat_map_app. Qed.

Lemma deliver_all_effect (evs : list EncoderEvent) (s : State) :
  map View.kept (videoSamples (deliver_all evs s))
  = map View.kept (videoSamples s) ++ map View.chunk_kept (View.video_chunks evs)
  /\ map View.kept (audioSamples (deliver_all evs s))
     = map View.kept (audioSamples s) ++ map View.audio_kept (View.kept_audio_chunks evs)
  /\ (View.packed 0 (videoSamples s) -> View.packed 0 (videoSamples (deliver_all evs s)))
  /\ (View.packed 0 (audioSamples s) -> View.packed 0 (audioSamples (deliver_all evs s))).
Proof.
  revert s. induction evs as [|ev evs IH]; intros s.
  { simpl. rewrite !app_nil_r. repeat split; trivial. }
  change (deliver_all (ev :: evs) s) with (deliver_all evs (deliver s ev)).
  destruct (IH (deliver s ev)) as (I1 & I2 & I3 & I4).
  destruct (deliver_effect s ev) as (D1 & D2 & D3 & D4).
  change (ev :: evs) with ([ev] ++ evs).
  rewrite video_chunks_app, kept_audio_chunks_app, !map_app, I1, I2, D1, D2,
    <- !app_assoc.
  repeat split; auto.
Qed.

Lemma run_effect (acts : list View.Action) (s : State) :
  map View.kept (videoSamples (View.run acts s))
  = map View.kept (videoSamples s)
    ++ map View.chunk_kept (View.video_chunks (flat_map View.callbacks acts))
  /\ map View.kept (audioSamples (View.run acts s))
     = map View.kept (audioSamples s)
       ++ map View.audio_kept (View.kept_audio_chunks (flat_map View.callbacks acts))
  /\ (View.packed 0 (videoSamples s) -> View.packed 0 (videoSamples (View.run acts s)))
  /\ (View.packed 0 (audioSamples s) -> View.packed 0 (audioSamples (View.run acts s))).
Proof.
  revert s. induction acts as [|a acts IH]; intros s.
  { simpl. rewrite !app_nil_r. repeat split; trivial. }
  change (View.run (a :: acts) s) with (View.run acts (View.act s a)).
  destruct (IH (View.act s a)) as (I1 & I2 & I3 & I4).
  destruct (act_samples s a) as (A1 & A2).
  destruct (deliver_all_effect (View.callbacks a) s) as (D1 & D2 & D3 & D4).
  simpl flat_map.
  rewrite video_chunks_app, kept_audio_chunks_app, !map_app, I1, I2, A1, A2, D1, D2,
    <- !app_assoc.
  split; [reflexivity|]. split; [reflexivity|].
  split; intros Hp; [apply I3 | apply I4]; [rewrite A1 | rewrite A2]; auto.
Qed.

(** X1. Through any sequence of method calls and engine callbacks on a new
    muxer, the video samples are exactly the video chunks the engine
    delivered, in delivery order, each with its payload, its key flag as
    sync flag and its byte length as size; the audio samples are exactly the
    delivered audio chunks that carry a non-zero duration, all of them sync
    samples.  No method call adds, removes or reorders a sample. *)
Theorem samples_are_the_delivered_chunks (c : Config) (acts : list View.Action) :
  let s := View.run acts (new c) in
  let evs := flat_map View.callbacks acts in
  map View.kept (videoSamples s)
  = map (fun chunk => (v_payload chunk, View.is_key_chunk chunk,
                       JS.length (v_payload chunk))) (View.video_chunks evs)
  /\ map View.kept (audioSamples s)
     = map (fun chunk => (a_payload chunk, true, JS.length (a_payload chunk)))
           (View.kept_audio_chunks evs).
Proof.
  intros s evs. destruct (run_effect acts (new c)) as (H1 & H2 & _).
  split; [exact H1 | exact H2].
Qed.

(** X2. Through any sequence of method calls and engine callbacks on a new
    muxer, each track stays packed: every sample's size is the length of
    its payload and its offset is the total length of the payloads before
    it. *)
Theorem tracks_stay_packed (c : Config) (acts : list View.Action) :
  View.packed 0 (videoSamples (View.run acts (new c)))
  /\ View.packed 0 (audioSamples (View.run acts (new c))).
Proof.
  destruct (run_effect acts (new c)) as (_ & _ & H3 & H4).
  split; [apply H3 | apply H4]; exact I.
Qed.

End MuxRuns.

(** ** The assembled file *)
Section Assembly.
Import Mux.

Lemma typed_set_at {A} (pre junk src : list A) :
  (List.length src <= List.length junk)%nat ->
  JS.typed_set (pre ++ junk) src (JS.length pre)
  = Some (pre ++ src ++ skipn (List.length src) junk).
Proof.
  intros H. unfold JS.typed_set, JS.length.
  replace (Z.of_nat (List.length pre) <? 0) with false
    by (symmetry; apply Z.ltb_ge; lia).
  replace (Z.of_nat (List.length (pre ++ junk))
           <? Z.of_nat (List.length pre) + Z.of_nat (List.length src)) with false
    by (symmetry; apply Z.ltb_ge; rewrite length_app; lia).
  simpl. rewrite Nat2Z.id.
  rewrite firstn_app, Nat.sub_diag, firstn_all, app_nil_r. simpl.
  rewrite skipn_app, skipn_all2 by lia. simpl.
  replace (List.length pre + List.length src - List.length pre)%nat
    with (List.length src) by lia.
  reflexivity.
Qed.

Lemma payloads_length_cons (x : Sample) (l : list Sample) :
  List.length (View.payloads (x :: l))
  = (List.length (data x) + List.length (View.payloads l))%nat.
Proof. unfold View.payloads. simpl. now rewrite length_app. Qed.

(** Writing a packed track into a buffer, from where the track starts,
    lays its payloads end to end. *)
Lemma write_samples_packed (base start : Z) (l : list Sample) (pre junk : bytes) :
  View.packed start l -> JS.length pre = start + base ->
  (List.length (View.payloads l) <= List.length junk)%nat ->
  write_samples base l (pre ++ junk)
  = Some (pre ++ View.payloads l ++ skipn (List.length (View.payloads l)) junk).
Proof.
  revert start pre junk. induction l as [|x l IH]; intros start pre junk Hp Hpre Hlen.
  { reflexivity. }
  destruct Hp as (Ho & Hs & Hp). rewrite payloads_length_cons in Hlen.
  simpl. rewrite Ho, <- Hpre, typed_set_at by (clear - Hlen; lia).
  rewrite app_assoc. rewrite (IH (start + size x) (pre ++ data x));
    [| exact Hp | | rewrite length_skipn; clear - Hlen; lia].
  - unfold View.payloads. simpl. rewrite skipn_skipn, <- !app_assoc.
    rewrite length_app.
    rewrite (Nat.add_comm (List.length (List.concat (map data l)))).
    reflexivity.
  - unfold JS.length in *. rewrite length_app. lia.
Qed.

Lemma sizes_sum (start : Z) (l : list Sample) (a : Z) :
  View.packed start l ->
  fold_left (fun acc x => size x + acc) l a = a + JS.length (View.payloads l).
Proof.
  revert start a. induction l as [|x l IH]; intros start a Hp.
  { unfold View.payloads, JS.length. simpl. lia. }
  destruct Hp as (_ & Hs & Hp). simpl. rewrite (IH _ _ Hp), payloads_cons, Hs. ring.
Qed.

Lemma zeros_app (a b : nat) :
  zeros (Z.of_nat a + Z.of_nat b) = repeat Byte.x00 a ++ repeat Byte.x00 b.
Proof.
  unfold zeros. rewrite <- Nat2Z.inj_add, Nat2Z.id. apply repeat_app.
Qed.

(** The file [assemble] builds from packed tracks. *)
Lemma assemble_result (s : State) :
  View.packed 0 (videoSamples s) -> View.packed 0 (audioSamples s) ->
  videoSamples s <> [] ->
  exists ftyp mvhd videoDurationMs audioDurationMs,
    let file :=
      [ftyp;
       MkBox "mdat"
         [("data"%string,
           VBytes (View.payloads (videoSamples s) ++ View.payloads (audioSamples s)))] [];
       MkBox "moov" []
         [mvhd; video_trak s videoDurationMs;
          audio_trak s audioDurationMs (JS.length (View.payloads (videoSamples s)))]] in
    assemble s = (Ok file, set_mp4box (Some file) s)
    /\ View.box_type ftyp = "ftyp"%string
    /\ View.box_type mvhd = "mvhd"%string.
Proof.
  intros Hv Ha Hne. unfold assemble. cbv zeta.
  rewrite (sizes_sum 0 _ _ Hv), (sizes_sum 0 _ _ Ha). simpl (0 + _).
  unfold JS.length at 1 2. rewrite zeros_app.
  pose proof (write_samples_packed 0 0 (videoSamples s) []
                (repeat Byte.x00 (List.length (View.payloads (videoSamples s)))
                 ++ repeat Byte.x00 (List.length (View.payloads (audioSamples s))))
                Hv eq_refl) as Hw1.
  simpl app in Hw1. rewrite Hw1 by (rewrite length_app, !repeat_length; lia).
  clear Hw1.
  rewrite skipn_app, repeat_length, Nat.sub_diag, skipn_all2
    by (rewrite repeat_length; lia).
  simpl.
  pose proof (packed_last 0 _ Hv) as Hlast.
  destruct (JS.at_last (videoSamples s)) as [lastVideoSample|]; [|contradiction].
  simpl in Hlast. rewrite Hlast.
  rewrite (write_samples_packed _ 0 (audioSamples s) (View.payloads (videoSamples s))
             _ Ha) by (rewrite ?repeat_length; simpl; lia).
  rewrite skipn_all2, app_nil_r by (rewrite repeat_length; lia).
  do 4 eexists. split; [reflexivity|]. split; reflexivity.
Qed.

End Assembly.

Section AssembledTables.
Import Mux.

Lemma slice_middle {A} (pre mid post : list A) :
  JS.slice (pre ++ mid ++ post) (JS.length pre) (JS.length pre + JS.length mid) = mid.
Proof.
  rewrite slice_inside.
  - unfold JS.length. rewrite Nat2Z.id.
    replace (Z.to_nat (Z.of_nat (List.length pre) + Z.of_nat (List.length mid)
                       - Z.of_nat (List.length pre))) with (List.length mid) by lia.
    rewrite skipn_app, Nat.sub_diag, skipn_all. simpl.
    rewrite firstn_app, Nat.sub_diag, firstn_all. simpl. apply app_nil_r.
  - unfold JS.length. lia.
  - unfold JS.length. rewrite !length_app. lia.
Qed.

(** In a buffer that holds a packed track after [pre], every sample's
    offset and size delimit its payload. *)
Lemma packed_payload_at (base start : Z) (l : list Sample) (pre post : bytes)
    (i : nat) (smp : Sample) :
  View.packed start l -> JS.length pre = start + base ->
  nth_error l i = Some smp ->
  JS.slice (pre ++ View.payloads l ++ post)
           (offset smp + base) (offset smp + base + size smp)
  = data smp.
Proof.
  revert start pre i. induction l as [|x l IH]; intros start pre i Hp Hpre Hi.
  { destruct i; discriminate. }
  destruct Hp as (Ho & Hs & Hp). unfold View.payloads. simpl.
  destruct i as [|i]; simpl in Hi.
  - inversion Hi; subst smp. rewrite Ho, Hs, <- Hpre, <- app_assoc.
    apply slice_middle.
  - rewrite <- app_assoc, app_assoc.
    apply (IH (start + size x) (pre ++ data x) i Hp); [|exact Hi].
    rewrite Hs. unfold JS.length in *. rewrite length_app. lia.
Qed.

Lemma nth_error_map_some {A B} (f : A -> B) (l : list A) (i : nat) (x : A) :
  nth_error l i = Some x -> nth_error (map f l) i = Some (f x).
Proof. intros H. now rewrite nth_error_map, H. Qed.

(** What the accessors read in the assembled file. *)
Lemma assembled_tables (s : State) (ftyp mvhd : Box) (vd ad : Q) (d : bytes) (base : Z) :
  View.box_type ftyp = "ftyp"%string -> View.box_type mvhd = "mvhd"%string ->
  let file := [ftyp; MkBox "mdat" [("data"%string, VBytes d)] [];
               MkBox "moov" [] [mvhd; video_trak s vd; audio_trak s ad base]] in
  map View.box_type file = ["ftyp"; "mdat"; "moov"]%string
  /\ View.mdat_data file = Some d
  /\ (exists vstbl,
        View.stbl_of file 0 = Some vstbl
        /\ View.numbers_of "stco" "chunk_offsets" vstbl
           = Some (map (fun x => inject_Z (offset x + mdatStartOffset s)) (videoSamples s))
        /\ View.numbers_of "stsz" "sample_sizes" vstbl
           = Some (map (fun x => inject_Z (size x)) (videoSamples s))
        /\ View.numbers_of "stss" "sample_numbers" vstbl
           = Some (map (fun x => inject_Z (number x)) (filter sync (videoSamples s))))
  /\ (exists astbl,
        View.stbl_of file 1 = Some astbl
        /\ View.numbers_of "stco" "chunk_offsets" astbl
           = Some (map (fun x => inject_Z (offset x + base + mdatStartOffset s))
                       (audioSamples s))
        /\ View.numbers_of "stsz" "sample_sizes" astbl
           = Some (map (fun x => inject_Z (size x)) (audioSamples s))
        /\ View.child "stss" astbl = None).
Proof.
  intros Hf Hm file. unfold file.
  destruct ftyp as [ft ff fc], mvhd as [mt mf mc]. simpl in Hf, Hm. subst ft mt.
  split; [reflexivity|]. split; [reflexivity|].
  split; eexists; (split; [reflexivity|]); repeat split.
Qed.

End AssembledTables.


Section MultiplexedFile.
Import Mux.

Lemma multiplex_ok_inv (audioFlush videoFlush : FlushOutcome) (s : State)
    (file : MP4File) (s' : State) :
  multiplexToBuffer audioFlush videoFlush s = (Ok file, s') ->
  fl_rejected audioFlush = None /\ fl_rejected videoFlush = None
  /\ _encoderError (Spec.after_flushes audioFlush videoFlush s) = None
  /\ videoSamples (Spec.after_flushes audioFlush videoFlush s) <> []
  /\ assemble (Spec.after_flushes audioFlush videoFlush s) = (Ok file, s').
Proof.
  unfold multiplexToBuffer, Spec.after_flushes.
  destruct (fl_rejected audioFlush); [discriminate|].
  destruct (fl_rejected videoFlush); [discriminate|].
  destruct (_encoderError _); [discriminate|].
  destruct (JS.length _ =? 0) eqn:E; [discriminate|].
  intros H. repeat split; try exact H.
  intros Hnil. rewrite Hnil in E. discriminate.
Qed.

Lemma multiplex_ok (audioFlush videoFlush : FlushOutcome) (s : State) :
  fl_rejected audioFlush = None -> fl_rejected videoFlush = None ->
  _encoderError (Spec.after_flushes audioFlush videoFlush s) = None ->
  videoSamples (Spec.after_flushes audioFlush videoFlush s) <> [] ->
  multiplexToBuffer audioFlush videoFlush s
  = assemble (Spec.after_flushes audioFlush videoFlush s).
Proof.
  unfold multiplexToBuffer, Spec.after_flushes. intros -> -> -> Hne.
  destruct (videoSamples _) as [|x l]; [contradiction|].
  unfold JS.length. simpl List.length.
  replace (Z.of_nat (S (List.length l)) =? 0) with false
    by (symmetry; apply Z.eqb_neq; lia).
  reflexivity.
Qed.

Lemma run_packed (c : Config) (acts : list View.Action)
    (audioFlush videoFlush : FlushOutcome) :
  View.packed 0 (videoSamples
                   (Spec.after_flushes audioFlush videoFlush (View.run acts (new c))))
  /\ View.packed 0 (audioSamples
                      (Spec.after_flushes audioFlush videoFlush (View.run acts (new c)))).
Proof.
  unfold Spec.after_flushes.
  destruct (run_effect acts (new c)) as (_ & _ & R3 & R4).
  destruct (deliver_all_effect (fl_events audioFlush) (View.run acts (new c)))
    as (_ & _ & A3 & A4).
  destruct (deliver_all_effect (fl_events videoFlush)
              (deliver_all (fl_events audioFlush) (View.run acts (new c))))
    as (_ & _ & V3 & V4).
  split; [apply V3, A3, R3 | apply V4, A4, R4]; exact I.
Qed.

Lemma run_keeps (acts : list View.Action) (s : State) :
  Spec.well_accumulated (videoSamples s) ->
  Spec.well_accumulated (audioSamples s) ->
  Spec.well_accumulated (videoSamples (View.run acts s))
  /\ Spec.well_accumulated (audioSamples (View.run acts s)).
Proof.
  revert s. induction acts as [|a acts IH]; intros s Hv Ha; [split; assumption|].
  change (View.run (a :: acts) s) with (View.run acts (View.act s a)).
  destruct (act_samples s a) as (A1 & A2).
  destruct (deliver_all_keeps (View.callbacks a) s Hv Ha) as (D1 & D2).
  apply IH; [rewrite A1 | rewrite A2]; assumption.
Qed.

Lemma sync_numbers_snoc (l : list Sample) (x : Sample) :
  View.sync_numbers (l ++ [x])
  = View.sync_numbers l
    ++ (if sync x then [Z.of_nat (List.length l) + 1] else []).
Proof.
  unfold View.sync_numbers.
  rewrite length_app, Nat.add_comm. simpl List.length. rewrite seq_S, filter_app, map_app.
  f_equal.
  - f_equal. apply filter_ext_in. intros i Hi. apply in_seq in Hi.
    rewrite nth_error_app1 by lia. reflexivity.
  - simpl. rewrite nth_error_app2, Nat.sub_diag by lia. simpl.
    destruct (sync x); reflexivity.
Qed.

Lemma numbered_sync_numbers (l : list Sample) :
  (forall i x, nth_error l i = Some x -> number x = Z.of_nat i + 1) ->
  map number (filter sync l) = View.sync_numbers l.
Proof.
  induction l as [|x l IH] using rev_ind; intros Hn; [reflexivity|].
  rewrite sync_numbers_snoc, filter_app, map_app, IH.
  - f_equal. simpl. destruct (sync x) eqn:E; [|reflexivity]. simpl.
    rewrite (Hn (List.length l) x); [reflexivity|].
    now rewrite nth_error_app2, Nat.sub_diag by lia.
  - intros i y Hy. apply Hn. rewrite nth_error_app1; [exact Hy|].
    apply nth_error_Some. congruence.
Qed.

(** X3. When neither flush is rejected, no encoder error is recorded and
    at least one video sample has been accumulated once the flushes are
    done, [multiplexToBuffer] returns a file made of the boxes ftyp, mdat
    and moov, whose media data is the payloads of the video samples in
    order followed by the payloads of the audio samples in order; the file
    is stored in [mp4box] and nothing else in the muxer changes. *)
Theorem multiplex_writes_video_then_audio (c : Config) (acts : list View.Action)
    (audioFlush videoFlush : FlushOutcome) :
  let s := Spec.after_flushes audioFlush videoFlush (View.run acts (new c)) in
  fl_rejected audioFlush = None -> fl_rejected videoFlush = None ->
  _encoderError s = None -> videoSamples s <> [] ->
  exists file,
    multiplexToBuffer audioFlush videoFlush (View.run acts (new c))
    = (Ok file, set_mp4box (Some file) s)
    /\ map View.box_type file = ["ftyp"; "mdat"; "moov"]%string
    /\ View.mdat_data file
       = Some (View.payloads (videoSamples s) ++ View.payloads (audioSamples s)).
Proof.
  intros s Ha Hv He Hne.
  destruct (run_packed c acts audioFlush videoFlush) as (Pv & Pa).
  destruct (assemble_result s Pv Pa Hne) as (ftyp & mvhd & vd & ad & H & Hf & Hm).
  cbv zeta in H.
  destruct (assembled_tables s ftyp mvhd vd ad
              (View.payloads (videoSamples s) ++ View.payloads (audioSamples s))
              (JS.length (View.payloads (videoSamples s))) Hf Hm)
    as (T1 & T2 & _).
  eexists. split; [|split; [exact T1 | exact T2]].
  rewrite (multiplex_ok _ _ _ Ha Hv He Hne). exact H.
Qed.

Lemma multiplex_writes_video_then_audio_witness :
  exists file,
    multiplexToBuffer Examples.no_flush Examples.no_flush
      (View.run [View.Deliver (Examples.answer
                   ({| f_timestamp := 0; f_duration := Some 33333 |}, true));
                 View.Deliver (AudioOutput {| a_timestamp := 0; a_duration := Some 20000;
                                              a_payload := [Byte.x07] |})]
                (new DEFAULT_CONFIG))
    = (Ok file,
       set_mp4box (Some file)
         (Spec.after_flushes Examples.no_flush Examples.no_flush
            (View.run [View.Deliver (Examples.answer
                         ({| f_timestamp := 0; f_duration := Some 33333 |}, true));
                       View.Deliver (AudioOutput {| a_timestamp := 0;
                                                    a_duration := Some 20000;
                                                    a_payload := [Byte.x07] |})]
                      (new DEFAULT_CONFIG))))
    /\ map View.box_type file = ["ftyp"; "mdat"; "moov"]%string
    /\ View.mdat_data file = Some [Byte.x00; Byte.x01; Byte.x07].
Proof.
  apply (multiplex_writes_video_then_audio DEFAULT_CONFIG
           [View.Deliver (Examples.answer
              ({| f_timestamp := 0; f_duration := Some 33333 |}, true));
            View.Deliver (AudioOutput {| a_timestamp := 0; a_duration := Some 20000;
                                         a_payload := [Byte.x07] |})]
           Examples.no_flush Examples.no_flush);
    [reflexivity | reflexivity | reflexivity | vm_compute; discriminate].
Defined.

(** The file a successful [multiplexToBuffer] returns after a run. *)
Lemma multiplex_file (c : Config) (acts : list View.Action)
    (audioFlush videoFlush : FlushOutcome) (file : MP4File) (s' : State) :
  multiplexToBuffer audioFlush videoFlush (View.run acts (new c)) = (Ok file, s') ->
  exists s ftyp mvhd vd ad,
    file = [ftyp;
            MkBox "mdat"
              [("data"%string,
                VBytes (View.payloads (videoSamples s) ++ View.payloads (audioSamples s)))] [];
            MkBox "moov" []
              [mvhd; video_trak s vd;
               audio_trak s ad (JS.length (View.payloads (videoSamples s)))]]
    /\ View.box_type ftyp = "ftyp"%string /\ View.box_type mvhd = "mvhd"%string
    /\ videoSamples s' = videoSamples s /\ audioSamples s' = audioSamples s
    /\ mdatStartOffset s' = mdatStartOffset s
    /\ View.packed 0 (videoSamples s) /\ View.packed 0 (audioSamples s)
    /\ Spec.well_accumulated (videoSamples s).
Proof.
  intros H. apply multiplex_ok_inv in H. destruct H as (_ & _ & _ & Hne & H).
  destruct (run_packed c acts audioFlush videoFlush) as (Pv & Pa).
  set (s := Spec.after_flushes audioFlush videoFlush (View.run acts (new c))) in *.
  destruct (assemble_result s Pv Pa Hne) as (ftyp & mvhd & vd & ad & Hr & Hf & Hm).
  cbv zeta in Hr. rewrite Hr in H. inversion H; subst file s'.
  exists s, ftyp, mvhd, vd, ad.
  do 8 (split; [reflexivity || assumption|]).
  unfold s, Spec.after_flushes.
  destruct (run_keeps acts (new c) well_accumulated_nil well_accumulated_nil)
    as (Wv & Wa).
  destruct (deliver_all_keeps (fl_events audioFlush) _ Wv Wa) as (Wv1 & Wa1).
  apply (deliver_all_keeps (fl_events videoFlush) _ Wv1 Wa1).
Qed.

(** X4. In a file that [multiplexToBuffer] returns, the chunk offset and
    the sample size recorded for the i-th sample of a track delimit, in the
    media data, exactly the payload of that sample: the video track's
    tables locate every video payload and the audio track's tables every
    audio payload. *)
Theorem tables_locate_every_payload (c : Config) (acts : list View.Action)
    (audioFlush videoFlush : FlushOutcome) (file : MP4File) (s' : State) :
  multiplexToBuffer audioFlush videoFlush (View.run acts (new c)) = (Ok file, s') ->
  (forall i x, nth_error (videoSamples s') i = Some x ->
     View.sample_payload file (mdatStartOffset s') 0 i = Some (data x))
  /\ (forall i x, nth_error (audioSamples s') i = Some x ->
        View.sample_payload file (mdatStartOffset s') 1 i = Some (data x)).
Proof.
  intros H.
  destruct (multiplex_file c acts audioFlush videoFlush file s' H)
    as (s & ftyp & mvhd & vd & ad & -> & Hf & Hm & -> & -> & -> & Pv & Pa & _).
  destruct (assembled_tables s ftyp mvhd vd ad
              (View.payloads (videoSamples s) ++ View.payloads (audioSamples s))
              (JS.length (View.payloads (videoSamples s))) Hf Hm)
    as (_ & Td & (vstbl & Tv & Tvo & Tvs & _) & (astbl & Ta & Tao & Tas & _)).
  cbv zeta in Td, Tv, Ta.
  split; intros i x Hx; unfold View.sample_payload; rewrite Td.
  - rewrite Tv, Tvo, Tvs.
    rewrite (nth_error_map_some _ _ _ _ Hx).
    rewrite (nth_error_map_some (fun x => inject_Z (size x)) _ _ _ Hx).
    rewrite !Qfloor_Z. f_equal.
    replace (offset x + mdatStartOffset s - mdatStartOffset s) with (offset x + 0)
      by ring.
    apply (packed_payload_at 0 0 (videoSamples s) [] _ i x Pv eq_refl Hx).
  - rewrite Ta, Tao, Tas.
    rewrite (nth_error_map_some _ _ _ _ Hx).
    rewrite (nth_error_map_some (fun x => inject_Z (size x)) _ _ _ Hx).
    rewrite !Qfloor_Z. f_equal.
    replace (offset x + JS.length (View.payloads (videoSamples s))
             + mdatStartOffset s - mdatStartOffset s)
      with (offset x + JS.length (View.payloads (videoSamples s))) by ring.
    rewrite <- (app_nil_r (View.payloads (audioSamples s))).
    apply (packed_payload_at _ 0 (audioSamples s) _ [] i x Pa); [|exact Hx].
    ring.
Qed.

Lemma tables_locate_every_payload_witness :
  let r := multiplexToBuffer Examples.no_flush Examples.no_flush
             (View.run [View.Deliver (Examples.answer
                          ({| f_timestamp := 0; f_duration := Some 33333 |}, true));
                        View.Deliver (AudioOutput {| a_timestamp := 0;
                                                     a_duration := Some 20000;
                                                     a_payload := [Byte.x07] |})]
                       (new DEFAULT_CONFIG)) in
  let file := match fst r with Ok f => f | Throw _ => [] end in
  r = (Ok file, snd r)
  /\ View.sample_payload file (mdatStartOffset (snd r)) 0 0 = Some [Byte.x00; Byte.x01]
  /\ View.sample_payload file (mdatStartOffset (snd r)) 1 0 = Some [Byte.x07].
Proof.
  intros r file.
  assert (H : r = (Ok file, snd r)) by (vm_compute; reflexivity).
  split; [exact H|].
  destruct (tables_locate_every_payload DEFAULT_CONFIG _ _ _ file (snd r) H)
    as (Hv & Ha).
  split.
  - exact (Hv 0%nat _ eq_refl).
  - exact (Ha 0%nat _ eq_refl).
Defined.

(** X5. In a file that [multiplexToBuffer] returns, the sync sample table
    of the video track lists exactly the positions, counted from 1, of the
    video samples that came from key chunks, in increasing order; the audio
    track carries no sync sample table. *)
Theorem stss_lists_the_sync_samples (c : Config) (acts : list View.Action)
    (audioFlush videoFlush : FlushOutcome) (file : MP4File) (s' : State) :
  multiplexToBuffer audioFlush videoFlush (View.run acts (new c)) = (Ok file, s') ->
  exists vstbl astbl,
    View.stbl_of file 0 = Some vstbl /\ View.stbl_of file 1 = Some astbl
    /\ View.numbers_of "stss" "sample_numbers" vstbl
       = Some (map inject_Z (View.sync_numbers (videoSamples s')))
    /\ View.child "stss" astbl = None.
Proof.
  intros H.
  destruct (multiplex_file c acts audioFlush videoFlush file s' H)
    as (s & ftyp & mvhd & vd & ad & -> & Hf & Hm & -> & _ & _ & _ & _ & (Wn & _)).
  destruct (assembled_tables s ftyp mvhd vd ad
              (View.payloads (videoSamples s) ++ View.payloads (audioSamples s))
              (JS.length (View.payloads (videoSamples s))) Hf Hm)
    as (_ & _ & (vstbl & Tv & _ & _ & Tss) & (astbl & Ta & _ & _ & Tno)).
  exists vstbl, astbl. repeat split; try assumption.
  rewrite Tss, <- (numbered_sync_numbers _ Wn), map_map. reflexivity.
Qed.

Lemma stss_lists_the_sync_samples_witness :
  let r := multiplexToBuffer Examples.no_flush Examples.no_flush
             (View.run [View.Deliver (Examples.answer
                          ({| f_timestamp := 0; f_duration := Some 33333 |}, true));
                        View.Deliver (Examples.answer
                          ({| f_timestamp := 33333; f_duration := Some 33333 |}, false))]
                       (new DEFAULT_CONFIG)) in
  let file := match fst r with Ok f => f | Throw _ => [] end in
  r = (Ok file, snd r)
  /\ exists vstbl astbl,
       View.stbl_of file 0 = Some vstbl /\ View.stbl_of file 1 = Some astbl
       /\ View.numbers_of "stss" "sample_numbers" vstbl
          = Some (map inject_Z (View.sync_numbers (videoSamples (snd r))))
       /\ View.child "stss" astbl = None.
Proof.
  intros r file.
  assert (H : r = (Ok file, snd r)) by (vm_compute; reflexivity).
  split; [exact H|].
  exact (stss_lists_the_sync_samples DEFAULT_CONFIG _ _ _ file (snd r) H).
Defined.

End MultiplexedFile.


(** ** After an encoder error *)
Section EncoderErrors.
Import Mux.

Lemma deliver_failed (s : State) (ev : EncoderEvent) :
  View.failed s ->
  View.failed (deliver s ev) /\ View.all_requests (deliver s ev) = View.all_requests s.
Proof.
  intros (He & Hv & Ha). unfold View.failed, View.all_requests.
  destruct ev as [chunk meta | chunk | e]; unfold deliver.
  - destruct meta; cbn; repeat split; assumption.
  - unfold onEncodedAudioChunk.
    destruct (a_duration chunk) as [[|d|d]|]; cbn; repeat split; assumption.
  - cbn. repeat split; discriminate.
Qed.

Lemma deliver_all_failed (evs : list EncoderEvent) (s : State) :
  View.failed s ->
  View.failed (deliver_all evs s)
  /\ View.all_requests (deliver_all evs s) = View.all_requests s.
Proof.
  revert s. induction evs as [|ev evs IH]; intros s H; [split; trivial|].
  change (deliver_all (ev :: evs) s) with (deliver_all evs (deliver s ev)).
  destruct (deliver_failed s ev H) as (H1 & H2).
  destruct (IH _ H1) as (H3 & H4). split; [exact H3 | congruence].
Qed.

Lemma closeEncoders_failed (s : State) :
  View.failed s ->
  View.failed (closeEncoders s)
  /\ View.all_requests (closeEncoders s) = View.all_requests s.
Proof.
  intros (He & Hv & Ha). unfold View.failed, View.all_requests. cbn.
  repeat split; assumption.
Qed.

Lemma failed_pushes (s : State) :
  View.failed s ->
  exists e, _encoderError s = Some e
    /\ (forall f, pushVideoFrame f s = (Throw e, s))
    /\ pushAudioData s = (Throw e, s).
Proof.
  intros (He & _). destruct (_encoderError s) as [e|] eqn:E; [|contradiction].
  exists e. unfold pushVideoFrame, pushAudioData. rewrite E.
  repeat split; reflexivity.
Qed.

Lemma multiplex_failed (audioFlush videoFlush : FlushOutcome) (s : State) :
  View.failed s ->
  View.failed (snd (multiplexToBuffer audioFlush videoFlush s))
  /\ View.all_requests (snd (multiplexToBuffer audioFlush videoFlush s))
     = View.all_requests s
  /\ exists e, fst (multiplexToBuffer audioFlush videoFlush s) = Throw e.
Proof.
  intros H. unfold multiplexToBuffer.
  destruct (deliver_all_failed (fl_events audioFlush) s H) as (A1 & A2).
  destruct (deliver_all_failed (fl_events videoFlush) _ A1) as (V1 & V2).
  destruct (fl_rejected audioFlush) as [e|].
  { destruct (closeEncoders_failed _ A1) as (C1 & C2).
    split; [exact C1|]. split; [simpl; congruence | now exists e]. }
  destruct (fl_rejected videoFlush) as [e|].
  { destruct (closeEncoders_failed _ V1) as (C1 & C2).
    split; [exact C1|]. split; [simpl; congruence | now exists e]. }
  destruct V1 as (He & Hv & Ha).
  destruct (_encoderError _) as [e|] eqn:E; [|contradiction].
  split; [|split; [simpl; congruence | now exists e]].
  simpl. unfold View.failed. rewrite E. repeat split; assumption.
Qed.

Lemma act_failed (s : State) (a : View.Action) :
  View.failed s ->
  View.failed (View.act s a) /\ View.all_requests (View.act s a) = View.all_requests s.
Proof.
  intros H. destruct a as [ev | frame | | w h v au | | audioFlush videoFlush];
    unfold View.act.
  - apply deliver_failed, H.
  - destruct (failed_pushes s H) as (e & _ & -> & _). split; [exact H | reflexivity].
  - destruct (failed_pushes s H) as (e & _ & _ & ->). split; [exact H | reflexivity].
  - destruct H as (He & Hv & Ha).
    unfold configureEncoders, configure, View.failed, View.all_requests.
    destruct v; cbn; rewrite ?Hv; cbn; repeat split; assumption.
  - apply closeEncoders_failed, H.
  - destruct (multiplex_failed audioFlush videoFlush s H) as (M1 & M2 & _).
    split; assumption.
Qed.

Lemma run_failed (acts : list View.Action) (s : State) :
  View.failed s ->
  View.failed (View.run acts s) /\ View.all_requests (View.run acts s) = View.all_requests s.
Proof.
  revert s. induction acts as [|a acts IH]; intros s H; [split; trivial|].
  change (View.run (a :: acts) s) with (View.run acts (View.act s a)).
  destruct (act_failed s a H) as (H1 & H2).
  destruct (IH _ H1) as (H3 & H4). split; [exact H3 | congruence].
Qed.

(** X7. Once the engine has reported an encoder error the muxer is dead
    for good: whatever calls and callbacks follow, an error stays
    recorded, both encoders stay closed, no encoder receives another
    request, [pushVideoFrame] and [pushAudioData] throw the recorded error
    without touching the muxer, and [multiplexToBuffer] throws instead of
    returning a file. *)
Theorem encoder_error_is_permanent (s : State) (e : string) (acts : list View.Action) :
  let s' := View.run acts (deliver s (EncoderFailure e)) in
  (exists e', _encoderError s' = Some e'
     /\ (forall f, pushVideoFrame f s' = (Throw e', s'))
     /\ pushAudioData s' = (Throw e', s'))
  /\ enc_state (videoEncoder s') = Closed /\ enc_state (audioEncoder s') = Closed
  /\ View.all_requests s' = View.all_requests s
  /\ (forall audioFlush videoFlush,
        exists e', fst (multiplexToBuffer audioFlush videoFlush s') = Throw e').
Proof.
  intros s'.
  assert (H0 : View.failed (deliver s (EncoderFailure e)))
    by (cbn; repeat split; discriminate).
  destruct (run_failed acts _ H0) as (H & Hr). fold s' in H, Hr.
  split; [exact (failed_pushes s' H)|].
  pose proof H as (He & Hv & Ha).
  split; [exact Hv|]. split; [exact Ha|]. split; [exact Hr|].
  intros audioFlush videoFlush.
  apply (multiplex_failed audioFlush videoFlush s' H).
Qed.

End EncoderErrors.


(** ** The keyframe schedule *)
Section KeyframeSchedule.
Import Mux.

Lemma deliver_schedule (c : Config) (s : State) (ev : EncoderEvent) :
  View.on_schedule c s -> View.on_schedule c (deliver s ev).
Proof.
  intros (Hc & Hs & Hn). unfold View.on_schedule, View.keyframes_requested in *.
  destruct ev as [chunk meta | chunk | e]; unfold deliver.
  - destruct meta; cbn; repeat split; assumption.
  - unfold onEncodedAudioChunk.
    destruct (a_duration chunk) as [[|d|d]|]; cbn; repeat split; assumption.
  - cbn. split; [exact Hc|]. split; [right; discriminate | exact Hn].
Qed.

Lemma deliver_all_schedule (c : Config) (evs : list EncoderEvent) (s : State) :
  View.on_schedule c s -> View.on_schedule c (deliver_all evs s).
Proof.
  revert s. induction evs as [|ev evs IH]; intros s H; [exact H|].
  apply (IH (deliver s ev)), deliver_schedule, H.
Qed.

Lemma keyframes_requested_push (l : list (VideoFrame * bool)) (f : VideoFrame)
    (k : bool) :
  JS.length (filter snd (l ++ [(f, k)]))
  = JS.length (filter snd l) + (if k then 1 else 0).
Proof.
  unfold JS.length. rewrite filter_app, length_app. destruct k; simpl; lia.
Qed.

Lemma pushVideoFrame_schedule (c : Config) (f : VideoFrame) (s : State) :
  View.on_schedule c s -> View.on_schedule c (snd (pushVideoFrame f s)).
Proof.
  intros (Hc & Hs & Hn). unfold pushVideoFrame.
  destruct (_encoderError s) as [e|] eqn:He.
  { simpl. unfold View.on_schedule. rewrite He. repeat split; assumption. }
  destruct Hs as [Hs | Hs]; [|contradiction].
  unfold View.on_schedule, View.keyframes_requested, enc_encode in *.
  destruct (Qle_bool _ _); cbn; rewrite Hs; cbn;
    (split; [exact Hc|]); (split; [left; reflexivity|]);
    rewrite keyframes_requested_push, inject_Z_plus, Hn.
  - rewrite Hc. unfold View.keyframe_step. ring.
  - ring.
Qed.

Lemma pushAudioData_schedule (c : Config) (s : State) :
  View.on_schedule c s -> View.on_schedule c (snd (pushAudioData s)).
Proof.
  intros H. unfold pushAudioData.
  destruct (_encoderError s); [exact H|].
  unfold enc_encode. destruct (enc_state (audioEncoder s)); exact H.
Qed.

Lemma configureEncoders_schedule (c : Config) (w h : Z) (v au : bool) (s : State) :
  View.on_schedule c s -> View.on_schedule c (snd (configureEncoders w h v au s)).
Proof.
  intros (Hc & Hs & Hn). unfold View.on_schedule, View.keyframes_requested in *.
  unfold configureEncoders, configure.
  destruct v; cbn; [|repeat split; assumption].
  destruct (enc_state (videoEncoder s)) eqn:E; cbn; rewrite ?E;
    try (repeat split; assumption);
    destruct au; cbn;
    try (split; [exact Hc|]; split; [left; reflexivity | exact Hn]);
    destruct (enc_state (audioEncoder s)); cbn;
    (split; [exact Hc|]; split; [left; reflexivity | exact Hn]).
Qed.

Lemma assemble_schedule (c : Config) (s : State) :
  View.on_schedule c s -> View.on_schedule c (snd (assemble s)).
Proof.
  intros H. unfold assemble.
  destruct (write_samples 0 _ _); [|exact H].
  destruct (JS.at_last _); [|exact H].
  destruct (write_samples _ _ _); exact H.
Qed.

Lemma act_schedule (c : Config) (s : State) (a : View.Action) :
  View.closes a = false -> View.on_schedule c s -> View.on_schedule c (View.act s a).
Proof.
  intros Ha H. destruct a as [ev | frame | | w h v au | | audioFlush videoFlush];
    unfold View.act.
  - apply deliver_schedule, H.
  - apply pushVideoFrame_schedule, H.
  - apply pushAudioData_schedule, H.
  - apply configureEncoders_schedule, H.
  - discriminate.
  - simpl in Ha. unfold multiplexToBuffer.
    destruct (fl_rejected audioFlush); [discriminate|].
    destruct (fl_rejected videoFlush); [discriminate|].
    pose proof (deliver_all_schedule c (fl_events videoFlush) _
                  (deliver_all_schedule c (fl_events audioFlush) s H)) as H2.
    destruct (_encoderError _); [exact H2|].
    destruct (_ =? 0); [exact H2 | apply assemble_schedule, H2].
Qed.

Lemma run_schedule (c : Config) (acts : list View.Action) (s : State) :
  existsb View.closes acts = false -> View.on_schedule c s ->
  View.on_schedule c (View.run acts s).
Proof.
  revert s. induction acts as [|a acts IH]; intros s Ha H; [exact H|].
  simpl in Ha. apply Bool.orb_false_iff in Ha. destruct Ha as [Ha1 Ha2].
  apply (IH (View.act s a) Ha2), act_schedule; assumption.
Qed.

Lemma Qle_bool_compat (x y z : Q) : (x == y)%Q -> Qle_bool x z = Qle_bool y z.
Proof.
  intros H. destruct (Qle_bool y z) eqn:E.
  - apply Qle_bool_iff. apply Qle_bool_iff in E. now rewrite H.
  - destruct (Qle_bool x z) eqn:E'; [|reflexivity].
    apply Qle_bool_iff in E'. rewrite H in E'. apply Qle_bool_iff in E'. congruence.
Qed.

Lemma configured_schedule (c : Config) (w h : Z) :
  View.on_schedule c (Spec.configured c w h).
Proof.
  unfold View.on_schedule, View.keyframes_requested. cbn.
  split; [reflexivity|]. split; [left; reflexivity|].
  unfold JS.length. simpl. now rewrite Qmult_0_l.
Qed.

(** X6. On a configured muxer, as long as the encoders are not closed by
    [closeEncoders] or by a rejected flush, [nextKeyframeUs] is (in exact
    arithmetic) the keyframe interval times the number of keyframes
    requested so far.  So, while no encoder error is recorded, the next
    frame is accepted and is requested as a keyframe exactly when its
    timestamp has reached that many keyframe intervals. *)
Theorem keyframes_follow_the_schedule (c : Config) (w h : Z)
    (acts : list View.Action) :
  existsb View.closes acts = false ->
  let s := View.run acts (Spec.configured c w h) in
  (nextKeyframeUs s == inject_Z (View.keyframes_requested s) * View.keyframe_step c)%Q
  /\ forall f, _encoderError s = None ->
       fst (pushVideoFrame f s) = Ok tt
       /\ Spec.requests (snd (pushVideoFrame f s))
          = Spec.requests s
            ++ [(f, Qle_bool (inject_Z (View.keyframes_requested s)
                              * View.keyframe_step c)
                             (inject_Z (f_timestamp f)))].
Proof.
  intros Ha s.
  destruct (run_schedule c acts _ Ha (configured_schedule c w h)) as (Hc & Hs & Hn).
  fold s in Hc, Hs, Hn. split; [exact Hn|].
  intros f He. destruct Hs as [Hs | Hs]; [|contradiction].
  destruct (pushVideoFrame_spec f s (conj He Hs)) as (H1 & H2 & _).
  split; [exact H1|]. rewrite H2, (Qle_bool_compat _ _ _ Hn). reflexivity.
Qed.

Lemma keyframes_follow_the_schedule_witness :
  let s := View.run [View.PushVideo {| f_timestamp := 0; f_duration := Some 33333 |};
                     View.PushVideo {| f_timestamp := 33333; f_duration := Some 33333 |}]
                    (Spec.configured DEFAULT_CONFIG 1920 1080) in
  (nextKeyframeUs s
   == inject_Z (View.keyframes_requested s) * View.keyframe_step DEFAULT_CONFIG)%Q
  /\ forall f, _encoderError s = None ->
       fst (pushVideoFrame f s) = Ok tt
       /\ Spec.requests (snd (pushVideoFrame f s))
          = Spec.requests s
            ++ [(f, Qle_bool (inject_Z (View.keyframes_requested s)
                              * View.keyframe_step DEFAULT_CONFIG)
                             (inject_Z (f_timestamp f)))].
Proof.
  apply (keyframes_follow_the_schedule DEFAULT_CONFIG 1920 1080
           [View.PushVideo {| f_timestamp := 0; f_duration := Some 33333 |};
            View.PushVideo {| f_timestamp := 33333; f_duration := Some 33333 |}]).
  reflexivity.
Defined.

(** X21. A frame pushed before the encoders are configured is refused with
    an [InvalidStateError] but still takes the keyframe slot: on a new
    muxer with a positive keyframe interval, after such a refused push of a
    frame with timestamp 0 and a successful [configureEncoders], a frame
    whose timestamp lies before the first interval's end is requested as a
    delta frame. *)
Theorem early_push_takes_the_keyframe_slot (c : Config) (w h : Z) (f0 f : VideoFrame) :
  f_timestamp f0 = 0 ->
  (inject_Z (f_timestamp f) < View.keyframe_step c)%Q ->
  let s1 := snd (pushVideoFrame f0 (new c)) in
  let s2 := snd (configureEncoders w h true true s1) in
  fst (pushVideoFrame f0 (new c)) = Throw "InvalidStateError"%string
  /\ fst (configureEncoders w h true true s1) = Ok tt
  /\ fst (pushVideoFrame f s2) = Ok tt
  /\ Spec.requests (snd (pushVideoFrame f s2)) = [(f, false)].
Proof.
  intros H0 Hf s1 s2. subst s1 s2. unfold pushVideoFrame at 1 2 3. cbn.
  rewrite H0. change (Qle_bool 0 (inject_Z 0)) with true. cbn.
  split; [reflexivity|]. split; [reflexivity|].
  unfold pushVideoFrame. cbn.
  assert (Hk : Qle_bool (0 + Time.secToUs (keyframeIntevalSec c))
                 (inject_Z (f_timestamp f)) = false).
  { destruct (Qle_bool _ _) eqn:E; [|reflexivity].
    apply Qle_bool_iff in E. unfold View.keyframe_step in Hf.
    rewrite Qplus_0_l in E. exfalso. apply (Qlt_not_le _ _ Hf E). }
  rewrite Hk. cbn. split; reflexivity.
Qed.

Lemma early_push_takes_the_keyframe_slot_witness :
  let f0 := {| f_timestamp := 0; f_duration := Some 33333 |} in
  let s1 := snd (pushVideoFrame f0 (new DEFAULT_CONFIG)) in
  let s2 := snd (configureEncoders 1920 1080 true true s1) in
  fst (pushVideoFrame f0 (new DEFAULT_CONFIG)) = Throw "InvalidStateError"%string
  /\ fst (configureEncoders 1920 1080 true true s1) = Ok tt
  /\ fst (pushVideoFrame f0 s2) = Ok tt
  /\ Spec.requests (snd (pushVideoFrame f0 s2)) = [(f0, false)].
Proof.
  apply (early_push_takes_the_keyframe_slot DEFAULT_CONFIG 1920 1080
           {| f_timestamp := 0; f_duration := Some 33333 |}
           {| f_timestamp := 0; f_duration := Some 33333 |});
    reflexivity.
Defined.

End KeyframeSchedule.


(** ** Decode times *)
Section DecodeTimes.
Import Mux.









End DecodeTimes.


(** ** Configuring the encoders *)
Section Configure.
Import Mux.

(** X22. [configureEncoders] is not all-or-nothing.  When only the audio
    configuration is refused it throws, but the dimensions are stored and
    the video encoder, unless it was closed, is left configured while the
    audio encoder is untouched: with no encoder error recorded,
    [pushVideoFrame] then succeeds, and [pushAudioData] throws an
    [InvalidStateError] if the audio encoder was never configured. *)
Theorem audio_refusal_leaves_video_configured (s : State) (w h : Z) :
  enc_state (videoEncoder s) <> Closed ->
  let r := configureEncoders w h true false s in
  fst r = Throw "AudioEncoder config not supported."%string
  /\ videoWidth (snd r) = w /\ videoHeight (snd r) = h
  /\ enc_state (videoEncoder (snd r)) = Configured
  /\ audioEncoder (snd r) = audioEncoder s
  /\ (_encoderError s = None ->
      (forall f, fst (pushVideoFrame f (snd r)) = Ok tt)
      /\ (enc_state (audioEncoder s) = Unconfigured ->
          fst (pushAudioData (snd r)) = Throw "InvalidStateError"%string)).
Proof.
  intros Hv r. subst r. unfold configureEncoders, configure. cbn.
  destruct (enc_state (videoEncoder s)) eqn:E; [| |contradiction]; cbn;
    (do 5 (split; [reflexivity|])); intros He; (split; [intros f | intros Ha]).
  all: unfold pushVideoFrame, pushAudioData, enc_encode; cbn; rewrite He.
  all: try (destruct (Qle_bool _ _); reflexivity).
  all: rewrite Ha; reflexivity.
Qed.

Lemma audio_refusal_leaves_video_configured_witness :
  let r := configureEncoders 1920 1080 true false (new DEFAULT_CONFIG) in
  fst r = Throw "AudioEncoder config not supported."%string
  /\ videoWidth (snd r) = 1920 /\ videoHeight (snd r) = 1080
  /\ enc_state (videoEncoder (snd r)) = Configured
  /\ audioEncoder (snd r) = audioEncoder (new DEFAULT_CONFIG)
  /\ (_encoderError (new DEFAULT_CONFIG) = None ->
      (forall f, fst (pushVideoFrame f (snd r)) = Ok tt)
      /\ (enc_state (audioEncoder (new DEFAULT_CONFIG)) = Unconfigured ->
          fst (pushAudioData (snd r)) = Throw "InvalidStateError"%string)).
Proof.
  apply (audio_refusal_leaves_video_configured (new DEFAULT_CONFIG) 1920 1080).
  simpl. discriminate.
Defined.

End Configure.
